(** * seneschal-core: the synchronisation subsystem

    A shallow embedding of the sync engine ([core/js/sync/index.js]), the
    OAuth2 handler ([core/js/oauth/index.js]) and the Google Drive provider
    ([core/js/providers/google-drive.js]), with the properties of each one.

    JavaScript values are modelled by the types the code expects of them:
    a record is an object with a string [id]; a snapshot is null, an array
    of records or an object; [localStorage] is a typed store.  Numbers are
    integers ([Z]); the time value of a [Date] is [option Z], [None] being
    [NaN]. *)

From Stdlib Require Import ZArith Bool Ascii String List Lia.
From stdpp Require Import base option list strings gmap.

Set Warnings "-register-all".

Open Scope Z_scope.

(** ** JavaScript preliminaries *)

(** What a function call completes with: a value, or a thrown value. *)
Inductive thrown :=
  | JsError (message : string)   (* an [Error] object *)
  | JsNullish                    (* [throw null] / [throw undefined] *)
  | JsPrimitive.                 (* any other thrown value: it has no [message] *)

Inductive completion (A : Type) :=
  | Normal (a : A)
  | Throw (e : thrown).
Arguments Normal {A} a.
Arguments Throw {A} e.

(** Scalar property values. *)
Inductive scalar :=
  | SNull
  | SBool (b : bool)
  | SNum (n : Z)
  | SStr (s : string).

(** [v || 0] is [0] exactly when [v] is falsy; [None] is [undefined]. *)
Definition truthy (v : option scalar) : bool :=
  match v with
  | None | Some SNull | Some (SBool false) | Some (SNum 0) => false
  | Some (SStr s) => negb (String.eqb s "")
  | Some _ => true
  end.

(** [TimeClip]: a time value outside +-8.64e15 ms is [NaN]. *)
Definition TimeClip (n : Z) : option Z :=
  if Z.abs n <=? 8640000000000000 then Some n else None.

(** [a > b] on time values: false as soon as one side is [NaN]. *)
Definition gt (a b : option Z) : bool :=
  match a, b with
  | Some x, Some y => y <? x
  | _, _ => false
  end.

(** [s.indexOf(needle)]: the first position where [needle] starts, or -1. *)
Fixpoint indexOf_from (needle s : string) (i : Z) : Z :=
  if String.prefix needle s then i
  else match s with
       | EmptyString => -1
       | String _ s' => indexOf_from needle s' (i + 1)
       end.

Definition indexOf (needle s : string) : Z := indexOf_from needle s 0.

(** [s.substring(start, finish)], and [s.substring(start)] when [finish] is
    [None]: both ends are clamped to the string and swapped when out of order. *)
Definition js_substring (s : string) (start : Z) (finish : option Z) : string :=
  let len := Z.of_nat (String.length s) in
  let clamp x := Z.min (Z.max x 0) len in
  let a := clamp start in
  let b := match finish with Some e => clamp e | None => len end in
  let lo := Z.min a b in
  let hi := Z.max a b in
  String.substring (Z.to_nat lo) (Z.to_nat (hi - lo)) s.

Fixpoint drop_chars (n : nat) (s : string) : string :=
  match n, s with
  | S n', String _ s' => drop_chars n' s'
  | _, _ => s
  end.

(** [s.replace(pattern, replacement)] with a string pattern: the first
    occurrence only. *)
Fixpoint replace_first (pattern replacement s : string) : string :=
  if String.prefix pattern s then replacement +:+ drop_chars (String.length pattern) s
  else match s with
       | EmptyString => EmptyString
       | String c s' => String c (replace_first pattern replacement s')
       end.

(** [Date.parse] on the UTC date-time format that [toISOString] writes,
    [YYYY-MM-DDTHH:MM:SS.sssZ], and on the same without the milliseconds.
    Strings of other formats are left to [NaN] here; the properties below
    hold for every parse function, this one gives the examples their times. *)
Definition digit (c : ascii) : option Z :=
  let n := Z.of_nat (nat_of_ascii c) in
  if (48 <=? n) && (n <=? 57) then Some (n - 48) else None.

Definition digits2 (a b : ascii) : option Z :=
  match digit a, digit b with
  | Some x, Some y => Some (10 * x + y)
  | _, _ => None
  end.

Definition digits3 (a b c : ascii) : option Z :=
  match digit a, digits2 b c with
  | Some x, Some y => Some (100 * x + y)
  | _, _ => None
  end.

Definition is_leap (y : Z) : bool :=
  ((y mod 4 =? 0) && negb (y mod 100 =? 0)) || (y mod 400 =? 0).

Definition days_in_month (y m : Z) : Z :=
  if m =? 2 then (if is_leap y then 29 else 28)
  else if (m =? 4) || (m =? 6) || (m =? 9) || (m =? 11) then 30
  else 31.

(** Days from 1970-01-01 to the civil date [y]-[m]-[d]. *)
Definition days_from_civil (y m d : Z) : Z :=
  let y' := if m <=? 2 then y - 1 else y in
  let era := y' / 400 in
  let yoe := y' - era * 400 in
  let mp := (m + 9) mod 12 in
  let doy := (153 * mp + 2) / 5 + d - 1 in
  let doe := yoe * 365 + yoe / 4 - yoe / 100 + doy in
  era * 146097 + doe - 719468.

(** The time value of a date and a time of day, given by their digits. *)
Definition utc_time (yh yl m d h n sec ms : option Z) : option Z :=
  match yh, yl, m, d, h, n, sec, ms with
  | Some yh, Some yl, Some m, Some d, Some h, Some n, Some sec, Some ms =>
      let y := 100 * yh + yl in
      if (1 <=? m) && (m <=? 12) && (1 <=? d) && (d <=? days_in_month y m)
         && (h <=? 23) && (n <=? 59) && (sec <=? 59)
      then Some ((((days_from_civil y m d * 24 + h) * 60 + n) * 60 + sec) * 1000 + ms)
      else None
  | _, _, _, _, _, _, _, _ => None
  end.

Definition Date_parse_utc (s : string) : option Z :=
  match list_ascii_of_string s with
  | [y1; y2; y3; y4; "-"; m1; m2; "-"; d1; d2; "T";
     h1; h2; ":"; n1; n2; ":"; s1; s2; "Z"]%char =>
      utc_time (digits2 y1 y2) (digits2 y3 y4) (digits2 m1 m2) (digits2 d1 d2)
               (digits2 h1 h2) (digits2 n1 n2) (digits2 s1 s2) (Some 0)
  | [y1; y2; y3; y4; "-"; m1; m2; "-"; d1; d2; "T";
     h1; h2; ":"; n1; n2; ":"; s1; s2; "."; f1; f2; f3; "Z"]%char =>
      utc_time (digits2 y1 y2) (digits2 y3 y4) (digits2 m1 m2) (digits2 d1 d2)
               (digits2 h1 h2) (digits2 n1 n2) (digits2 s1 s2) (digits3 f1 f2 f3)
  | _ => None
  end.

(** ** The merge engine ([mergeData], [mergeArrays]) *)

Module Merge.

(** A record of synced data: [id], [updatedAt] and its other properties. *)
Record item := Item {
  id : string;
  updatedAt : option scalar;
  fields : gmap string scalar
}.

(** An object snapshot: its [items] array when it has one, and its other
    properties.  An [items] property that is not an array is one of the
    other properties; an object with an [items] array has no [items] among
    them. *)
Record object := Object {
  items : option (list item);
  props : gmap string scalar
}.

Inductive snapshot :=
  | Absent                      (* null / undefined *)
  | Arr (l : list item)
  | Obj (o : object).

Record merge_result (A : Type) := MergeResult {
  local : A;
  hasLocalChanges : bool
}.
Arguments MergeResult {A} _ _.
Arguments local {A} _.
Arguments hasLocalChanges {A} _.

(** The [Map] of [mergeArrays]: keys in insertion order; [set] on a key
    already there replaces the value in place. *)
Definition jsmap := list (string * item).

Fixpoint map_get (k : string) (m : jsmap) : option item :=
  match m with
  | [] => None
  | (k', v) :: m' => if String.eqb k k' then Some v else map_get k m'
  end.

Fixpoint map_set (k : string) (v : item) (m : jsmap) : jsmap :=
  match m with
  | [] => [(k, v)]
  | (k', v') :: m' =>
      if String.eqb k k' then (k, v) :: m' else (k', v') :: map_set k v m'
  end.

Definition map_values (m : jsmap) : list item := snd <$> m.

Section Engine.

(** [Date.parse] on a non-empty string; [None] is [NaN]. *)
Variable Date_parse : string -> option Z.

(** [new Date(v || 0).getTime()] *)
Definition getTime (v : option scalar) : option Z :=
  if truthy v then
    match v with
    | Some (SStr s) => Date_parse s
    | Some (SNum n) => TimeClip n
    | Some (SBool _) => Some 1
    | _ => Some 0
    end
  else Some 0.

(** First loop: [merged.set(item.id, item)] for every local item. *)
Definition seed (local : list item) : jsmap :=
  fold_left (fun merged item => map_set (id item) item merged) local [].

(** Second loop, one remote item. *)
Definition merge_remote (st : jsmap * bool) (remoteItem : item) : jsmap * bool :=
  let '(merged, hasLocalChanges) := st in
  match map_get (id remoteItem) merged with
  | None => (map_set (id remoteItem) remoteItem merged, hasLocalChanges)
  | Some localItem =>
      let localTime := getTime (updatedAt localItem) in
      let remoteTime := getTime (updatedAt remoteItem) in
      if gt remoteTime localTime then
        (map_set (id remoteItem) remoteItem merged, hasLocalChanges)
      else if gt localTime remoteTime then (merged, true)
      else (merged, hasLocalChanges)
  end.

(** Third loop, one local item: [remote.find((r) => r.id === item.id)]. *)
Definition only_local (remote : list item) (hasLocalChanges : bool) (item : item) : bool :=
  match find (fun r => String.eqb (id r) (id item)) remote with
  | None => true
  | Some _ => hasLocalChanges
  end.

Definition mergeArrays (local remote : list item) : merge_result (list item) :=
  let merged := seed local in
  let '(merged, hasLocalChanges) := fold_left merge_remote remote (merged, false) in
  let hasLocalChanges := fold_left (only_local remote) local hasLocalChanges in
  MergeResult (map_values merged) hasLocalChanges.

(** [x.items]: an array has no such property. *)
Definition get_items (x : snapshot) : option (list item) :=
  match x with
  | Obj o => items o
  | _ => None
  end.

(** [x.updatedAt] *)
Definition get_updatedAt (x : snapshot) : option scalar :=
  match x with
  | Obj o => props o !! "updatedAt"%string
  | _ => None
  end.

Definition get_props (x : snapshot) : gmap string scalar :=
  match x with
  | Obj o => props o
  | _ => ∅
  end.

Definition mergeData (local remote : snapshot) (lastSync : option string)
  : merge_result snapshot :=
  match remote with
  | Absent => MergeResult local true
  | _ =>
    match local with
    | Absent => MergeResult remote false
    | _ =>
      match local, remote with
      | Arr l, Arr r =>
          let m := mergeArrays l r in
          MergeResult (Arr (Merge.local m)) (hasLocalChanges m)
      | _, _ =>
        match get_items local, get_items remote with
        | Some li, Some ri =>
            (* { ...local, ...remote, items: mergedItems.local } *)
            let mergedItems := mergeArrays li ri in
            MergeResult
              (Obj (Object (Some (Merge.local mergedItems))
                           (get_props remote ∪ get_props local)))
              (hasLocalChanges mergedItems)
        | _, _ =>
            let localTime := getTime (get_updatedAt local) in
            let remoteTime := getTime (get_updatedAt remote) in
            if gt remoteTime localTime then MergeResult remote false
            else MergeResult local (gt localTime remoteTime)
        end
      end
    end
  end.

(** *** Vocabulary of the properties *)

Definition keys (m : jsmap) : list string := fst <$> m.

(** Every entry is stored under the id of its record, and no key occurs twice. *)
Definition well_keyed (m : jsmap) : Prop :=
  NoDup (keys m) /\ Forall (fun kv => id (snd kv) = fst kv) m.

(** [later r l]: the time of [r] is strictly greater than the time of [l]. *)
Definition later (r l : item) : bool :=
  gt (getTime (updatedAt r)) (getTime (updatedAt l)).

(** What the loops of [mergeArrays] leave under one key depends only on the
    records that carry this key: [seed_at] is the first loop and [merge_at]
    the second, seen from key [k]. *)
Definition seed_at (k : string) (cur : option item) (x : item) : option item :=
  if String.eqb k (id x) then Some x else cur.

Definition merge_at (k : string) (cur : option item) (r : item) : option item :=
  if String.eqb k (id r) then
    match cur with
    | None => Some r
    | Some l => if later r l then Some r else Some l
    end
  else cur.

Definition seed_from (A : list item) (m : jsmap) : jsmap :=
  fold_left (fun merged item => map_set (id item) item merged) A m.

Definition merged_map (A B : list item) : jsmap :=
  fst (fold_left merge_remote B (seed A, false)).

(** What is stored under [k] once both loops have run. *)
Definition resolve (k : string) (A B : list item) : option item :=
  fold_left (merge_at k) B (fold_left (seed_at k) A None).

(** The three shapes of a snapshot that is there: an array of records, an
    object with an [items] array, and a scalar object, which has no [items]
    or a falsy one.  An object whose [items] is truthy and not an array has
    none of the shapes (the code would iterate that value), and neither has
    a record that writes [items] twice. *)
Inductive shape := ArrayShape | ItemsShape | ScalarShape.

Definition shape_of (x : snapshot) : option shape :=
  match x with
  | Absent => None
  | Arr _ => Some ArrayShape
  | Obj o =>
      match items o, props o !! "items"%string with
      | Some _, None => Some ItemsShape
      | Some _, Some _ => None
      | None, v => if truthy v then None else Some ScalarShape
      end
  end.

Definition matching_shape (a b : snapshot) : Prop :=
  exists s, shape_of a = Some s /\ shape_of b = Some s.

End Engine.

End Merge.

(** *** Sample data: two devices editing the same list *)

Module MergeSamples.
Import Merge.

Definition note (i : string) (t : string) (title : string) : item :=
  Item i (Some (SStr t)) {[ "title"%string := SStr title ]}.

(** Local copy: [x] edited at 00:00:10, [r1] created locally. *)
Definition local_x : item := note "x" "2025-01-01T00:00:10Z" "A".
Definition local_r1 : item := note "r1" "2025-01-01T00:00:01Z" "one".
(** Remote copy: [x] edited at 00:00:05, [y] newer remotely, [r2] remote-only. *)
Definition remote_x : item := note "x" "2025-01-01T00:00:05Z" "B".
Definition local_y : item := note "y" "2025-01-01T00:00:02Z" "old".
Definition remote_y : item := note "y" "2025-01-01T00:00:07Z" "new".
Definition remote_r2 : item := note "r2" "2025-01-01T00:00:03Z" "two".

Definition device : list item := [local_x; local_r1; local_y].
Definition cloud : list item := [remote_r2; remote_x; remote_y].

Definition settings_local : snapshot :=
  Obj (Object None {[ "theme"%string := SStr "dark";
                      "updatedAt"%string := SStr "2025-01-01T00:00:10Z" ]}).
Definition settings_remote : snapshot :=
  Obj (Object None {[ "theme"%string := SStr "light";
                      "updatedAt"%string := SStr "2025-01-01T00:00:05Z" ]}).

End MergeSamples.

(** ** The OAuth2 handler ([getToken], [getOAuthState], [handleCallback]) *)

Module OAuth.

(** The two families of [localStorage] entries the handler owns, each keyed
    by provider name: [oauth-<provider>] and [token-<provider>].  An entry
    holds the record its writer serialised. *)
Record oauth_session := Session {
  state : string;
  verifier : string;
  timestamp : Z
}.

(** [expiry] is the number that [parsed.expiry - 5 * 60 * 1000] computes
    with: the number stored, and 0 for a stored null. *)
Record token_record := TokenRecord {
  accessToken : string;
  refreshToken : option string;
  expiry : Z
}.

(** The page: [localStorage], the clock [Date.now()] and the query string
    [window.location.search] as the list of its name/value pairs. *)
Record world := World {
  sessions : gmap string oauth_session;
  tokens : gmap string token_record;
  now : Z;
  search : list (string * string)
}.

Definition set_sessions (f : gmap string oauth_session -> gmap string oauth_session)
  (w : world) : world :=
  World (f (sessions w)) (tokens w) (now w) (search w).

Definition set_tokens (f : gmap string token_record -> gmap string token_record)
  (w : world) : world :=
  World (sessions w) (f (tokens w)) (now w) (search w).

Definition set_search (q : list (string * string)) (w : world) : world :=
  World (sessions w) (tokens w) (now w) q.

(** A string is truthy when it is there and not empty. *)
Definition truthy_str (v : option string) : bool :=
  match v with
  | Some s => negb (String.eqb s "")
  | None => false
  end.

(** The names that the object literal [OAUTH_CONFIG] inherits from
    [Object.prototype]: looked up, each one gives a function or an object. *)
Definition inherited (name : string) : bool :=
  existsb (String.eqb name)
    ["constructor"; "hasOwnProperty"; "isPrototypeOf"; "propertyIsEnumerable";
     "toLocaleString"; "toString"; "valueOf"; "__proto__";
     "__defineGetter__"; "__defineSetter__"; "__lookupGetter__"; "__lookupSetter__"]%string.

(** [OAUTH_CONFIG[provider]], when it is truthy, by its [tokenUrl] as
    [fetch] takes it: the token endpoint of a configured provider, and the
    text [undefined] for an inherited name, whose value has no [tokenUrl].
    [None]: the lookup gives undefined. *)
Definition OAUTH_CONFIG (provider : string) : option string :=
  if String.eqb provider "google" then Some "https://oauth2.googleapis.com/token"%string
  else if String.eqb provider "dropbox" then Some "https://api.dropboxapi.com/oauth2/token"%string
  else if inherited provider then Some "undefined"%string
  else None.

(** [new URLSearchParams(search).get(name)]: the first value of [name]. *)
Fixpoint URLSearchParams_get (name : string) (q : list (string * string)) : option string :=
  match q with
  | [] => None
  | (n, v) :: q' => if String.eqb n name then Some v else URLSearchParams_get name q'
  end.

Definition getOAuthState (provider : string) (w : world) : option oauth_session * world :=
  match sessions w !! provider with
  | None => (None, w)
  | Some parsed =>
      (* Expire after 10 minutes *)
      if 10 * 60 * 1000 <? now w - timestamp parsed
      then (None, set_sessions (delete provider) w)
      else (Some parsed, w)
  end.

(** The body of a successful token response. *)
Record token_body := TokenBody {
  access_token : string;
  refresh_token : option string;
  expires_in : option Z
}.

(** A number is finite when its magnitude is below the one that rounds to
    [Infinity]. *)
Definition finite (x : Z) : bool := Z.abs x <? 2 ^ 1024 - 2 ^ 970.

(** [now + (token.expires_in || 3600) * 1000].  A sum that is not finite is
    written by [JSON.stringify] as null, which [getToken] reads as 0. *)
Definition saveToken (provider : string) (token : token_body) (w : world) : world :=
  let seconds := match expires_in token with
                 | Some 0 | None => 3600
                 | Some n => n
                 end in
  let expiry := if finite (seconds * 1000) then now w + seconds * 1000 else 0 in
  set_tokens (insert provider (TokenRecord (access_token token) (refresh_token token) expiry)) w.

Definition getToken (provider : string) (w : world) : option string * world :=
  match tokens w !! provider with
  | None => (None, w)
  | Some parsed =>
      (* Check expiry (with 5 minute buffer) *)
      if expiry parsed - 5 * 60 * 1000 <? now w then
        if truthy_str (refreshToken parsed) then (None, w)
        else (None, set_tokens (delete provider) w)
      else (Some (accessToken parsed), w)
  end.

Definition isAuthenticated (provider : string) (w : world) : bool * world :=
  let '(t, w) := getToken provider w in
  (match t with Some _ => true | None => false end, w).

Definition logout (provider : string) (w : world) : world :=
  set_sessions (delete provider) (set_tokens (delete provider) w).

(** The POST to the token endpoint. *)
Record token_request := TokenRequest {
  tokenUrl : string;
  client_id : string;
  code : string;
  redirect_uri : string;
  grant_type : string;
  code_verifier : string;
  client_secret : option string
}.

(** What the exchange comes back with.  It breaks when [fetch] rejects, or
    when the body of the response, [ok] or not, is not JSON
    ([tokenResponse.json()] rejects) or is null (reading its properties
    throws); [e] is what is thrown.  Otherwise the response is not [ok] and
    its body is read for [error_description] and [error], or it is [ok] and
    its body is a token with its [access_token]. *)
Inductive exchange_result :=
  | ExchangeBroken (e : thrown)
  | ExchangeRefused (error_description error : option string)
  | ExchangeGranted (token : token_body).

Section Handler.

Variable token_endpoint : token_request -> exchange_result.

(** [`${errorData.error_description || errorData.error}`] *)
Definition refusal_text (error_description error : option string) : string :=
  if truthy_str error_description then default "undefined"%string error_description
  else default "undefined"%string error.

Definition exchange_request (provider_url clientId redirectUri : string)
  (clientSecret : option string) (code : string) (savedState : oauth_session)
  : token_request :=
  TokenRequest provider_url clientId code redirectUri "authorization_code"
    (verifier savedState)
    (if truthy_str clientSecret then clientSecret else None).

Definition handleCallback (provider clientId redirectUri : string)
  (clientSecret : option string) (w : world) : completion bool * world :=
  match OAUTH_CONFIG provider with
  | None => (Throw (JsError ("Unknown provider: " +:+ provider)), w)
  | Some config_tokenUrl =>
    let code := URLSearchParams_get "code" (search w) in
    let state := URLSearchParams_get "state" (search w) in
    let error := URLSearchParams_get "error" (search w) in
    if truthy_str error then
      (Throw (JsError ("OAuth error: " +:+ default ""%string error)), w)
    else if negb (truthy_str code) || negb (truthy_str state) then
      (Throw (JsError "Missing code or state parameter"), w)
    else
      (* Verify state *)
      let '(savedState, w) := getOAuthState provider w in
      match savedState with
      | None => (Throw (JsError "Invalid state parameter"), w)
      | Some savedState =>
        if negb (String.eqb (OAuth.state savedState) (default ""%string state)) then
          (Throw (JsError "Invalid state parameter"), w)
        else
          (* Exchange code for token *)
          match token_endpoint
                  (exchange_request config_tokenUrl clientId redirectUri clientSecret
                     (default ""%string code) savedState) with
          | ExchangeBroken e => (Throw e, w)
          | ExchangeRefused error_description error =>
              (Throw (JsError ("Token exchange failed: "
                                 +:+ refusal_text error_description error)), w)
          | ExchangeGranted token =>
              let w := saveToken provider token w in
              let w := set_sessions (delete provider) w in    (* Clean up *)
              let w := set_search [] w in                     (* Clear URL *)
              (Normal true, w)
          end
      end
  end.

(** *** Vocabulary of the properties *)

(** The saved session of a provider, if it is there and not older than ten
    minutes. *)
Definition live_session (provider : string) (w : world) : option oauth_session :=
  match sessions w !! provider with
  | Some s => if 10 * 60 * 1000 <? now w - timestamp s then None else Some s
  | None => None
  end.

(** The exchange that a callback with its [code] and this saved session
    leads to. *)
Definition exchange_of (provider clientId redirectUri : string)
  (clientSecret : option string) (w : world) (s : oauth_session) : exchange_result :=
  token_endpoint
    (exchange_request (default ""%string (OAUTH_CONFIG provider)) clientId redirectUri
       clientSecret (default ""%string (URLSearchParams_get "code" (search w))) s).

Definition granted (r : exchange_result) : Prop :=
  exists token, r = ExchangeGranted token.

(** The failure condition as the specification words it: an [error]
    parameter is carried, or [code] or [state] is missing, or there is no
    live saved session, or its state differs, or the exchange is not a
    success. *)
Definition rejected_as_designed (provider clientId redirectUri : string)
  (clientSecret : option string) (w : world) : Prop :=
  is_Some (URLSearchParams_get "error" (search w)) \/
  URLSearchParams_get "code" (search w) = None \/
  URLSearchParams_get "state" (search w) = None \/
  match live_session provider w with
  | None => True
  | Some s =>
      Some (state s) <> URLSearchParams_get "state" (search w) \/
      ~ granted (exchange_of provider clientId redirectUri clientSecret w s)
  end.

(** The same condition as the code tests it: a parameter counts when its
    value is not empty. *)
Definition rejected (provider clientId redirectUri : string)
  (clientSecret : option string) (w : world) : Prop :=
  truthy_str (URLSearchParams_get "error" (search w)) = true \/
  truthy_str (URLSearchParams_get "code" (search w)) = false \/
  truthy_str (URLSearchParams_get "state" (search w)) = false \/
  match live_session provider w with
  | None => True
  | Some s =>
      Some (state s) <> URLSearchParams_get "state" (search w) \/
      ~ granted (exchange_of provider clientId redirectUri clientSecret w s)
  end.

(** The errors of the authentication taxonomy, by their messages. *)
Definition AuthError (e : thrown) : Prop :=
  match e with
  | JsError m =>
      String.prefix "OAuth error: " m = true \/
      m = "Missing code or state parameter"%string \/
      m = "Invalid state parameter"%string \/
      String.prefix "Token exchange failed: " m = true
  | _ => False
  end.

End Handler.

End OAuth.

(** *** Sample data: callbacks after a redirect to Google *)

Module OAuthSamples.
Import OAuth.

Definition granting (_ : token_request) : exchange_result :=
  ExchangeGranted (TokenBody "ya29.sample" None (Some 3599)).

Definition saved : oauth_session := Session "st-41" "verifier-41" 1000.

(** The redirect came back two seconds after the session was saved. *)
Definition callback_page : world :=
  World {[ "google"%string := saved ]} ∅ 3000
        [("code", "4/abc"); ("state", "st-41")]%string.

(** The same, with an [error] parameter that has no value. *)
Definition empty_error_page : world :=
  World {[ "google"%string := saved ]} ∅ 3000
        [("error", ""); ("code", "4/abc"); ("state", "st-41")]%string.

(** A token that expires at 4 000 000 ms, seen four minutes before. *)
Definition expiring (refresh : option string) : world :=
  World ∅ {[ "google"%string := TokenRecord "ya29.sample" refresh 4000000 ]}
        3760000 [].

End OAuthSamples.

(** ** The Google Drive provider *)

Module Drive.

(** Parsed JSON.  An object lists its properties; [prop] reads the first
    one of a name. *)
Inductive json :=
  | JNull
  | JBool (b : bool)
  | JNum (n : Z)
  | JStr (s : string)
  | JArr (l : list json)
  | JObj (fields : list (string * json)).

(** Truthiness of a value; [None] is [undefined]. *)
Definition json_truthy (v : option json) : bool :=
  match v with
  | None | Some JNull | Some (JBool false) | Some (JNum 0) => false
  | Some (JStr s) => negb (String.eqb s "")
  | Some _ => true
  end.

Fixpoint assoc (k : string) (fs : list (string * json)) : option json :=
  match fs with
  | [] => None
  | (k', v) :: fs' => if String.eqb k k' then Some v else assoc k fs'
  end.

(** [j.k] for a [j] that is neither null nor undefined. *)
Definition prop (k : string) (j : json) : option json :=
  match j with
  | JObj fs => assoc k fs
  | _ => None
  end.

(** [v || null] *)
Definition or_null (v : option json) : json :=
  if json_truthy v then default JNull v else JNull.

(** [typeof j === 'object'] *)
Definition is_object (j : json) : bool :=
  match j with
  | JNull | JArr _ | JObj _ => true
  | _ => false
  end.

(** The body of a response, as the code reads it: an empty text, a text
    that [JSON.parse] rejects, or a text that parses to a value. *)
Inductive body :=
  | EmptyBody
  | TextBody (text : string)
  | JsonBody (j : json).

Inductive http_result :=
  | NetworkError (e : thrown)           (* [window.fetch] rejects *)
  | Response (ok : bool) (b : body).

(** What a request carries besides its headers. *)
Inductive file_part :=
  | FileJson (j : json)
  | FileBlob (blob : string).

Inductive payload :=
  | NoPayload
  | JsonPayload (j : json)                          (* [JSON.stringify(...)] *)
  | FormPayload (metadata : json) (file : file_part). (* multipart form *)

Record request := Request {
  method : string;
  url : string;
  authorization : string;
  content_type : option string;
  sent_body : payload
}.

(** The [options] argument of [apiRequest]. *)
Record options := Options {
  opt_method : option string;
  opt_content_type : option string;
  opt_body : payload
}.

Definition no_options : options := Options None None NoPayload.

Record folder := Folder {
  folder_id : string;
  folder_name : string
}.

Record fetch_result := FetchResult {
  data : json;
  lastModified : json
}.

Record syncData := SyncData {
  sd_version : option json;
  sd_data : json;
  sd_lastModified : option json
}.

Record attachment := Attachment {
  att_id : string;
  remoteId : option json;
  filename : string;
  mimeType : option json;
  size : option Z
}.

Record domain_file := DomainFile {
  df_domain : string;
  df_fileId : option json
}.

Definition API_BASE : string := "https://www.googleapis.com".

(** The name under which [uploadAttachment] stores an attachment. *)
Definition attachment_name (attachmentId filename : string) : string :=
  attachmentId +:+ "-" +:+ filename.

(** How [listAttachments] reads an id and a file name back from a name. *)
Definition parse_attachment_name (name : string) : string * string :=
  let dashIndex := indexOf "-" name in
  let id := if 0 <? dashIndex then js_substring name 0 (Some dashIndex) else name in
  let filename := if 0 <? dashIndex then js_substring name (dashIndex + 1) None else name in
  (id, filename).

(** A string without the character [-]. *)
Definition dashless (s : string) : Prop := ~ In "-"%char (list_ascii_of_string s).

Section Provider.

(** The backend behind [window.fetch], with a state of its own. *)
Variable server : Type.
Variable window_fetch : request -> server -> http_result * server.

(** Built-ins the provider calls. *)
Variable encodeURIComponent : string -> string.
Variable toISOString : Z -> string.          (* of [new Date()] at a clock value *)
Variable String_of : json -> string.         (* a value that is not a string, in a template *)
Variable parseInt : option json -> option Z. (* [parseInt(v, 10)], [None] is [NaN] *)

(** The [domain] of [createGoogleDriveProvider(config)]. *)
Variable domain : string.

Definition DATA_FILE : string := domain +:+ "-data.json".

(** The page and the provider's closure: the OAuth store and clock, the
    saved folder of each domain ([<domain>-settings]), the two cached ids,
    the backend, and the requests sent so far. *)
Record world := World {
  auth : OAuth.world;
  settings : gmap string folder;
  fileId : option json;
  attachmentsFolderId : option json;
  remote : server;
  sent : list request
}.

Definition set_auth (a : OAuth.world) (w : world) : world :=
  World a (settings w) (fileId w) (attachmentsFolderId w) (remote w) (sent w).
Definition set_fileId (v : option json) (w : world) : world :=
  World (auth w) (settings w) v (attachmentsFolderId w) (remote w) (sent w).
Definition set_attachmentsFolderId (v : option json) (w : world) : world :=
  World (auth w) (settings w) (fileId w) v (remote w) (sent w).

(** A computation of the provider: it ends with a value or a thrown value,
    in a new world. *)
Definition M (A : Type) : Type := world -> completion A * world.

Definition ret {A} (a : A) : M A := fun w => (Normal a, w).
Definition throw {A} (e : thrown) : M A := fun w => (Throw e, w).
Definition bind {A B} (m : M A) (k : A -> M B) : M B :=
  fun w => match m w with
           | (Normal a, w') => k a w'
           | (Throw e, w') => (Throw e, w')
           end.
(** [try { m } catch { h }] *)
Definition try_catch {A} (m : M A) (h : thrown -> M A) : M A :=
  fun w => match m w with
           | (Normal a, w') => (Normal a, w')
           | (Throw e, w') => h e w'
           end.

Notation "'let*' x ':=' m 'in' k" := (bind m (fun x => k))
  (at level 10, x pattern, m at level 100, k at level 200).

(** [${v}] in a template string. *)
Definition template (v : option json) : string :=
  match v with
  | None => "undefined"
  | Some JNull => "null"
  | Some (JStr s) => s
  | Some v => String_of v
  end.

Definition getToken : M (option string) :=
  fun w => let '(t, a) := OAuth.getToken "google" (auth w) in (Normal t, set_auth a w).

(** [await window.fetch(...)]: the request goes out and is recorded. *)
Definition send (r : request) : M (bool * body) :=
  fun w =>
    let '(res, srv) := window_fetch r (remote w) in
    let w' := World (auth w) (settings w) (fileId w) (attachmentsFolderId w) srv (sent w ++ [r]) in
    match res with
    | NetworkError e => (Throw e, w')
    | Response ok b => (Normal (ok, b), w')
    end.

(** [getSavedFolder(domain)]: the saved folder when its id is truthy. *)
Definition saved_folder (w : world) : option folder :=
  match settings w !! domain with
  | Some f => if String.eqb (folder_id f) "" then None else Some f
  | None => None
  end.

Definition getSavedFolder : M (option folder) :=
  fun w => (Normal (saved_folder w), w).

Definition isConnected : M bool :=
  let* token := getToken in
  ret (match token with Some _ => true | None => false end).

Definition isFolderConfigured : M bool :=
  let* folder := getSavedFolder in
  ret (match folder with Some _ => true | None => false end).

(** [new Error(error.error?.message || 'API request failed')], with
    [error = await response.json().catch(() => ({}))]. *)
Definition api_error (b : body) : thrown :=
  let error := match b with JsonBody j => j | _ => JObj [] end in
  match error with
  | JNull => JsError "Cannot read properties of null (reading 'error')"
  | _ =>
      let message := match prop "error" error with
                     | None | Some JNull => None
                     | Some e => prop "message" e
                     end in
      if json_truthy message then JsError (template message)
      else JsError "API request failed"
  end.

(** Make authenticated API request *)
Definition apiRequest (path : string) (options : options) : M json :=
  let* token := getToken in
  if negb (OAuth.truthy_str token) then throw (JsError "Not authenticated with Google")
  else
    let* (ok, b) := send (Request (default "GET"%string (opt_method options))
                                   (API_BASE +:+ path)
                                   ("Bearer " +:+ default ""%string token)
                                   (opt_content_type options)
                                   (opt_body options)) in
    if negb ok then throw (api_error b)
    else match b with
         | JsonBody j => ret j
         | _ => ret JNull
         end.

(** [r?.files?.length > 0], and then [r.files[0]]: [None] when the test
    fails, the first element (which a string has too) when it holds. *)
Definition first_file (r : json) : option json :=
  match prop "files" r with
  | Some (JArr (f :: _)) => Some f
  | Some (JStr (String c _)) => Some (JStr (String c EmptyString))
  | _ => None
  end.

(** [x.id] where [x] is an element or a result: null has no properties. *)
Definition id_of (x : json) : M (option json) :=
  match x with
  | JNull => throw (JsError "Cannot read properties of null (reading 'id')")
  | j => ret (prop "id" j)
  end.

Definition json_post (metadata : json) : options :=
  Options (Some "POST"%string) (Some "application/json"%string) (JsonPayload metadata).

Definition folder_mime : string := "application/vnd.google-apps.folder".

Definition no_folder : thrown :=
  JsError "No folder selected. Please select a folder in Settings.".

(** Find or create the data file *)
Definition getOrCreateDataFile : M (option json) :=
  fun w =>
  if json_truthy (fileId w) then (Normal (fileId w), w)
  else
    (let* folder := getSavedFolder in
     match folder with
     | None => throw no_folder
     | Some folder =>
       let query := "name='" +:+ DATA_FILE +:+ "' and '" +:+ folder_id folder
                    +:+ "' in parents and trashed=false" in
       let* searchResult :=
         apiRequest ("/drive/v3/files?q=" +:+ encodeURIComponent query) no_options in
       match first_file searchResult with
       | Some f =>
           let* i := id_of f in
           fun w => (Normal i, set_fileId i w)
       | None =>
           let metadata := JObj [("name", JStr DATA_FILE);
                                 ("parents", JArr [JStr (folder_id folder)]);
                                 ("mimeType", JStr "application/json")]%string in
           let* createResult := apiRequest "/drive/v3/files" (json_post metadata) in
           let* i := id_of createResult in
           fun w => (Normal i, set_fileId i w)
       end
     end) w.

Definition folder_query (name : string) (parent : string) : string :=
  "name='" +:+ name +:+ "' and '" +:+ parent
  +:+ "' in parents and mimeType='application/vnd.google-apps.folder' and trashed=false".

(** One level of [getOrCreateAttachmentsFolder]: find the folder [name]
    under [parent], or create it. *)
Definition find_or_create_folder (name : string) (parent_text : string) (parent : json)
  : M (option json) :=
  let* result :=
    apiRequest ("/drive/v3/files?q=" +:+ encodeURIComponent (folder_query name parent_text))
               no_options in
  match first_file result with
  | Some f => id_of f
  | None =>
      let* createResult :=
        apiRequest "/drive/v3/files"
          (json_post (JObj [("name", JStr name);
                            ("parents", JArr [parent]);
                            ("mimeType", JStr folder_mime)]%string)) in
      id_of createResult
  end.

(** Find or create the attachments folder *)
Definition getOrCreateAttachmentsFolder : M (option json) :=
  fun w =>
  if json_truthy (attachmentsFolderId w) then (Normal (attachmentsFolderId w), w)
  else
    (let* folder := getSavedFolder in
     match folder with
     | None => throw no_folder
     | Some folder =>
       (* First find or create 'attachments' folder *)
       let* attachmentsParent :=
         find_or_create_folder "attachments" (folder_id folder) (JStr (folder_id folder)) in
       (* Now find or create domain subfolder *)
       let* i :=
         find_or_create_folder domain (template attachmentsParent)
                               (default JNull attachmentsParent) in
       fun w => (Normal i, set_attachmentsFolderId i w)
     end) w.

Definition no_data : fetch_result := FetchResult JNull JNull.

(** Fetch data from Google Drive *)
Definition fetch : M fetch_result :=
  let* id := getOrCreateDataFile in
  try_catch
    (let* response :=
       apiRequest ("/drive/v3/files/" +:+ template id +:+ "?alt=media") no_options in
     if negb (json_truthy (Some response)) || negb (is_object response) then ret no_data
     else ret (FetchResult (or_null (prop "data" response))
                           (or_null (prop "lastModified" response))))
    (fun err => ret no_data).

(** [`Bearer ${token}`] *)
Definition bearer (token : option string) : string :=
  "Bearer " +:+ default "null"%string token.

Definition now_iso : M string :=
  fun w => (Normal (toISOString (OAuth.now (auth w))), w).

(** Push data to Google Drive *)
Definition push (syncData : syncData) : M bool :=
  let* id := getOrCreateDataFile in
  let* stamp := now_iso in
  let payload :=
    JObj [("domain", JStr domain);
          ("version", if json_truthy (sd_version syncData)
                      then default JNull (sd_version syncData) else JNum 1);
          ("data", sd_data syncData);
          ("lastModified", if json_truthy (sd_lastModified syncData)
                           then default JNull (sd_lastModified syncData)
                           else JStr stamp)]%string in
  let metadata := JObj [("mimeType", JStr "application/json")]%string in
  let* token := getToken in
  let* (ok, _) :=
    send (Request "PATCH"
            ("https://www.googleapis.com/upload/drive/v3/files/" +:+ template id
               +:+ "?uploadType=multipart")
            (bearer token) None (FormPayload metadata (FileJson payload))) in
  if negb ok then throw (JsError "Failed to upload data to Google Drive")
  else ret true.

(** Upload attachment to Google Drive *)
Definition uploadAttachment (attachmentId filename blob : string) (mimeType : option string)
  : M (option json) :=
  let* folderId := getOrCreateAttachmentsFolder in
  let metadata :=
    JObj [("name", JStr (attachment_name attachmentId filename));
          ("parents", JArr [default JNull folderId]);
          ("mimeType", JStr (if OAuth.truthy_str mimeType
                             then default ""%string mimeType
                             else "application/octet-stream"%string))]%string in
  let* token := getToken in
  let* (ok, b) :=
    send (Request "POST"
            "https://www.googleapis.com/upload/drive/v3/files?uploadType=multipart"
            (bearer token) None (FormPayload metadata (FileBlob blob))) in
  if negb ok then throw (JsError "Failed to upload attachment")
  else match b with
       | JsonBody result => id_of result
       | _ => throw (JsError "Unexpected end of JSON input")
       end.

(** Download attachment from Google Drive *)
Definition downloadAttachment (remoteId : string) : M body :=
  let* token := getToken in
  let* (ok, b) :=
    send (Request "GET"
            ("https://www.googleapis.com/drive/v3/files/" +:+ remoteId +:+ "?alt=media")
            (bearer token) None NoPayload) in
  if negb ok then throw (JsError "Failed to download attachment")
  else ret b.

(** Delete attachment from Google Drive *)
Definition deleteAttachment (remoteId : string) : M unit :=
  let* _ := apiRequest ("/drive/v3/files/" +:+ remoteId)
                       (Options (Some "DELETE"%string) None NoPayload) in
  ret tt.

(** [(result.files || []).map(f)]: the elements when [files] is an array. *)
Definition files_of (result : json) : completion (list json) :=
  match result with
  | JNull => Throw (JsError "Cannot read properties of null (reading 'files')")
  | _ =>
      if json_truthy (prop "files" result) then
        match prop "files" result with
        | Some (JArr l) => Normal l
        | _ => Throw (JsError "(result.files || []).map is not a function")
        end
      else Normal []
  end.

(** [file.name] as the string whose methods are called next. *)
Definition name_of (file : json) : completion string :=
  match file with
  | JNull => Throw (JsError "Cannot read properties of null (reading 'name')")
  | _ =>
      match prop "name" file with
      | Some (JStr name) => Normal name
      | _ => Throw (JsError "file.name is not a string")
      end
  end.

Fixpoint map_files {A} (f : json -> completion A) (l : list json) : completion (list A) :=
  match l with
  | [] => Normal []
  | x :: l' =>
      match f x with
      | Throw e => Throw e
      | Normal a =>
          match map_files f l' with
          | Throw e => Throw e
          | Normal r => Normal (a :: r)
          end
      end
  end.

Definition lift {A} (c : completion A) : M A := fun w => (c, w).

Definition attachment_of (file : json) : completion attachment :=
  match name_of file with
  | Throw e => Throw e
  | Normal name =>
      let '(id, filename) := parse_attachment_name name in
      Normal (Attachment id (prop "id" file) filename (prop "mimeType" file)
                         (parseInt (prop "size" file)))
  end.

(** List all attachments *)
Definition listAttachments : M (list attachment) :=
  let* folderId := getOrCreateAttachmentsFolder in
  let query := "'" +:+ template folderId +:+ "' in parents and trashed=false" in
  let* result :=
    apiRequest ("/drive/v3/files?q=" +:+ encodeURIComponent query
                  +:+ "&fields=files(id,name,mimeType,size)") no_options in
  let* files := lift (files_of result) in
  lift (map_files attachment_of files).

Definition domain_file_of (file : json) : completion domain_file :=
  match name_of file with
  | Throw e => Throw e
  | Normal name => Normal (DomainFile (replace_first "-data.json" "" name) (prop "id" file))
  end.

(** List all domain data files in the folder (for seneschal aggregation) *)
Definition listAllDomainFiles : M (list domain_file) :=
  let* folder := getSavedFolder in
  match folder with
  | None => ret []
  | Some folder =>
      let query := "'" +:+ folder_id folder
                   +:+ "' in parents and name contains '-data.json' and trashed=false" in
      let* result :=
        apiRequest ("/drive/v3/files?q=" +:+ encodeURIComponent query
                      +:+ "&fields=files(id,name)") no_options in
      let* files := lift (files_of result) in
      lift (map_files domain_file_of files)
  end.

(** Fetch data for a specific domain (for seneschal aggregation) *)
Definition fetchDomainData (domainFileId : string) : M json :=
  try_catch
    (apiRequest ("/drive/v3/files/" +:+ domainFileId +:+ "?alt=media") no_options)
    (fun _ => ret JNull).

(** *** Vocabulary of the properties *)

(** The provider is not authenticated: [getToken('google')] returns null. *)
Definition unauthenticated (w : world) : Prop :=
  fst (OAuth.getToken "google" (auth w)) = None.

Definition not_authenticated : thrown := JsError "Not authenticated with Google".

(** An operation fails fast: it throws the not-authenticated error and no
    request has gone out. *)
Definition fails_fast {A} (op : M A) (w : world) : Prop :=
  fst (op w) = Throw not_authenticated /\ sent (snd (op w)) = sent w.

(** No request goes out. *)
Definition silent {A} (op : M A) (w : world) : Prop :=
  sent (snd (op w)) = sent w.

(** The download of the content of the data file [id] with a token. *)
Definition media_request (id : option json) (token : string) : request :=
  Request "GET" (API_BASE +:+ "/drive/v3/files/" +:+ template id +:+ "?alt=media")
          ("Bearer " +:+ token) None NoPayload.

(** What [fetch] makes of the answer to that download. *)
Definition read_document (answer : http_result) : fetch_result :=
  match answer with
  | Response true (JsonBody j) =>
      if json_truthy (Some j) && is_object j
      then FetchResult (or_null (prop "data" j)) (or_null (prop "lastModified" j))
      else no_data
  | _ => no_data
  end.

End Provider.

End Drive.

(** *** Sample data: a provider for the domain [gardener] *)

Module DriveSamples.
Import Drive.

(** A backend that answers every request with the same body. *)
Definition serving (r : request) (doc : body) : http_result * body :=
  (Response true doc, doc).

(** A backend that refuses every request. *)
Definition refusing (r : request) (doc : body) : http_result * body :=
  (Response false
     (JsonBody (JObj [("error", JObj [("message", JStr "Invalid Credentials")])]%string)),
   doc).

(** Built-ins for the examples, on the values that occur in them. *)
Definition unescaped (s : string) : string := s.
Definition stamp (t : Z) : string := "2025-01-01T00:00:01Z".
Definition String_of_none (j : json) : string := "[object Object]".
Definition parseInt_none (v : option json) : option Z := None.

Definition signed_in : OAuth.world :=
  OAuth.World ∅ {[ "google"%string := OAuth.TokenRecord "ya29.sample" None 4000000 ]} 1000 [].

Definition signed_out : OAuth.world := OAuth.World ∅ ∅ 1000 [].

Definition garden_folder : gmap string folder :=
  {[ "gardener"%string := Folder "folder-7" "Sync" ]}.

(** The data file is known as [f1]; the backend holds [doc]. *)
Definition connected (doc : body) : world body :=
  World body signed_in garden_folder (Some (JStr "f1")) None doc [].

(** Signed out, folder saved, nothing cached. *)
Definition disconnected : world body :=
  World body signed_out garden_folder None None EmptyBody [].

(** A backend on which the data file does not exist yet: a search finds
    nothing, a creation answers with the new id [f9], and the content of a
    file is empty. *)
Definition first_use (r : request) (doc : body) : http_result * body :=
  if String.eqb (method r) "POST" then
    (Response true (JsonBody (JObj [("id", JStr "f9")]%string)), doc)
  else if String.prefix "https://www.googleapis.com/drive/v3/files?q=" (url r) then
    (Response true (JsonBody (JObj [("files", JArr [])]%string)), doc)
  else (Response true EmptyBody, doc).

(** A backend on which the data file does not exist and cannot be created. *)
Definition full (r : request) (doc : body) : http_result * body :=
  if String.eqb (method r) "POST" then
    (Response false
       (JsonBody (JObj [("error", JObj [("message", JStr "Storage quota exceeded")])]%string)),
     doc)
  else (Response true (JsonBody (JObj [("files", JArr [])]%string)), doc).

(** Signed out, with the id of the data file still cached. *)
Definition stale : world body :=
  World body signed_out garden_folder (Some (JStr "f1")) None EmptyBody [].

(** Signed in, folder saved, nothing cached. *)
Definition fresh : world body :=
  World body signed_in garden_folder None None EmptyBody [].

(** Documents of the data file. *)
Definition garden_doc : json :=
  JObj [("domain", JStr "gardener"); ("version", JNum 1);
        ("data", JArr [JObj [("id", JStr "p1")]]);
        ("lastModified", JStr "2025-01-01T00:00:00Z")]%string.

Definition counter_doc : json :=
  JObj [("domain", JStr "counter"); ("version", JNum 1);
        ("data", JNum 0);
        ("lastModified", JStr "2025-01-01T00:00:00Z")]%string.

End DriveSamples.

(** ** The sync engine ([createSyncEngine], [sync]) *)

Module SyncEngine.
Import Merge.

Inductive SyncStatus := IDLE | SYNCING | ERROR.

(** What [sync()] resolves with: [{ success, error }]. *)
Record sync_result := SyncResult {
  success : bool;
  error : option string
}.

(** The argument of [provider.push]. *)
Record pushed := Pushed {
  pushed_data : snapshot;
  pushed_lastModified : string
}.

Section Engine.

Variable Date_parse : string -> option Z.

(** Everything outside the engine that its callbacks read and write: the
    local database, the provider and the backend behind it, [localStorage]. *)
Variable env : Type.

(** A callback runs on the environment and returns or throws (an [async]
    callback that rejects throws at its [await]). *)
Definition callback (A : Type) : Type := env -> completion A * env.

Record provider := Provider {
  isConnected : callback bool;
  isFolderConfigured : callback bool;
  fetch : callback snapshot;             (* the [data] of its result *)
  push : pushed -> callback unit
}.

Record config := Config {
  config_provider : provider;
  getLocalData : callback snapshot;
  setLocalData : snapshot -> callback unit;
  getLastSync : callback (option string);
  setLastSync : string -> callback unit;
  toISOString : env -> string            (* [new Date().toISOString()] *)
}.

(** A status listener, as a callback on the environment.  A listener that
    calls into the engine while it is notified (one that subscribes,
    unsubscribes or starts a sync) is outside this type. *)
Definition listener : Type := SyncStatus -> option string -> callback unit.

(** The variables of the closure. *)
Record engine := Engine {
  status : SyncStatus;
  lastError : option string;
  listeners : list listener
}.

Definition M (A : Type) : Type := engine * env -> completion A * (engine * env).

Definition ret {A} (a : A) : M A := fun st => (Normal a, st).
Definition bind {A B} (m : M A) (k : A -> M B) : M B :=
  fun st => match m st with
            | (Normal a, st') => k a st'
            | (Throw x, st') => (Throw x, st')
            end.
Definition try_catch {A} (m : M A) (h : thrown -> M A) : M A :=
  fun st => match m st with
            | (Normal a, st') => (Normal a, st')
            | (Throw x, st') => h x st'
            end.

Notation "'let*' x ':=' m 'in' k" := (bind m (fun x => k))
  (at level 10, x pattern, m at level 100, k at level 200).
Notation "m ';;' k" := (bind m (fun _ => k)) (at level 100, right associativity).

(** Calling out of the engine. *)
Definition call {A} (c : callback A) : M A :=
  fun '(eng, e) => let '(r, e') := c e in (r, (eng, e')).

Definition now_iso (cfg : config) : M string :=
  fun '(eng, e) => (Normal (toISOString cfg e), (eng, e)).

Definition set_status (s : SyncStatus) : M unit :=
  fun '(eng, e) => (Normal tt, (Engine s (lastError eng) (listeners eng), e)).

Definition set_lastError (m : option string) : M unit :=
  fun '(eng, e) => (Normal tt, (Engine (status eng) m (listeners eng), e)).

(** [listeners.forEach((l) => l(status, lastError))] *)
Fixpoint forEach (ls : list listener) (s : SyncStatus) (err : option string) : callback unit :=
  fun e =>
    match ls with
    | [] => (Normal tt, e)
    | l :: ls' =>
        match l s err e with
        | (Normal _, e') => forEach ls' s err e'
        | (Throw x, e') => (Throw x, e')
        end
    end.

Definition notifyStatusChange : M unit :=
  fun '(eng, e) =>
    let '(r, e') := forEach (listeners eng) (status eng) (lastError eng) e in
    (r, (eng, e')).

(** [err.message] *)
Definition message_of (err : thrown) : M (option string) :=
  match err with
  | JsError m => ret (Some m)
  | JsPrimitive => ret None
  | JsNullish =>
      fun st => (Throw (JsError "Cannot read properties of null (reading 'message')"), st)
  end.

(** The body of the [try] block. *)
Definition attempt (cfg : config) : M sync_result :=
  (* Get local data *)
  let* localData := call (getLocalData cfg) in
  let* lastSync := call (getLastSync cfg) in
  (* Fetch remote data *)
  let* remoteData := call (fetch (config_provider cfg)) in
  (* Merge *)
  let merged := mergeData Date_parse localData remoteData lastSync in
  (* Save merged data locally *)
  call (setLocalData cfg (local merged)) ;;
  (* Push to remote if there were local changes *)
  (if hasLocalChanges merged then
     let* stamp := now_iso cfg in
     call (push (config_provider cfg) (Pushed (local merged) stamp))
   else ret tt) ;;
  (* Update last sync time *)
  let* stamp := now_iso cfg in
  call (setLastSync cfg stamp) ;;
  set_status IDLE ;;
  notifyStatusChange ;;
  ret (SyncResult true None).

(** The [catch] block. *)
Definition recover (err : thrown) : M sync_result :=
  set_status ERROR ;;
  let* message := message_of err in
  set_lastError message ;;
  notifyStatusChange ;;
  ret (SyncResult false message).

Definition already_syncing : string := "Sync already in progress".
Definition not_connected : string := "Not connected to sync provider".
Definition no_folder : string := "No sync folder configured".

(** Perform sync.  [Normal r]: the promise resolves with [r]; [Throw x]: it
    rejects with [x]. *)
Definition sync (cfg : config) : M sync_result :=
  fun st =>
    match status (fst st) with
    | SYNCING => (Normal (SyncResult false (Some already_syncing)), st)
    | _ =>
      (let* connected := call (isConnected (config_provider cfg)) in
       if negb connected then ret (SyncResult false (Some not_connected))
       else
         let* configured := call (isFolderConfigured (config_provider cfg)) in
         if negb configured then ret (SyncResult false (Some no_folder))
         else
           set_status SYNCING ;;
           set_lastError None ;;
           notifyStatusChange ;;
           try_catch (attempt cfg) recover) st
    end.

(** *** Vocabulary of the properties *)

(** A callback that always returns. *)
Definition returns {A} (c : callback A) : Prop :=
  forall e, exists a e', c e = (Normal a, e').

(** A callback that never throws null or undefined. *)
Definition throws_values {A} (c : callback A) : Prop :=
  forall e e', c e <> (Throw JsNullish, e').

(** A part [view] of the environment that a callback leaves as it is. *)
Definition keeps {A V} (view : env -> V) (c : callback A) : Prop :=
  forall e, view (snd (c e)) = view e.

(** The callbacks of a configuration behave: the two checks of the provider
    return, and the others return or throw a value that has a [message]
    property to read. *)
Definition well_behaved (cfg : config) : Prop :=
  returns (isConnected (config_provider cfg)) /\
  returns (isFolderConfigured (config_provider cfg)) /\
  throws_values (getLocalData cfg) /\
  throws_values (getLastSync cfg) /\
  throws_values (fetch (config_provider cfg)) /\
  (forall d, throws_values (setLocalData cfg d)) /\
  (forall p, throws_values (push (config_provider cfg) p)) /\
  (forall t, throws_values (setLastSync cfg t)).

Definition listeners_return (ls : list listener) : Prop :=
  Forall (fun l : listener => forall s err, returns (l s err)) ls.

(** The listeners registered with the engine are [ls]. *)
Definition listening (ls : list listener) (eng : engine) : Prop :=
  listeners eng = ls.

(** From an engine that satisfies [J], the computation [m] ends normally
    with [Q] or throws with [R], on the value and the engine it ends in. *)
Definition triple {A} (J : engine -> Prop) (m : M A)
  (Q : A -> engine -> Prop) (R : thrown -> engine -> Prop) : Prop :=
  forall eng e, J eng ->
    match m (eng, e) with
    | (Normal a, (eng', _)) => Q a eng'
    | (Throw x, (eng', _)) => R x eng'
    end.

End Engine.

End SyncEngine.

(** *** Sample data: a local database and a cloud *)

Module SyncSamples.
Import Merge MergeSamples SyncEngine.

Record cell := Cell {
  db : snapshot;            (* the local database *)
  cloud_data : snapshot;    (* the data of the remote document *)
  last_sync : option string;
  signed_in : bool;
  folder_chosen : bool
}.

Definition cloud_provider : provider cell :=
  Provider cell
    (fun c => (Normal (signed_in c), c))
    (fun c => (Normal (folder_chosen c), c))
    (fun c => (Normal (cloud_data c), c))
    (fun p c => (Normal tt, Cell (db c) (pushed_data p) (last_sync c)
                                 (signed_in c) (folder_chosen c))).

Definition app : config cell :=
  Config cell cloud_provider
    (fun c => (Normal (db c), c))
    (fun d c => (Normal tt, Cell d (cloud_data c) (last_sync c) (signed_in c) (folder_chosen c)))
    (fun c => (Normal (last_sync c), c))
    (fun t c => (Normal tt, Cell (db c) (cloud_data c) (Some t) (signed_in c) (folder_chosen c)))
    (fun _ => "2025-01-01T00:01:00Z"%string).

(** A status listener that fails. *)
Definition failing_listener : listener cell :=
  fun _ _ c => (Throw (JsError "render failed"), c).

Definition quiet_listener : listener cell := fun _ _ c => (Normal tt, c).

(** Device A holds [r1]; device B has pushed [r2]. *)
Definition device_a : cell :=
  Cell (Arr [local_r1]) (Arr [remote_r2]) None true true.

(** The same device, signed out; and signed in without a folder. *)
Definition device_signed_out : cell :=
  Cell (Arr [local_r1]) (Arr [remote_r2]) None false true.
Definition device_without_folder : cell :=
  Cell (Arr [local_r1]) (Arr [remote_r2]) None true false.

End SyncSamples.

(** ** Further vocabulary of the merge *)

Module MergeTerms.
Import Merge.

Section Terms.

Variable Date_parse : string -> option Z.

(** The record stored under the id of [r] is strictly later than [r]. *)
Definition beaten (m : jsmap) (r : item) : bool :=
  match map_get (id r) m with
  | Some l => later Date_parse l r
  | None => false
  end.

End Terms.

(** An object that has no [updatedAt] to compare. *)
Definition untimed (o : object) : Prop := props o !! "updatedAt"%string = None.

(** [o.items] is truthy: an array, or another truthy value. *)
Definition has_items (o : object) : bool :=
  match items o with
  | Some _ => true
  | None => truthy (props o !! "items"%string)
  end.

End MergeTerms.

Module MergeTermsSamples.
Import Merge.

(** The shape of a database export: a version and the time of the export,
    and no [items] and no [updatedAt] of its own. *)
Definition export_of (exportedAt : string) : object :=
  Object None {[ "version"%string := SNum 1; "exportedAt"%string := SStr exportedAt ]}.

End MergeTermsSamples.

(** ** Further vocabulary of the sync engine *)

Module SyncTerms.
Import Merge SyncEngine.

Section Terms.

Variable Date_parse : string -> option Z.
Variable env : Type.

(** The configuration [cfg] with other callbacks for writing: another
    [setLocalData], another [provider.push] and another [setLastSync]. *)
Definition with_writers (save : snapshot -> callback env unit)
  (upload : pushed -> callback env unit) (stamp : string -> callback env unit)
  (cfg : config env) : config env :=
  Config env
    (Provider env (isConnected env (config_provider env cfg))
                  (isFolderConfigured env (config_provider env cfg))
                  (fetch env (config_provider env cfg))
                  upload)
    (getLocalData env cfg) save (getLastSync env cfg) stamp (toISOString env cfg).

(** The configuration [cfg] with another [provider.push]. *)
Definition with_push (upload : pushed -> callback env unit) (cfg : config env) : config env :=
  with_writers (setLocalData env cfg) upload (setLastSync env cfg) cfg.

(** Whatever [getLocalData], [getLastSync] and [provider.fetch] return one
    after the other, the merge of it reports no local changes. *)
Definition nothing_to_push (cfg : config env) : Prop :=
  forall e l e1 s e2 r e3,
    getLocalData env cfg e = (Normal l, e1) ->
    getLastSync env cfg e1 = (Normal s, e2) ->
    fetch env (config_provider env cfg) e2 = (Normal r, e3) ->
    hasLocalChanges (mergeData Date_parse l r s) = false.

(** [provider.fetch] rejects, whenever it is called. *)
Definition fetch_fails (cfg : config env) : Prop :=
  forall e, exists x e', fetch env (config_provider env cfg) e = (Throw x, e').

End Terms.

End SyncTerms.

Module SyncTermsSamples.
Import Merge MergeTermsSamples SyncEngine SyncSamples.

(** An application whose local data is a database export, and whose cloud
    holds the export of the day before. *)
Definition journal : config cell :=
  Config cell
    (Provider cell
       (isConnected cell cloud_provider) (isFolderConfigured cell cloud_provider)
       (fun c => (Normal (Obj (export_of "2025-01-01T00:00:00Z")), c))
       (push cell cloud_provider))
    (fun c => (Normal (Obj (export_of "2025-01-02T00:00:00Z")), c))
    (setLocalData cell app) (getLastSync cell app) (setLastSync cell app)
    (toISOString cell app).

(** The application [app] while the network is down. *)
Definition offline : config cell :=
  Config cell
    (Provider cell
       (isConnected cell cloud_provider) (isFolderConfigured cell cloud_provider)
       (fun c => (Throw (JsError "Failed to fetch"), c))
       (push cell cloud_provider))
    (getLocalData cell app) (setLocalData cell app) (getLastSync cell app)
    (setLastSync cell app) (toISOString cell app).

(** Writers that fail. *)
Definition no_save : snapshot -> callback cell unit :=
  fun _ c => (Throw (JsError "QuotaExceededError"), c).
Definition no_upload : pushed -> callback cell unit :=
  fun _ c => (Throw (JsError "Failed to upload data to Google Drive"), c).
Definition no_stamp : string -> callback cell unit :=
  fun _ c => (Throw (JsError "QuotaExceededError"), c).

End SyncTermsSamples.

(** ** The OAuth2 handler: starting a sign-in
    ([generateRandomString], [generatePKCE], [saveOAuthState], [startAuth],
    [hasOAuthCallback]) *)

Module OAuthFlow.
Import OAuth.

Definition charset : string :=
  "ABCDEFGHIJKLMNOPQRSTUVWXYZabcdefghijklmnopqrstuvwxyz0123456789-._~".

(** [charset[i]] as [join('')] writes it: nothing where it is undefined. *)
Definition charAt (i : nat) : string :=
  match String.get i charset with
  | Some c => String c EmptyString
  | None => EmptyString
  end.

(** The page during a sign-in: the store, clock and query string of the
    handler, the bytes that [crypto.getRandomValues] hands out (a sequence,
    and how many of it are drawn), and the address the window is sent to. *)
Record page := Page {
  store : world;
  entropy : nat -> Byte.byte;
  drawn : nat;
  href : option string
}.

Definition set_store (w : world) (p : page) : page :=
  Page w (entropy p) (drawn p) (href p).

Definition set_href (u : string) (p : page) : page :=
  Page (store p) (entropy p) (drawn p) (Some u).

(** [crypto.getRandomValues(new Uint8Array(length))] *)
Definition getRandomValues (length : nat) (p : page) : list Byte.byte * page :=
  (map (entropy p) (seq (drawn p) length),
   Page (store p) (entropy p) (drawn p + length) (href p)).

(** Generate a random string for PKCE *)
Definition generateRandomString (length : nat) (p : page) : string * page :=
  let '(values, p) := getRandomValues length p in
  (String.concat ""
     (map (fun v => charAt (N.to_nat (Byte.to_N v mod N.of_nat (String.length charset))))
          values),
   p).

(** Store OAuth state *)
Definition saveOAuthState (provider state verifier : string) (w : world) : world :=
  set_sessions (insert provider (Session state verifier (now w))) w.

(** [OAUTH_CONFIG[provider]], when it is truthy, by its [authUrl] as the
    template string writes it: the authorisation page of a configured
    provider, and the text [undefined] for a name that the object
    inherits.  [None]: the lookup gives undefined. *)
Definition authUrl (provider : string) : option string :=
  if String.eqb provider "google" then Some "https://accounts.google.com/o/oauth2/v2/auth"%string
  else if String.eqb provider "dropbox" then Some "https://www.dropbox.com/oauth2/authorize"%string
  else if inherited provider then Some "undefined"%string
  else None.

(** [new URLSearchParams(search).has(name)] *)
Definition URLSearchParams_has (name : string) (q : list (string * string)) : bool :=
  existsb (fun nv => String.eqb (fst nv) name) q.

(** Check if there's an OAuth callback in the URL *)
Definition hasOAuthCallback (w : world) : bool :=
  URLSearchParams_has "code" (search w) && URLSearchParams_has "state" (search w).

Section Flow.

(** The code challenge of a verifier: the base64url text of its SHA-256
    digest, without padding. *)
Variable S256 : string -> string.

(** A [URLSearchParams] object in a template string. *)
Variable URLSearchParams_toString : list (string * string) -> string.

(** Generate PKCE code verifier and challenge *)
Definition generatePKCE (p : page) : (string * string) * page :=
  let '(verifier, p) := generateRandomString 64 p in
  ((verifier, S256 verifier), p).

(** The parameters of the address of the authorisation page. *)
Definition auth_params (clientId : string) (scopes : list string) (redirectUri : string)
  (state challenge : string) : list (string * string) :=
  [("client_id", clientId);
   ("redirect_uri", redirectUri);
   ("response_type", "code");
   ("scope", String.concat " " scopes);
   ("state", state);
   ("code_challenge", challenge);
   ("code_challenge_method", "S256")]%string.

(** Start OAuth flow *)
Definition startAuth (provider clientId : string) (scopes : list string)
  (redirectUri : string) (p : page) : completion unit * page :=
  match authUrl provider with
  | None => (Throw (JsError ("Unknown provider: " +:+ provider)), p)
  | Some config_authUrl =>
      (* Generate PKCE *)
      let '((verifier, challenge), p) := generatePKCE p in
      (* Generate state *)
      let '(state, p) := generateRandomString 32 p in
      (* Save for callback *)
      let p := set_store (saveOAuthState provider state verifier (store p)) p in
      (* Redirect to auth page *)
      let params := auth_params clientId scopes redirectUri state challenge in
      (Normal tt, set_href (config_authUrl +:+ "?" +:+ URLSearchParams_toString params) p)
  end.

End Flow.

(** *** Vocabulary of the properties *)

(** The same store, read at another time. *)
Definition at_time (t : Z) (w : world) : world :=
  World (sessions w) (tokens w) t (search w).

(** A time value that a [Date] can hold, as [Date.now()] returns one. *)
Definition time_value (t : Z) : Prop := Z.abs t <= 8640000000000000.

(** The seconds a token is taken to live: [token.expires_in || 3600]. *)
Definition lifetime (token : token_body) : Z :=
  match expires_in token with
  | Some 0 | None => 3600
  | Some n => n
  end.

(** The verifier and the state that [startAuth] draws on a page. *)
Definition drawn_verifier (p : page) : string := fst (generateRandomString 64 p).
Definition drawn_state (p : page) : string :=
  fst (generateRandomString 32 (snd (generateRandomString 64 p))).

(** Every value of a byte. *)
Definition all_bytes : list Byte.byte := omap Byte.of_nat (seq 0 256).

(** The bytes that [generateRandomString] turns into the character at
    index [i] of the charset. *)
Definition drawing (i : nat) : list Byte.byte :=
  filter (fun v => N.to_nat (Byte.to_N v mod N.of_nat (String.length charset)) = i) all_bytes.

End OAuthFlow.

Module OAuthFlowSamples.
Import OAuth OAuthSamples OAuthFlow.

(** Stand-ins for the digest and for the encoding of a query. *)
Definition digest (verifier : string) : string := "S256:" +:+ verifier.

Fixpoint urlencoded (q : list (string * string)) : string :=
  match q with
  | [] => ""
  | [(n, v)] => n +:+ "=" +:+ v
  | (n, v) :: q' => n +:+ "=" +:+ v +:+ "&" +:+ urlencoded q'
  end.

(** Bytes 7, 14, 21, ... *)
Definition counting (i : nat) : Byte.byte :=
  default Byte.x00 (Byte.of_nat ((7 * (i + 1)) mod 256)).

(** A page at time 1000 on which nothing is stored. *)
Definition landing : page := Page (World ∅ ∅ 1000 []) counting 0 None.

End OAuthFlowSamples.

(** ** The Google Drive provider: signing out and changing the folder
    ([disconnect], [selectFolder], [getFolder], [removeFolder]) *)

Module DriveControls.
Import Drive.

Section Controls.

Variable server : Type.
Variable encodeURIComponent : string -> string.
Variable domain : string.

(** [fileId = null; attachmentsFolderId = null] *)
Definition reset_ids (w : world server) : world server :=
  set_attachmentsFolderId server (Some JNull) (set_fileId server (Some JNull) w).

Definition set_settings (f : gmap string folder -> gmap string folder) (w : world server)
  : world server :=
  World server (auth server w) (f (settings server w)) (fileId server w)
        (attachmentsFolderId server w) (remote server w) (sent server w).

(** Disconnect from Google Drive *)
Definition disconnect : M server unit :=
  fun w => (Normal tt, reset_ids (set_auth server (OAuth.logout "google" (auth server w)) w)).

(** Whether the settings of the domain in [localStorage] take a folder:
    they are absent, empty or the text of an object.  (The world of the
    provider keeps of the settings the saved folders only.) *)
Variable settings_writable : bool.

(** [saveFolder(domain, folder)] of the picker.  Its errors are ignored:
    settings that do not take the folder are left as they are. *)
Definition saveFolder (folder : folder) : M server unit :=
  fun w => (Normal tt, if settings_writable then set_settings (insert domain folder) w else w).

(** [clearFolder(domain)] of the picker: afterwards no folder is saved. *)
Definition clearFolder : M server unit :=
  fun w => (Normal tt, set_settings (delete domain) w).

(** Open folder picker; [picked] is what the picker resolves with. *)
Definition selectFolder (picked : option folder) : M server (option folder) :=
  match picked with
  | Some folder =>
      bind server (saveFolder folder) (fun _ =>
      (* Reset cached IDs when folder changes *)
      fun w => (Normal picked, reset_ids w))
  | None => ret server picked
  end.

(** Get current folder *)
Definition getFolder : M server (option folder) := getSavedFolder server domain.

(** Clear folder selection *)
Definition removeFolder : M server unit :=
  bind server clearFolder (fun _ => fun w => (Normal tt, reset_ids w)).

(** *** Vocabulary of the properties *)

(** The search for the data file in a folder, with a token. *)
Definition data_file_search (folder : folder) (token : string) : request :=
  Request "GET"
    (API_BASE +:+ "/drive/v3/files?q="
       +:+ encodeURIComponent ("name='" +:+ DATA_FILE domain +:+ "' and '" +:+ folder_id folder
                                 +:+ "' in parents and trashed=false"))
    ("Bearer " +:+ token) None NoPayload.

(** An operation fails for want of a folder, and no request has gone out. *)
Definition fails_for_folder {A} (op : M server A) (w : world server) : Prop :=
  fst (op w) = Throw no_folder /\ sent server (snd (op w)) = sent server w.

End Controls.

End DriveControls.

(** ** The saved folder ([getSavedFolder], [saveFolder], [clearFolder]) *)

Module Picker.
Import Drive.

(** What [localStorage] holds under [<domain>-settings]: the empty text, a
    text that [JSON.parse] rejects, or the text of a JSON value. *)
Inductive entry :=
  | EmptyText
  | Garbled (text : string)
  | Doc (j : json).

(** [localStorage], by domain. *)
Abbreviation storage := (gmap string entry).

(** [o.k = v] on the properties of an object: in place when [k] is there, at
    the end when it is new. *)
Fixpoint set_prop (k : string) (v : json) (fs : list (string * json)) : list (string * json) :=
  match fs with
  | [] => [(k, v)]
  | (k', v') :: fs' =>
      if String.eqb k k' then (k, v) :: fs' else (k', v') :: set_prop k v fs'
  end.

(** [delete o.k] *)
Definition delete_prop (k : string) (fs : list (string * json)) : list (string * json) :=
  List.filter (fun kv => negb (String.eqb k (fst kv))) fs.

(** [JSON.parse(localStorage.getItem(`${domain}-settings`) || '{}')]: the
    value, or [None] where [JSON.parse] throws. *)
Definition read_settings (domain : string) (s : storage) : option json :=
  match s !! domain with
  | None | Some EmptyText => Some (JObj [])
  | Some (Garbled _) => None
  | Some (Doc j) => Some j
  end.

(** Get saved folder from settings *)
Definition getSavedFolder (domain : string) (s : storage) : option json :=
  match read_settings domain s with
  | Some (JObj fs) =>
      match assoc "syncFolder" fs with
      | Some syncFolder =>
          (* settings.syncFolder?.id *)
          if json_truthy (prop "id" syncFolder) then Some syncFolder else None
      | None => None
      end
  | Some JNull => None      (* reading a property of null throws: caught *)
  | Some _ => None          (* no such property on an array, a string, a number *)
  | None => None            (* parse errors are ignored *)
  end.

(** Save folder to settings *)
Definition saveFolder (domain : string) (folder : json) (s : storage) : storage :=
  match read_settings domain s with
  | Some (JObj fs) => <[domain := Doc (JObj (set_prop "syncFolder" folder fs))]> s
  | Some (JArr l) => <[domain := Doc (JArr l)]> s   (* not written by [JSON.stringify] *)
  | Some _ => s             (* null and primitives take no property: caught *)
  | None => s               (* errors are ignored *)
  end.

(** Clear saved folder *)
Definition clearFolder (domain : string) (s : storage) : storage :=
  match read_settings domain s with
  | Some (JObj fs) => <[domain := Doc (JObj (delete_prop "syncFolder" fs))]> s
  | Some JNull => s         (* [delete] on null throws: caught *)
  | Some j => <[domain := Doc j]> s
  | None => s
  end.

(** *** Vocabulary of the properties *)

(** The settings of a domain can take a folder: there are none yet, or they
    are an object. *)
Definition writable (domain : string) (s : storage) : Prop :=
  exists fs, read_settings domain s = Some (JObj fs).

(** A setting other than the folder, as the application reads it. *)
Definition setting (k domain : string) (s : storage) : option json :=
  match read_settings domain s with
  | Some j => prop k j
  | None => None
  end.

End Picker.

Module PickerSamples.
Import Drive Picker.

Definition allotment : json := JObj [("id", JStr "folder-9"); ("name", JStr "Allotment")]%string.

(** Settings with a theme and a folder; settings that are not JSON. *)
Definition themed : storage :=
  {[ "gardener"%string :=
       Doc (JObj [("theme", JStr "dark");
                  ("syncFolder", JObj [("id", JStr "folder-7"); ("name", JStr "Sync")])]%string) ]}.
Definition broken : storage := {[ "gardener"%string := Garbled "{theme:" ]}.

End PickerSamples.

(** ** The local database of the application ([mergeData] of [db.js]) *)

Module Store.

(** An idea: its key, the time of its last change as [toISOString] writes
    it, and what it says. *)
Record idea := Idea {
  id : string;
  updatedAt : option string;
  title : string;
  content : string
}.

(** The object store [ideas], by key path [id]. *)
Abbreviation ideas_store := (gmap string idea).

(** [a > b] on two [updatedAt] values: strings are compared unit by unit,
    and nothing is greater or less than [undefined]. *)
Definition newer (a b : option string) : bool :=
  match a, b with
  | Some x, Some y =>
      match String.compare x y with
      | Gt => true
      | _ => false
      end
  | _, _ => false
  end.

(** One turn of the loop of [mergeData]. *)
Definition merge_idea (s : ideas_store) (remoteIdea : idea) : ideas_store :=
  match s !! id remoteIdea with
  | None =>
      (* New idea from remote *)
      <[id remoteIdea := remoteIdea]> s
  | Some localIdea =>
      if newer (updatedAt remoteIdea) (updatedAt localIdea) then
        (* Remote is newer *)
        <[id remoteIdea := remoteIdea]> s
      else s   (* Otherwise keep local *)
  end.

(** Merge data (for sync); [ideas] is [data.ideas]. *)
Definition mergeData (ideas : option (list idea)) (s : ideas_store) : ideas_store :=
  match ideas with
  | None => s
  | Some l => fold_left merge_idea l s
  end.

(** *** Vocabulary of the properties *)

(** The records of a list are those the store holds under their ids. *)
Definition held (l : list idea) (s : ideas_store) : Prop :=
  forall x, x ∈ l -> s !! id x = Some x.

End Store.

Module StoreSamples.
Import Store.

Definition shelf : ideas_store :=
  {[ "i1"%string := Idea "i1" (Some "2025-01-01T00:00:10.000Z"%string) "Beds" "raised";
     "i2"%string := Idea "i2" (Some "2025-01-01T00:00:02.000Z"%string) "Seeds" "order" ]}.

Definition arriving : list idea :=
  [ Idea "i1" (Some "2025-01-01T00:00:05.000Z"%string) "Beds" "flat";
    Idea "i2" (Some "2025-01-01T00:00:07.000Z"%string) "Seeds" "ordered";
    Idea "i3" None "Tools" "" ].

End StoreSamples.

(** ** The application's dashboard ([fetchAllProjectData] of [sync.js]) *)

Module App.
Import Drive.

Section Dashboard.

Variable server : Type.
Variable window_fetch : request -> server -> http_result * server.
Variable String_of : json -> string.

(** The application creates its provider for this domain. *)
Definition DOMAIN : string := "seneschal".

Definition domains : list string := ["gardener"; "trainer"; "soapmaker"].

(** The loop over [domains]: [projectData[domain]] is what
    [provider.fetchDomainData(domain)] returns, or null when it throws. *)
Fixpoint collect (ds : list string) (projectData : list (string * json))
  : M server (list (string * json)) :=
  match ds with
  | [] => ret server projectData
  | domain :: ds' =>
      bind server
        (try_catch server
           (bind server (fetchDomainData server window_fetch String_of domain)
                 (fun data => ret server (projectData ++ [(domain, data)])))
           (fun e => ret server (projectData ++ [(domain, JNull)])))
        (collect ds')
  end.

(** Fetch data from all domain projects (for dashboard aggregation);
    [provider] tells whether [initSync] has created the provider. *)
Definition fetchAllProjectData (provider : bool)
  : M server (option (list (string * json))) :=
  if negb provider then ret server None
  else
    bind server (isConnected server) (fun connected =>
    if negb connected then ret server None
    else
      bind server (isFolderConfigured server DOMAIN) (fun configured =>
      if negb configured then ret server None
      else
        bind server (collect domains []) (fun projectData =>
        ret server (Some projectData)))).

(** *** Vocabulary of the properties *)

(** The download of the content of the file [id]. *)
Definition download (id token : string) : request :=
  Request "GET" (API_BASE +:+ "/drive/v3/files/" +:+ id +:+ "?alt=media")
          ("Bearer " +:+ token) None NoPayload.

(** A token is there and stays: [getToken('google')] returns it and leaves
    the store as it is. *)
Definition holds_token (token : string) (w : world server) : Prop :=
  OAuth.getToken "google" (auth server w) = (Some token, auth server w).

(** The world after a request has gone out and the backend has moved on. *)
Definition after (r : request) (srv : server) (w : world server) : world server :=
  World server (auth server w) (settings server w) (fileId server w)
        (attachmentsFolderId server w) srv (sent server w ++ [r]).

End Dashboard.

End App.

Module AppSamples.
Import Drive DriveSamples.

(** Signed in, with a folder saved for the application's domain. *)
Definition office : world body :=
  World body signed_in {[ "seneschal"%string := Folder "folder-7" "Sync" ]}
        None None EmptyBody [].

End AppSamples.

(** * Properties *)

Lemma gt_irrefl a : gt a a = false.
Proof. destruct a as [x|]; simpl; [apply Z.ltb_irrefl | reflexivity]. Qed.

Lemma gt_false_trans a b c : gt a c = false -> gt b c = true -> gt a b = false.
Proof.
  destruct a as [x|], b as [y|], c as [z|]; simpl; try congruence.
  rewrite Z.ltb_lt, !Z.ltb_ge. lia.
Qed.

Lemma gt_asym a b : gt a b = true -> gt b a = false.
Proof.
  destruct a as [x|], b as [y|]; simpl; try congruence.
  rewrite Z.ltb_lt, Z.ltb_ge. lia.
Qed.

(** ** The merge engine *)

Module MergeFacts.
Import Merge.

Section Facts.

Variable Date_parse : string -> option Z.

Abbreviation later := (Merge.later Date_parse).
Abbreviation merge_at := (Merge.merge_at Date_parse).
Abbreviation merged_map := (Merge.merged_map Date_parse).
Abbreviation resolve := (Merge.resolve Date_parse).

(** *** The insertion-ordered map *)

Lemma map_get_set k k' v m :
  map_get k (map_set k' v m) = if String.eqb k k' then Some v else map_get k m.
Proof.
  induction m as [|[k0 v0] m IH]; simpl.
  - reflexivity.
  - destruct (String.eqb_spec k' k0) as [->|Hne]; simpl.
    + destruct (String.eqb k k0); reflexivity.
    + rewrite IH. destruct (String.eqb_spec k k0) as [->|Hne'].
      * destruct (String.eqb_spec k0 k'); congruence.
      * reflexivity.
Qed.

Lemma map_get_None k m : map_get k m = None <-> k ∉ keys m.
Proof.
  induction m as [|[k0 v0] m IH]; simpl.
  - split; [intros _; apply not_elem_of_nil | reflexivity].
  - rewrite not_elem_of_cons. simpl.
    destruct (String.eqb_spec k k0) as [->|Hne].
    + split; [discriminate | tauto].
    + rewrite IH. tauto.
Qed.

Lemma map_get_elem k v m : map_get k m = Some v -> (k, v) ∈ m.
Proof.
  induction m as [|[k0 v0] m IH]; simpl; [discriminate|].
  destruct (String.eqb_spec k k0) as [->|Hne].
  - intros [= ->]. apply elem_of_cons. now left.
  - intros H. apply elem_of_cons. right. auto.
Qed.

Lemma elem_map_get k v m : NoDup (keys m) -> (k, v) ∈ m -> map_get k m = Some v.
Proof.
  induction m as [|[k0 v0] m IH]; simpl.
  - intros _ H. now apply elem_of_nil in H.
  - rewrite NoDup_cons, elem_of_cons. simpl. intros [Hk0 Hnd] [E|I].
    + injection E as -> ->. now rewrite String.eqb_refl.
    + destruct (String.eqb_spec k k0) as [->|Hne].
      * exfalso. apply Hk0. apply (list_elem_of_fmap_2 fst) in I. exact I.
      * auto.
Qed.

Lemma map_set_fresh k v m : k ∉ keys m -> map_set k v m = m ++ [(k, v)].
Proof.
  induction m as [|[k0 v0] m IH]; simpl; [reflexivity|].
  rewrite not_elem_of_cons. simpl. intros [Hne H].
  destruct (String.eqb_spec k k0) as [->|_]; [congruence|].
  now rewrite IH.
Qed.

Lemma keys_set_present k v m : k ∈ keys m -> keys (map_set k v m) = keys m.
Proof.
  induction m as [|[k0 v0] m IH]; simpl.
  - intros H. now apply elem_of_nil in H.
  - rewrite elem_of_cons. simpl. intros H.
    destruct (String.eqb_spec k k0) as [->|Hne]; simpl; [reflexivity|].
    f_equal. apply IH. destruct H; congruence.
Qed.

Lemma elem_map_set kv k v m : kv ∈ map_set k v m -> kv = (k, v) \/ kv ∈ m.
Proof.
  induction m as [|[k0 v0] m IH]; simpl.
  - rewrite list_elem_of_singleton. tauto.
  - destruct (String.eqb k k0); rewrite !elem_of_cons; intuition.
Qed.

Lemma well_keyed_nil : well_keyed [].
Proof. split; constructor. Qed.

Lemma well_keyed_set v m : well_keyed m -> well_keyed (map_set (id v) v m).
Proof.
  intros [Hnd Hid]. split.
  - destruct (decide (id v ∈ keys m)) as [Hin|Hout].
    + now rewrite keys_set_present.
    + rewrite map_set_fresh by assumption. unfold keys. rewrite fmap_app. simpl.
      apply NoDup_app. repeat split; [exact Hnd | | apply NoDup_singleton].
      intros x Hx Hx'. apply list_elem_of_singleton in Hx'. now subst x.
  - apply Forall_forall. intros kv Hkv.
    apply elem_map_set in Hkv as [->|Hkv]; [reflexivity|].
    rewrite Forall_forall in Hid. auto.
Qed.

(** A record is among the values exactly when it is stored under its id. *)
Lemma elem_values x m :
  well_keyed m -> x ∈ map_values m <-> map_get (id x) m = Some x.
Proof.
  intros [Hnd Hid]. unfold map_values. rewrite list_elem_of_fmap. split.
  - intros ([k v] & -> & Hin). simpl.
    rewrite Forall_forall in Hid. specialize (Hid _ Hin). simpl in Hid. subst k.
    now apply elem_map_get.
  - intros H. exists (id x, x). split; [reflexivity|]. now apply map_get_elem.
Qed.

Lemma keys_values m : well_keyed m -> id <$> map_values m = keys m.
Proof.
  intros [_ Hid]. unfold map_values, keys.
  induction Hid as [|[k v] m Hkv _ IH]; [reflexivity|].
  rewrite !fmap_cons. simpl in *. now rewrite Hkv, IH.
Qed.

(** *** One key at a time *)

Lemma mergeArrays_local A B :
  local (mergeArrays Date_parse A B) = map_values (merged_map A B).
Proof.
  unfold mergeArrays, merged_map.
  destruct (fold_left _ B _) as [m h]. reflexivity.
Qed.

Lemma map_get_seed_from k A m :
  map_get k (seed_from A m) = fold_left (seed_at k) A (map_get k m).
Proof.
  revert m. induction A as [|a A IH]; intros m; simpl; [reflexivity|].
  unfold seed_from in IH. rewrite IH, map_get_set. reflexivity.
Qed.

Lemma merge_remote_eq m h r :
  merge_remote Date_parse (m, h) r =
  match map_get (id r) m with
  | None => (map_set (id r) r m, h)
  | Some l =>
      if later r l then (map_set (id r) r m, h)
      else if later l r then (m, true) else (m, h)
  end.
Proof. reflexivity. Qed.

Lemma map_get_merge_remote k m h r :
  map_get k (fst (merge_remote Date_parse (m, h) r)) = merge_at k (map_get k m) r.
Proof.
  rewrite merge_remote_eq. unfold Merge.merge_at.
  destruct (String.eqb_spec k (id r)) as [->|Hne].
  - destruct (map_get (id r) m) as [l|] eqn:El; simpl.
    + destruct (later r l) eqn:Erl; simpl.
      * now rewrite map_get_set, String.eqb_refl.
      * destruct (later l r); simpl; exact El.
    + now rewrite map_get_set, String.eqb_refl.
  - apply String.eqb_neq in Hne.
    destruct (map_get (id r) m) as [l|] eqn:El; simpl.
    + destruct (later r l) eqn:Erl; simpl.
      * now rewrite map_get_set, Hne.
      * now destruct (later l r).
    + now rewrite map_get_set, Hne.
Qed.

Lemma map_get_merge k B m h :
  map_get k (fst (fold_left (merge_remote Date_parse) B (m, h)))
  = fold_left (merge_at k) B (map_get k m).
Proof.
  revert m h. induction B as [|r B IH]; intros m h; cbn [fold_left]; [reflexivity|].
  destruct (merge_remote Date_parse (m, h) r) as [m' h'] eqn:E.
  rewrite IH. f_equal.
  change m' with (fst (m', h')). rewrite <- E. apply map_get_merge_remote.
Qed.

Lemma well_keyed_seed_from A m : well_keyed m -> well_keyed (seed_from A m).
Proof.
  revert m. induction A as [|a A IH]; intros m Hm; simpl; [assumption|].
  apply IH. now apply well_keyed_set.
Qed.

Lemma well_keyed_merge_remote m h r :
  well_keyed m -> well_keyed (fst (merge_remote Date_parse (m, h) r)).
Proof.
  intros Hm. rewrite merge_remote_eq.
  destruct (map_get (id r) m) as [l|]; simpl.
  - destruct (later r l); simpl; [now apply well_keyed_set|].
    now destruct (later l r).
  - now apply well_keyed_set.
Qed.

Lemma well_keyed_merge B m h :
  well_keyed m -> well_keyed (fst (fold_left (merge_remote Date_parse) B (m, h))).
Proof.
  revert m h. induction B as [|r B IH]; intros m h Hm; cbn [fold_left]; [assumption|].
  destruct (merge_remote Date_parse (m, h) r) as [m' h'] eqn:E.
  apply IH. change m' with (fst (m', h')). rewrite <- E.
  now apply well_keyed_merge_remote.
Qed.

Lemma well_keyed_merged A B : well_keyed (merged_map A B).
Proof.
  apply well_keyed_merge. apply (well_keyed_seed_from A []), well_keyed_nil.
Qed.

Lemma map_get_merged k A B : map_get k (merged_map A B) = resolve k A B.
Proof.
  unfold merged_map, resolve. rewrite map_get_merge. f_equal.
  apply (map_get_seed_from k A []).
Qed.

Lemma elem_merged x A B :
  x ∈ local (mergeArrays Date_parse A B) <-> resolve (id x) A B = Some x.
Proof.
  rewrite mergeArrays_local, elem_values by apply well_keyed_merged.
  now rewrite map_get_merged.
Qed.

(** Seeding keeps, under each key, the last record that carries it. *)
Lemma seed_at_last k A cur x :
  fold_left (seed_at k) A cur = Some x ->
  (cur = Some x /\ k ∉ id <$> A) \/
  (exists A1 A2, A = A1 ++ x :: A2 /\ k = id x /\ k ∉ id <$> A2).
Proof.
  revert cur. induction A as [|a A IH]; intros cur; cbn [fold_left].
  - intros ->. left. split; [reflexivity | apply not_elem_of_nil].
  - intros H. apply IH in H as [[H Hk]|(A1 & A2 & -> & -> & Hk)].
    + unfold seed_at in H. destruct (String.eqb_spec k (id a)) as [->|Hne].
      * injection H as ->. right. now exists [], A.
      * left. split; [assumption|]. rewrite fmap_cons. apply not_elem_of_cons. tauto.
    + right. now exists (a :: A1), A2.
Qed.

Lemma seed_at_skip k A cur : k ∉ id <$> A -> fold_left (seed_at k) A cur = cur.
Proof.
  revert cur. induction A as [|a A IH]; intros cur; cbn [fold_left]; [reflexivity|].
  rewrite fmap_cons, not_elem_of_cons. intros [Hne Hk]. rewrite IH by assumption.
  unfold seed_at. now destruct (String.eqb_spec k (id a)).
Qed.

Lemma seed_at_elem k A x :
  fold_left (seed_at k) A None = Some x -> x ∈ A /\ id x = k.
Proof.
  intros H. apply seed_at_last in H as [[H _]|(A1 & A2 & -> & -> & _)]; [discriminate|].
  split; [|reflexivity]. apply elem_of_app. right. apply elem_of_cons. now left.
Qed.

Lemma seed_at_None k A : fold_left (seed_at k) A None = None <-> k ∉ id <$> A.
Proof.
  split; [|apply seed_at_skip].
  induction A as [|a A IH] using rev_ind; [intros _; apply not_elem_of_nil|].
  rewrite fold_left_app. simpl. unfold seed_at at 1.
  destruct (String.eqb_spec k (id a)) as [->|Hne]; [discriminate|].
  intros H. rewrite fmap_app, not_elem_of_app. split; [auto|].
  simpl. rewrite list_elem_of_singleton. assumption.
Qed.

Lemma NoDup_id_inj (A : list item) x y :
  NoDup (id <$> A) -> x ∈ A -> y ∈ A -> id x = id y -> x = y.
Proof.
  induction A as [|a A IH]; [intros _ H; now apply elem_of_nil in H|].
  rewrite fmap_cons, NoDup_cons, !elem_of_cons.
  intros [Ha Hnd] [->|Hx] [->|Hy] E; auto.
  - exfalso. apply Ha. rewrite E. now apply list_elem_of_fmap_2.
  - exfalso. apply Ha. rewrite <- E. now apply list_elem_of_fmap_2.
Qed.

Lemma seed_at_unique A x :
  NoDup (id <$> A) -> x ∈ A -> fold_left (seed_at (id x)) A None = Some x.
Proof.
  intros Hnd Hx.
  destruct (fold_left (seed_at (id x)) A None) as [y|] eqn:E.
  - apply seed_at_elem in E as [Hy Hid]. f_equal. eauto using NoDup_id_inj.
  - apply seed_at_None in E. exfalso. apply E. now apply list_elem_of_fmap_2.
Qed.

(** The second loop under one key. *)
Lemma merge_at_skip k B cur : k ∉ id <$> B -> fold_left (merge_at k) B cur = cur.
Proof.
  revert cur. induction B as [|r B IH]; intros cur; cbn [fold_left]; [reflexivity|].
  rewrite fmap_cons, not_elem_of_cons. intros [Hne Hk]. rewrite IH by assumption.
  unfold merge_at. now destruct (String.eqb_spec k (id r)).
Qed.

Lemma merge_at_elem k B cur x :
  fold_left (merge_at k) B cur = Some x -> cur = Some x \/ (x ∈ B /\ id x = k).
Proof.
  revert cur. induction B as [|r B IH]; intros cur; cbn [fold_left]; [now left|].
  intros H. apply IH in H as [H|[Hx Hid]].
  - unfold merge_at in H. destruct (String.eqb_spec k (id r)) as [->|Hne]; [|now left].
    destruct cur as [l|].
    + destruct (later r l); injection H as <-;
        [right; split; [apply elem_of_cons; now left | reflexivity] | now left].
    + injection H as <-. right. split; [apply elem_of_cons; now left | reflexivity].
  - right. split; [apply elem_of_cons; now right | assumption].
Qed.

Lemma merge_at_is_Some k cur r : is_Some cur -> is_Some (merge_at k cur r).
Proof.
  intros [l ->]. unfold merge_at.
  destruct (String.eqb k (id r)); [destruct (later r l)|]; eauto.
Qed.

Lemma merge_at_fold_is_Some k B cur :
  is_Some cur \/ k ∈ id <$> B -> is_Some (fold_left (merge_at k) B cur).
Proof.
  revert cur. induction B as [|r B IH]; intros cur; cbn [fold_left].
  - intros [H|H]; [assumption | now apply elem_of_nil in H].
  - rewrite fmap_cons, elem_of_cons. intros [H|[->|H]]; apply IH; auto.
    + left. now apply merge_at_is_Some.
    + left. unfold merge_at. rewrite String.eqb_refl.
      destruct cur as [l|]; [destruct (later r l)|]; eauto.
Qed.

Lemma merge_at_unique B cur r :
  NoDup (id <$> B) -> r ∈ B ->
  fold_left (merge_at (id r)) B cur = merge_at (id r) cur r.
Proof.
  revert cur. induction B as [|b B IH]; intros cur; [intros _ H; now apply elem_of_nil in H|].
  rewrite fmap_cons, NoDup_cons, elem_of_cons. cbn [fold_left]. intros [Hb Hnd] [->|Hr].
  - now apply merge_at_skip.
  - rewrite IH by assumption. f_equal.
    unfold merge_at at 1. destruct (String.eqb_spec (id r) (id b)) as [E|Hne]; [|reflexivity].
    exfalso. apply Hb. rewrite <- E. now apply list_elem_of_fmap_2.
Qed.

Lemma resolve_is_Some k A B :
  is_Some (resolve k A B) <-> k ∈ id <$> A \/ k ∈ id <$> B.
Proof.
  unfold resolve. split.
  - intros [x H]. apply merge_at_elem in H as [H|[Hx <-]].
    + apply seed_at_elem in H as [Hx <-]. left. now apply list_elem_of_fmap_2.
    + right. now apply list_elem_of_fmap_2.
  - intros [H|H]; apply merge_at_fold_is_Some; [left | now right].
    destruct (fold_left (seed_at k) A None) eqn:E; [eauto|].
    now apply seed_at_None in E.
Qed.

(** Every record of the output comes from one of the two inputs. *)
Lemma resolve_elem k A B x : resolve k A B = Some x -> (x ∈ A \/ x ∈ B) /\ id x = k.
Proof.
  unfold resolve. intros H. apply merge_at_elem in H as [H|[Hx Hid]].
  - apply seed_at_elem in H as [Hx Hid]. auto.
  - auto.
Qed.

Lemma NoDup_merged A B : NoDup (id <$> local (mergeArrays Date_parse A B)).
Proof.
  rewrite mergeArrays_local, keys_values by apply well_keyed_merged.
  apply well_keyed_merged.
Qed.

Lemma ids_merged k A B :
  k ∈ id <$> local (mergeArrays Date_parse A B) <-> k ∈ id <$> A \/ k ∈ id <$> B.
Proof.
  rewrite mergeArrays_local, keys_values by apply well_keyed_merged.
  rewrite <- resolve_is_Some, <- map_get_merged.
  destruct (map_get k (merged_map A B)) eqn:E.
  - split; [eauto|]. intros _. apply map_get_elem in E.
    apply (list_elem_of_fmap_2 fst) in E. exact E.
  - split; [|intros [? ?]; discriminate].
    intros H. now apply map_get_None in E.
Qed.

(** *** Array merge: union of the ids, last write wins *)

(** C1. When no id occurs twice in [A] and none twice in [B], the array
    returned by [mergeArrays A B] holds exactly one record per id of the
    union of the ids of [A] and [B]; for an id on both sides it holds the
    remote record when the remote time is strictly greater and the local
    record otherwise; for an id on one side only it holds that record. *)
Theorem mergeArrays_union_last_write_wins (A B : list item) :
  NoDup (id <$> A) -> NoDup (id <$> B) ->
  let M := local (mergeArrays Date_parse A B) in
  NoDup (id <$> M) /\
  (forall k, k ∈ id <$> M <-> k ∈ id <$> A \/ k ∈ id <$> B) /\
  (forall l r, l ∈ A -> r ∈ B -> id l = id r ->
     if later r l then r ∈ M /\ (l ∈ M -> l = r)
     else l ∈ M /\ (r ∈ M -> r = l)) /\
  (forall l, l ∈ A -> id l ∉ id <$> B -> l ∈ M) /\
  (forall r, r ∈ B -> id r ∉ id <$> A -> r ∈ M).
Proof.
  intros HA HB M. subst M.
  split; [apply NoDup_merged|]. split; [intros k; apply ids_merged|].
  assert (Hboth : forall l r, l ∈ A -> r ∈ B -> id l = id r ->
            resolve (id l) A B = Some (if later r l then r else l)).
  { intros l r Hl Hr E. unfold Merge.resolve.
    rewrite seed_at_unique by assumption. rewrite E.
    rewrite merge_at_unique by assumption.
    unfold Merge.merge_at. rewrite String.eqb_refl.
    now destruct (later r l). }
  split; [|split].
  - intros l r Hl Hr E. specialize (Hboth l r Hl Hr E).
    destruct (later r l); rewrite !elem_merged.
    + rewrite <- E, Hboth. split; [reflexivity|]. now intros [=].
    + rewrite Hboth. split; [reflexivity|]. rewrite <- E, Hboth. now intros [=].
  - intros l Hl Hout. apply elem_merged. unfold Merge.resolve.
    rewrite merge_at_skip by assumption. now apply seed_at_unique.
  - intros r Hr Hout. apply elem_merged. unfold Merge.resolve.
    rewrite seed_at_skip by assumption. rewrite merge_at_unique by assumption.
    unfold Merge.merge_at. now rewrite String.eqb_refl.
Qed.

(** *** Array merge: distinct ids, records selected and never built *)

Lemma seed_elem x A :
  x ∈ map_values (seed A) <->
  exists A1 A2, A = A1 ++ x :: A2 /\ id x ∉ id <$> A2.
Proof.
  assert (Hwk : well_keyed (seed A)) by apply (well_keyed_seed_from A []), well_keyed_nil.
  rewrite elem_values by assumption.
  change (seed A) with (seed_from A []). rewrite map_get_seed_from. simpl. split.
  - intros H. apply seed_at_last in H as [[H _]|(A1 & A2 & -> & _ & Hk)]; [discriminate|].
    now exists A1, A2.
  - intros (A1 & A2 & -> & Hk). rewrite fold_left_app. cbn [fold_left].
    rewrite seed_at_skip by assumption.
    unfold seed_at. now rewrite String.eqb_refl.
Qed.

(** C10. Whatever the two input arrays, the ids of the array returned by
    [mergeArrays] are pairwise distinct and each of its records is a record
    of the local or of the remote input, unchanged; seeding keeps, for each
    id, the last local record that carries it. *)
Theorem mergeArrays_selects_distinct (A B : list item) :
  let M := local (mergeArrays Date_parse A B) in
  NoDup (id <$> M) /\
  (forall x, x ∈ M -> x ∈ A \/ x ∈ B) /\
  (forall x, x ∈ map_values (seed A) <->
     exists A1 A2, A = A1 ++ x :: A2 /\ id x ∉ id <$> A2).
Proof.
  intros M. subst M. split; [apply NoDup_merged|]. split.
  - intros x Hx. apply elem_merged in Hx. now apply resolve_elem in Hx.
  - intros x. apply seed_elem.
Qed.

(** *** Idempotence *)

Lemma seed_from_values m1 m2 :
  well_keyed (m1 ++ m2) -> seed_from (map_values m2) m1 = m1 ++ m2.
Proof.
  revert m1. induction m2 as [|[k v] m2 IH]; intros m1 Hwk.
  - now rewrite app_nil_r.
  - unfold map_values. rewrite fmap_cons. cbn [seed_from fold_left snd].
    assert (Hid : id v = k /\ k ∉ keys m1).
    { destruct Hwk as [Hnd Hid]. split.
      - rewrite Forall_forall in Hid. apply (Hid (k, v)).
        apply elem_of_app. right. apply elem_of_cons. now left.
      - unfold keys in *. rewrite fmap_app, fmap_cons in Hnd.
        apply NoDup_app in Hnd as (_ & Hd & _). intros Hk.
        apply (Hd k Hk). apply elem_of_cons. now left. }
    destruct Hid as [-> Hk]. rewrite map_set_fresh by assumption.
    change (seed_from (map_values m2) (m1 ++ [(k, v)]) = m1 ++ (k, v) :: m2).
    rewrite IH; rewrite <- app_assoc; [reflexivity | exact Hwk].
Qed.

Lemma seed_values m : well_keyed m -> seed (map_values m) = m.
Proof. intros H. apply (seed_from_values [] m H). Qed.

(** Once every remote record finds under its id a record that it does not
    beat, the second loop changes nothing. *)
Lemma merge_stable B m h :
  (forall r, r ∈ B -> exists l, map_get (id r) m = Some l /\ later r l = false) ->
  fst (fold_left (merge_remote Date_parse) B (m, h)) = m.
Proof.
  revert h. induction B as [|r B IH]; intros h H; cbn [fold_left]; [reflexivity|].
  destruct (H r) as (l & Hl & Hrl); [apply elem_of_cons; now left|].
  rewrite merge_remote_eq, Hl, Hrl.
  destruct (later l r); apply IH; intros r' Hr'; apply H, elem_of_cons; now right.
Qed.

Lemma merge_at_settled k B cur (Q : item -> Prop) :
  (forall r, Q r -> exists l, cur = Some l /\ later r l = false) ->
  forall r, Q r \/ (r ∈ B /\ id r = k) ->
  exists l, fold_left (merge_at k) B cur = Some l /\ later r l = false.
Proof.
  revert cur Q. induction B as [|b B IH]; intros cur Q HQ r Hr; cbn [fold_left].
  - destruct Hr as [Hr|[Hr _]]; [auto | now apply elem_of_nil in Hr].
  - apply (IH _ (fun r => Q r \/ (r = b /\ id b = k))).
    + clear r Hr. intros r [Hr|[-> Hk]].
      * destruct (HQ r Hr) as (l & -> & Hrl). unfold Merge.merge_at.
        destruct (String.eqb k (id b)); [|eauto].
        destruct (later b l) eqn:Hbl; [|eauto].
        exists b. split; [reflexivity|].
        unfold Merge.later in *. eapply gt_false_trans; eassumption.
      * unfold Merge.merge_at. rewrite <- Hk, String.eqb_refl.
        destruct cur as [l|].
        -- destruct (later b l) eqn:Hbl; [|eauto].
           exists b. split; [reflexivity | apply gt_irrefl].
        -- exists b. split; [reflexivity | apply gt_irrefl].
    + destruct Hr as [Hr|[Hr Hk]]; [auto|].
      apply elem_of_cons in Hr as [->|Hr]; auto.
Qed.

Lemma merged_settled A B r :
  r ∈ B -> exists l, map_get (id r) (merged_map A B) = Some l /\ later r l = false.
Proof.
  intros Hr. rewrite map_get_merged. unfold Merge.resolve.
  apply (merge_at_settled _ _ _ (fun _ => False)); [tauto | auto].
Qed.

Theorem mergeArrays_idempotent (A B : list item) :
  local (mergeArrays Date_parse (local (mergeArrays Date_parse A B)) B)
  = local (mergeArrays Date_parse A B).
Proof.
  rewrite !mergeArrays_local. f_equal.
  unfold Merge.merged_map at 1.
  rewrite seed_values by apply well_keyed_merged.
  apply merge_stable. intros r Hr. now apply merged_settled.
Qed.


End Facts.

Import MergeSamples.

Example Date_parse_utc_epoch : Date_parse_utc "1970-01-01T00:00:00Z" = Some 0.
Proof. reflexivity. Qed.

Example Date_parse_utc_2025 : Date_parse_utc "2025-01-01T00:00:10Z" = Some 1735689610000.
Proof. reflexivity. Qed.

Example Date_parse_utc_millis :
  Date_parse_utc "2025-01-01T00:00:10.250Z" = Some 1735689610250.
Proof. reflexivity. Qed.

(** The conflicting edit of the design notes: the local title is kept and
    the change is flagged for push. *)
Example conflicting_edit :
  mergeArrays Date_parse_utc [local_x] [remote_x] = MergeResult [local_x] true.
Proof. reflexivity. Qed.

Example device_cloud :
  mergeArrays Date_parse_utc device cloud
  = MergeResult [local_x; local_r1; remote_y; remote_r2] true.
Proof. reflexivity. Qed.

Lemma mergeArrays_union_last_write_wins_witness :
  NoDup (id <$> device) /\ NoDup (id <$> cloud) /\
  let M := local (mergeArrays Date_parse_utc device cloud) in
  NoDup (id <$> M) /\
  (forall k, k ∈ id <$> M <-> k ∈ id <$> device \/ k ∈ id <$> cloud) /\
  (forall l r, l ∈ device -> r ∈ cloud -> id l = id r ->
     if later Date_parse_utc r l then r ∈ M /\ (l ∈ M -> l = r)
     else l ∈ M /\ (r ∈ M -> r = l)) /\
  (forall l, l ∈ device -> id l ∉ id <$> cloud -> l ∈ M) /\
  (forall r, r ∈ cloud -> id r ∉ id <$> device -> r ∈ M).
Proof.
  assert (HA : NoDup (id <$> device))
    by (apply (bool_decide_unpack _); vm_compute; exact I).
  assert (HB : NoDup (id <$> cloud))
    by (apply (bool_decide_unpack _); vm_compute; exact I).
  split; [exact HA|]. split; [exact HB|].
  exact (mergeArrays_union_last_write_wins Date_parse_utc device cloud HA HB).
Defined.


End MergeFacts.

(** ** The OAuth2 handler *)

Module OAuthFacts.
Import OAuth.

(** C5. With no stored record [getToken] returns null; with a record whose
    expiry is less than five minutes away (or past) it returns null, leaving
    the store as it is when the record has a refresh token and deleting the
    record when it has none; otherwise it returns the stored access token. *)
Theorem getToken_expiry_buffer (provider : string) (w : world) :
  (tokens w !! provider = None -> getToken provider w = (None, w)) /\
  (forall r, tokens w !! provider = Some r -> expiry r - now w < 5 * 60 * 1000 ->
     fst (getToken provider w) = None /\
     snd (getToken provider w)
     = if truthy_str (refreshToken r) then w else set_tokens (delete provider) w) /\
  (forall r, tokens w !! provider = Some r -> 5 * 60 * 1000 <= expiry r - now w ->
     getToken provider w = (Some (accessToken r), w)).
Proof.
  unfold getToken. repeat split.
  - now intros ->.
  - rewrite H. destruct (Z.ltb_spec (expiry r - 5 * 60 * 1000) (now w)); [|lia].
    now destruct (truthy_str (refreshToken r)).
  - rewrite H. destruct (Z.ltb_spec (expiry r - 5 * 60 * 1000) (now w)); [|lia].
    now destruct (truthy_str (refreshToken r)).
  - intros r -> Hr. destruct (Z.ltb_spec (expiry r - 5 * 60 * 1000) (now w)); [lia|].
    reflexivity.
Qed.

Section HandlerFacts.

Variable token_endpoint : token_request -> exchange_result.

Abbreviation handleCallback := (OAuth.handleCallback token_endpoint).
Abbreviation rejected := (OAuth.rejected token_endpoint).
Abbreviation exchange_of := (OAuth.exchange_of token_endpoint).

Lemma getOAuthState_live provider w :
  fst (getOAuthState provider w) = live_session provider w.
Proof.
  unfold getOAuthState, live_session.
  destruct (sessions w !! provider) as [s|]; [|reflexivity].
  now destruct (_ <? _).
Qed.

Lemma getOAuthState_keeps provider w :
  search (snd (getOAuthState provider w)) = search w /\
  now (snd (getOAuthState provider w)) = now w /\
  tokens (snd (getOAuthState provider w)) = tokens w.
Proof.
  unfold getOAuthState.
  destruct (sessions w !! provider) as [s|]; [|auto].
  now destruct (_ <? _).
Qed.

Lemma truthy_str_Some v : truthy_str v = true -> v = Some (default ""%string v).
Proof. destruct v; [reflexivity | discriminate]. Qed.

Lemma prefix_append (s t : string) : String.prefix s (s +:+ t) = true.
Proof.
  induction s as [|c s IH]; simpl; [now destruct t|].
  destruct (ascii_dec c c); [exact IH | congruence].
Qed.

(** How a callback ends, step by step. *)
Lemma handleCallback_cases provider url clientId redirectUri clientSecret w :
  OAUTH_CONFIG provider = Some url ->
  let q name := URLSearchParams_get name (search w) in
  handleCallback provider clientId redirectUri clientSecret w =
  if truthy_str (q "error"%string) then
    (Throw (JsError ("OAuth error: " +:+ default ""%string (q "error"%string))), w)
  else if negb (truthy_str (q "code"%string)) || negb (truthy_str (q "state"%string)) then
    (Throw (JsError "Missing code or state parameter"), w)
  else
    match live_session provider w with
    | None => (Throw (JsError "Invalid state parameter"), snd (getOAuthState provider w))
    | Some s =>
        if negb (String.eqb (state s) (default ""%string (q "state"%string))) then
          (Throw (JsError "Invalid state parameter"), w)
        else
          match exchange_of provider clientId redirectUri clientSecret w s with
          | ExchangeBroken e => (Throw e, w)
          | ExchangeRefused d e =>
              (Throw (JsError ("Token exchange failed: " +:+ refusal_text d e)), w)
          | ExchangeGranted token =>
              (Normal true,
               set_search [] (set_sessions (delete provider) (saveToken provider token w)))
          end
    end.
Proof.
  intros Hcfg q. subst q. cbv beta.
  unfold OAuth.handleCallback, OAuth.exchange_of. rewrite Hcfg.
  destruct (truthy_str (URLSearchParams_get "error" (search w))); [reflexivity|].
  destruct (negb (truthy_str (URLSearchParams_get "code" (search w)))
            || negb (truthy_str (URLSearchParams_get "state" (search w))));
    [reflexivity|].
  unfold getOAuthState, live_session.
  destruct (sessions w !! provider) as [s|]; [|reflexivity].
  destruct (10 * 60 * 1000 <? now w - timestamp s); reflexivity.
Qed.

Lemma handleCallback_unknown_provider provider clientId redirectUri clientSecret w :
  OAUTH_CONFIG provider = None ->
  handleCallback provider clientId redirectUri clientSecret w
  = (Throw (JsError ("Unknown provider: " +:+ provider)), w).
Proof. intros H. unfold OAuth.handleCallback. now rewrite H. Qed.


End HandlerFacts.

Import OAuthSamples.


(** A name that the configuration object inherits is taken for a provider:
    the callback of [toString] is handled like any other, and only a name
    the lookup does not find fails as unknown. *)
Example handleCallback_inherited_name :
  fst (OAuth.handleCallback granting "toString" "client" "https://app/cb" None
         (World {[ "toString"%string := saved ]} ∅ 3000
                [("code", "4/abc"); ("state", "st-41")]%string))
  = Normal true /\
  fst (OAuth.handleCallback granting "github" "client" "https://app/cb" None callback_page)
  = Throw (JsError "Unknown provider: github").
Proof. split; reflexivity. Qed.


Example callback_page_succeeds :
  OAuth.handleCallback granting "google" "client" "https://app/cb" None callback_page
  = (Normal true,
     World ∅ {[ "google"%string := TokenRecord "ya29.sample" None 3602000 ]} 3000 []).
Proof. reflexivity. Qed.

Lemma getToken_expiry_buffer_witness :
  fst (getToken "google" (expiring None)) = None /\
  snd (getToken "google" (expiring None)) = set_tokens (delete "google"%string) (expiring None) /\
  getToken "google" (expiring (Some "1//refresh"%string)) = (None, expiring (Some "1//refresh"%string)).
Proof.
  pose proof (getToken_expiry_buffer "google" (expiring None)) as (_ & H & _).
  pose proof (getToken_expiry_buffer "google" (expiring (Some "1//refresh"%string))) as (_ & H' & _).
  specialize (H _ eq_refl ltac:(simpl; lia)) as [H1 H2].
  specialize (H' _ eq_refl ltac:(simpl; lia)) as [H1' H2'].
  split; [exact H1|]. split; [exact H2|].
  rewrite (surjective_pairing (getToken _ _)), H1', H2'. reflexivity.
Defined.

End OAuthFacts.

(** ** The Google Drive provider *)

Module DriveFacts.
Import Drive.

(** *** Attachment names *)

Lemma prefix_dash c s : String.prefix "-" (String c s) = if ascii_dec "-"%char c then true else false.
Proof.
  change (String.prefix "-" (String c s))
    with (if ascii_dec "-"%char c then String.prefix "" s else false).
  destruct (ascii_dec "-"%char c); [now destruct s | reflexivity].
Qed.

Lemma indexOf_from_dashless s rest i :
  dashless s ->
  indexOf_from "-" (s +:+ rest) i = indexOf_from "-" rest (i + Z.of_nat (String.length s)).
Proof.
  revert i. induction s as [|c s IH]; intros i Hs.
  - simpl. f_equal. lia.
  - change ((String c s) +:+ rest) with (String c (s +:+ rest)).
    cbn [indexOf_from]. rewrite prefix_dash.
    destruct (ascii_dec "-"%char c) as [<-|Hc].
    + exfalso. apply Hs. simpl. now left.
    + rewrite IH.
      * f_equal. cbn [String.length]. lia.
      * intros H. apply Hs. simpl. now right.
Qed.

Lemma indexOf_dash_here rest i : indexOf_from "-" ("-" +:+ rest) i = i.
Proof.
  change ("-" +:+ rest) with (String "-" rest). cbn [indexOf_from].
  rewrite prefix_dash. now destruct (ascii_dec "-"%char "-"%char).
Qed.

Lemma indexOf_dashless s : dashless s -> indexOf "-" s = -1.
Proof.
  unfold indexOf. generalize 0. induction s as [|c s IH]; intros i Hs.
  - reflexivity.
  - cbn [indexOf_from]. rewrite prefix_dash.
    destruct (ascii_dec "-"%char c) as [<-|Hc].
    + exfalso. apply Hs. simpl. now left.
    + apply IH. intros H. apply Hs. simpl. now right.
Qed.

Lemma substring_prefix s rest :
  String.substring 0 (String.length s) (s +:+ rest) = s.
Proof.
  induction s as [|c s IH]; simpl; [now destruct rest|]. now rewrite IH.
Qed.

Lemma substring_whole s : String.substring 0 (String.length s) s = s.
Proof. induction s as [|c s IH]; simpl; [reflexivity | now rewrite IH]. Qed.

Lemma substring_suffix s rest :
  String.substring (String.length s) (String.length rest) (s +:+ rest) = rest.
Proof.
  induction s as [|c s IH]; simpl; [apply substring_whole | exact IH].
Qed.

Lemma length_append (s t : string) :
  String.length (s +:+ t) = (String.length s + String.length t)%nat.
Proof. induction s as [|c s IH]; simpl; [reflexivity | now rewrite IH]. Qed.

Lemma js_substring_prefix s rest :
  js_substring (s +:+ rest) 0 (Some (Z.of_nat (String.length s))) = s.
Proof.
  unfold js_substring. rewrite length_append.
  replace (Z.to_nat _) with 0%nat by lia.
  replace (Z.to_nat _) with (String.length s) by lia.
  apply substring_prefix.
Qed.

Lemma js_substring_suffix s rest :
  js_substring (s +:+ rest) (Z.of_nat (String.length s)) None = rest.
Proof.
  unfold js_substring. rewrite length_append.
  replace (Z.to_nat (Z.min _ _)) with (String.length s) by lia.
  replace (Z.to_nat _) with (String.length rest) by lia.
  apply substring_suffix.
Qed.

Lemma append_cons c (s t : string) : String c s +:+ t = String c (s +:+ t).
Proof. reflexivity. Qed.

Lemma append_assoc (s t u : string) : (s +:+ t) +:+ u = s +:+ (t +:+ u).
Proof.
  induction s as [|c s IH]; [reflexivity|].
  rewrite !append_cons. f_equal. exact IH.
Qed.

(** C9. For a non-empty attachment id without [-] and any file name,
    parsing the stored name [<id>-<filename>] the way [listAttachments] does
    gives back the id and the file name; a stored name without [-] is given
    back whole as the file name. *)
Theorem attachment_name_roundtrip :
  (forall attachmentId filename : string,
     attachmentId <> ""%string -> dashless attachmentId ->
     parse_attachment_name (attachment_name attachmentId filename)
     = (attachmentId, filename)) /\
  (forall name : string, dashless name -> snd (parse_attachment_name name) = name).
Proof.
  split.
  - intros a f Ha Hd. unfold parse_attachment_name, attachment_name, indexOf.
    rewrite indexOf_from_dashless, indexOf_dash_here by assumption.
    assert (Hlen : 0 < Z.of_nat (String.length a)) by (destruct a; simpl; [congruence | lia]).
    rewrite Z.add_0_l.
    destruct (Z.ltb_spec 0 (Z.of_nat (String.length a))); [|lia].
    f_equal.
    + apply js_substring_prefix.
    + rewrite <- append_assoc.
      replace (Z.of_nat (String.length a) + 1) with (Z.of_nat (String.length (a +:+ "-")))
        by (rewrite length_append; simpl; lia).
      apply js_substring_suffix.
  - intros name Hd. unfold parse_attachment_name.
    rewrite indexOf_dashless by assumption. reflexivity.
Qed.

Lemma attachment_name_roundtrip_witness :
  parse_attachment_name (attachment_name "a41" "trip-photo.jpg") = ("a41", "trip-photo.jpg")%string /\
  snd (parse_attachment_name "notes.txt") = "notes.txt"%string.
Proof.
  destruct attachment_name_roundtrip as [H1 H2]. split.
  - apply H1; [discriminate|]. unfold dashless. simpl. intuition discriminate.
  - apply H2. unfold dashless. simpl. intuition discriminate.
Defined.

Example parse_leading_dash : parse_attachment_name "-x.txt" = ("-x.txt", "-x.txt")%string.
Proof. reflexivity. Qed.

(** *** Calls without a token *)

Section ProviderFacts.

Variable server : Type.
Variable window_fetch : request -> server -> http_result * server.
Variable encodeURIComponent : string -> string.
Variable toISOString : Z -> string.
Variable String_of : json -> string.
Variable parseInt : option json -> option Z.
Variable domain : string.

Abbreviation world := (Drive.world server).
Abbreviation apiRequest := (Drive.apiRequest server window_fetch String_of).
Abbreviation getOrCreateDataFile :=
  (Drive.getOrCreateDataFile server window_fetch encodeURIComponent String_of domain).
Abbreviation getOrCreateAttachmentsFolder :=
  (Drive.getOrCreateAttachmentsFolder server window_fetch encodeURIComponent String_of domain).
Abbreviation find_or_create_folder :=
  (Drive.find_or_create_folder server window_fetch encodeURIComponent String_of).
Abbreviation fetch := (Drive.fetch server window_fetch encodeURIComponent String_of domain).
Abbreviation push :=
  (Drive.push server window_fetch encodeURIComponent toISOString String_of domain).
Abbreviation uploadAttachment :=
  (Drive.uploadAttachment server window_fetch encodeURIComponent String_of domain).
Abbreviation downloadAttachment := (Drive.downloadAttachment server window_fetch).
Abbreviation deleteAttachment := (Drive.deleteAttachment server window_fetch String_of).
Abbreviation listAttachments :=
  (Drive.listAttachments server window_fetch encodeURIComponent String_of parseInt domain).
Abbreviation listAllDomainFiles :=
  (Drive.listAllDomainFiles server window_fetch encodeURIComponent String_of domain).
Abbreviation fetchDomainData := (Drive.fetchDomainData server window_fetch String_of).
Abbreviation saved_folder := (Drive.saved_folder server domain).
Abbreviation unauthenticated := (Drive.unauthenticated server).
Abbreviation fails_fast := (Drive.fails_fast server).
Abbreviation silent := (Drive.silent server).

Lemma bind_Throw {A B} (m : M server A) (k : A -> M server B) w e w' :
  m w = (Throw e, w') -> bind server m k w = (Throw e, w').
Proof. intros H. unfold bind. now rewrite H. Qed.

Lemma bind_Normal {A B} (m : M server A) (k : A -> M server B) w a w' :
  m w = (Normal a, w') -> bind server m k w = k a w'.
Proof. intros H. unfold bind. now rewrite H. Qed.

Lemma set_auth_same (w : world) : set_auth server (auth server w) w = w.
Proof. now destruct w. Qed.

(** Reading the token touches the OAuth store only. *)
Lemma getToken_frame (w : world) :
  exists t a, getToken server w = (Normal t, set_auth server a w) /\
              OAuth.getToken "google" (auth server w) = (t, a).
Proof.
  unfold getToken. destruct (OAuth.getToken "google" (auth server w)) as [t a].
  now exists t, a.
Qed.

Lemma getToken_unauthenticated (w : world) :
  unauthenticated w -> exists a, getToken server w = (Normal None, set_auth server a w).
Proof.
  unfold Drive.unauthenticated, getToken.
  destruct (OAuth.getToken "google" (auth server w)) as [t a]. simpl.
  intros ->. now exists a.
Qed.

(** The two checks the sync engine makes touch neither the backend nor the
    cached ids, and send nothing. *)
Lemma isConnected_frame (w : world) :
  exists b a, Drive.isConnected server w = (Normal b, set_auth server a w).
Proof.
  unfold Drive.isConnected. destruct (getToken_frame w) as (t & a & Ht & _).
  exists (match t with Some _ => true | None => false end), a.
  now rewrite (bind_Normal _ _ _ _ _ Ht).
Qed.

Lemma isFolderConfigured_frame (w : world) :
  exists b, Drive.isFolderConfigured server domain w = (Normal b, w).
Proof. unfold Drive.isFolderConfigured, bind, getSavedFolder. simpl. eauto. Qed.

Lemma apiRequest_unauthenticated path options (w : world) :
  unauthenticated w ->
  exists a, apiRequest path options w = (Throw not_authenticated, set_auth server a w).
Proof.
  intros H. apply getToken_unauthenticated in H as [a Ha]. exists a.
  unfold Drive.apiRequest, bind. now rewrite Ha.
Qed.

Lemma getOrCreateDataFile_cached (w : world) :
  json_truthy (fileId server w) = true ->
  getOrCreateDataFile w = (Normal (fileId server w), w).
Proof. intros H. unfold Drive.getOrCreateDataFile. now rewrite H. Qed.

Lemma getOrCreateDataFile_unauthenticated (w : world) :
  unauthenticated w -> json_truthy (fileId server w) = false ->
  exists a, getOrCreateDataFile w
            = (match saved_folder w with
               | Some _ => Throw not_authenticated
               | None => Throw no_folder
               end, set_auth server a w).
Proof.
  intros Hu Hc. unfold Drive.getOrCreateDataFile. rewrite Hc.
  rewrite (bind_Normal _ _ w (saved_folder w) w) by reflexivity.
  destruct (saved_folder w) as [f|].
  - edestruct apiRequest_unauthenticated as [a Ha]; [exact Hu|].
    exists a. apply bind_Throw. exact Ha.
  - exists (auth server w). now rewrite set_auth_same.
Qed.

Lemma getOrCreateAttachmentsFolder_cached (w : world) :
  json_truthy (attachmentsFolderId server w) = true ->
  getOrCreateAttachmentsFolder w = (Normal (attachmentsFolderId server w), w).
Proof. intros H. unfold Drive.getOrCreateAttachmentsFolder. now rewrite H. Qed.

Lemma find_or_create_folder_unauthenticated name parent_text parent (w : world) :
  unauthenticated w ->
  exists a, find_or_create_folder name parent_text parent w
            = (Throw not_authenticated, set_auth server a w).
Proof.
  intros Hu. edestruct apiRequest_unauthenticated as [a Ha]; [exact Hu|].
  exists a. apply bind_Throw. exact Ha.
Qed.

Lemma getOrCreateAttachmentsFolder_unauthenticated (w : world) :
  unauthenticated w -> json_truthy (attachmentsFolderId server w) = false ->
  exists a, getOrCreateAttachmentsFolder w
            = (match saved_folder w with
               | Some _ => Throw not_authenticated
               | None => Throw no_folder
               end, set_auth server a w).
Proof.
  intros Hu Hc. unfold Drive.getOrCreateAttachmentsFolder. rewrite Hc.
  rewrite (bind_Normal _ _ w (saved_folder w) w) by reflexivity.
  destruct (saved_folder w) as [f|].
  - edestruct find_or_create_folder_unauthenticated as [a Ha]; [exact Hu|].
    exists a. apply bind_Throw. exact Ha.
  - exists (auth server w). now rewrite set_auth_same.
Qed.

Lemma try_catch_Throw {A} (m : M server A) h w e w' :
  m w = (Throw e, w') -> try_catch server m h w = h e w'.
Proof. intros H. unfold try_catch. now rewrite H. Qed.

Lemma try_catch_Normal {A} (m : M server A) h w a w' :
  m w = (Normal a, w') -> try_catch server m h w = (Normal a, w').
Proof. intros H. unfold try_catch. now rewrite H. Qed.

Lemma fails_fast_intro {A} (op : M server A) (w : world) a :
  op w = (Throw not_authenticated, set_auth server a w) -> fails_fast op w.
Proof. intros H. unfold Drive.fails_fast. now rewrite H. Qed.

Lemma quiet_intro {A} (op : M server A) (w : world) r a :
  op w = (r, set_auth server a w) -> fst (op w) = r /\ silent op w.
Proof. intros H. unfold Drive.silent. now rewrite H. Qed.

(** C6, as the code has it.  Without a token, every call that goes through
    [apiRequest] fails with the not-authenticated error before any request
    is sent: [deleteAttachment] always; [listAttachments] with a cached
    attachments folder or a saved folder; [listAllDomainFiles] with a saved
    folder; [fetch], [push] and [uploadAttachment] when the id they need is
    not cached and a folder is saved.  [fetch] with a cached data-file id
    and [fetchDomainData] return null data instead, and [listAllDomainFiles]
    without a saved folder returns the empty list, all without a request;
    a call that needs a folder and finds none fails with the no-folder
    error, without a request. *)
Theorem unauthenticated_calls (w : world) :
  unauthenticated w ->
  (forall path options, fails_fast (apiRequest path options) w) /\
  (forall remoteId, fails_fast (deleteAttachment remoteId) w) /\
  (is_Some (saved_folder w) \/ json_truthy (attachmentsFolderId server w) = true ->
     fails_fast listAttachments w) /\
  (is_Some (saved_folder w) -> fails_fast listAllDomainFiles w) /\
  (is_Some (saved_folder w) -> json_truthy (fileId server w) = false ->
     fails_fast fetch w /\ forall sd, fails_fast (push sd) w) /\
  (is_Some (saved_folder w) -> json_truthy (attachmentsFolderId server w) = false ->
     forall attachmentId filename blob mimeType,
       fails_fast (uploadAttachment attachmentId filename blob mimeType) w) /\
  (json_truthy (fileId server w) = true ->
     fst (fetch w) = Normal no_data /\ silent fetch w) /\
  (forall domainFileId,
     fst (fetchDomainData domainFileId w) = Normal JNull /\
     silent (fetchDomainData domainFileId) w) /\
  (saved_folder w = None ->
     fst (listAllDomainFiles w) = Normal [] /\ silent listAllDomainFiles w) /\
  (saved_folder w = None -> json_truthy (fileId server w) = false ->
     (fst (fetch w) = Throw no_folder /\ silent fetch w) /\
     forall sd, fst (push sd w) = Throw no_folder /\ silent (push sd) w) /\
  (saved_folder w = None -> json_truthy (attachmentsFolderId server w) = false ->
     (fst (listAttachments w) = Throw no_folder /\ silent listAttachments w) /\
     forall attachmentId filename blob mimeType,
       fst (uploadAttachment attachmentId filename blob mimeType w) = Throw no_folder /\
       silent (uploadAttachment attachmentId filename blob mimeType) w).
Proof.
  intros Hu.
  assert (Hapi : forall path options, fails_fast (apiRequest path options) w).
  { intros path options. edestruct apiRequest_unauthenticated as [a Ha]; [exact Hu|].
    eapply fails_fast_intro, Ha. }
  split; [exact Hapi|]. split.
  { intros remoteId. edestruct apiRequest_unauthenticated as [a Ha]; [exact Hu|].
    eapply fails_fast_intro. apply bind_Throw, Ha. }
  split.
  { intros H. destruct (json_truthy (attachmentsFolderId server w)) eqn:Hc.
    - edestruct apiRequest_unauthenticated as [a Ha]; [exact Hu|].
      eapply fails_fast_intro. unfold Drive.listAttachments.
      rewrite (bind_Normal _ _ _ _ _ (getOrCreateAttachmentsFolder_cached w Hc)).
      apply bind_Throw, Ha.
    - destruct H as [[f Hf]|H]; [|discriminate].
      destruct (getOrCreateAttachmentsFolder_unauthenticated w Hu Hc) as [a Ha].
      rewrite Hf in Ha. eapply fails_fast_intro. apply bind_Throw, Ha. }
  split.
  { intros [f Hf]. edestruct apiRequest_unauthenticated as [a Ha]; [exact Hu|].
    eapply fails_fast_intro. unfold Drive.listAllDomainFiles.
    rewrite (bind_Normal _ _ w (saved_folder w) w) by reflexivity. rewrite Hf.
    apply bind_Throw, Ha. }
  split.
  { intros [f Hf] Hc.
    destruct (getOrCreateDataFile_unauthenticated w Hu Hc) as [a Ha]. rewrite Hf in Ha.
    split; [|intros sd]; eapply fails_fast_intro; apply bind_Throw, Ha. }
  split.
  { intros [f Hf] Hc attachmentId filename blob mimeType.
    destruct (getOrCreateAttachmentsFolder_unauthenticated w Hu Hc) as [a Ha].
    rewrite Hf in Ha. eapply fails_fast_intro. apply bind_Throw, Ha. }
  split.
  { intros Hc. edestruct apiRequest_unauthenticated as [a Ha]; [exact Hu|].
    eapply quiet_intro. unfold Drive.fetch.
    rewrite (bind_Normal _ _ _ _ _ (getOrCreateDataFile_cached w Hc)).
    erewrite try_catch_Throw; [reflexivity|]. apply bind_Throw, Ha. }
  split.
  { intros domainFileId. edestruct apiRequest_unauthenticated as [a Ha]; [exact Hu|].
    eapply quiet_intro. unfold Drive.fetchDomainData.
    erewrite try_catch_Throw; [reflexivity | apply Ha]. }
  split.
  { intros Hf. apply (quiet_intro _ _ _ (auth server w)). rewrite set_auth_same.
    unfold Drive.listAllDomainFiles.
    rewrite (bind_Normal _ _ w (saved_folder w) w) by reflexivity. now rewrite Hf. }
  split.
  { intros Hf Hc.
    destruct (getOrCreateDataFile_unauthenticated w Hu Hc) as [a Ha]. rewrite Hf in Ha.
    split; [|intros sd]; eapply quiet_intro; apply bind_Throw, Ha. }
  intros Hf Hc.
  destruct (getOrCreateAttachmentsFolder_unauthenticated w Hu Hc) as [a Ha].
  rewrite Hf in Ha.
  split; [|intros attachmentId filename blob mimeType];
    eapply quiet_intro; apply bind_Throw, Ha.
Qed.

(** *** Fetching the data file *)

Abbreviation media_request := (Drive.media_request String_of).

Lemma apiRequest_authenticated path options (w : world) token a :
  OAuth.getToken "google" (auth server w) = (Some token, a) -> token <> ""%string ->
  let req := Request (default "GET"%string (opt_method options)) (API_BASE +:+ path)
                     ("Bearer " +:+ token) (opt_content_type options) (opt_body options) in
  fst (apiRequest path options w)
  = match fst (window_fetch req (remote server w)) with
    | NetworkError e => Throw e
    | Response false b => Throw (api_error String_of b)
    | Response true (JsonBody j) => Normal j
    | Response true _ => Normal JNull
    end.
Proof.
  intros Ht Hne req. unfold Drive.apiRequest.
  erewrite bind_Normal; [|unfold getToken; rewrite Ht; reflexivity].
  assert (OAuth.truthy_str (Some token) = true) as ->
    by (simpl; now destruct (String.eqb_spec token "")).
  cbn [negb default]. subst req. unfold bind, send. cbn [remote set_auth].
  destruct (window_fetch _ (remote server w)) as [[e|ok b] srv]; cbn [fst]; [reflexivity|].
  destruct ok; cbn [negb]; [|reflexivity]. now destruct b.
Qed.

Lemma try_catch_ret_Normal {A} (m : M server A) (x : A) (w : world) :
  exists a, fst (try_catch server m (fun _ => ret server x) w) = Normal a.
Proof.
  unfold try_catch. destruct (m w) as [[a|e] w']; simpl; eauto.
Qed.

(** C7, as the code has it.  [fetch] throws only what locating or creating
    the data file throws.  Once the file is located or created and a token
    is there, [fetch] returns null data when the download fails or the
    content is empty, is not JSON, or is JSON but not an object or array;
    otherwise it returns the [data] and [lastModified] properties of the
    document, each replaced by null when it is missing or falsy. *)
Theorem fetch_reads_document (w : world) :
  (forall e, fst (fetch w) = Throw e -> fst (getOrCreateDataFile w) = Throw e) /\
  (forall id w1 token a1,
     getOrCreateDataFile w = (Normal id, w1) ->
     OAuth.getToken "google" (auth server w1) = (Some token, a1) -> token <> ""%string ->
     fst (fetch w)
     = Normal (read_document (fst (window_fetch (media_request id token) (remote server w1))))).
Proof.
  split.
  - intros e. unfold Drive.fetch, bind at 1.
    destruct (getOrCreateDataFile w) as [[id|e'] w1]; [|intros [= ->]; reflexivity].
    match goal with
    | |- fst (try_catch _ ?m (fun _ => ret _ ?x) ?w) = _ -> _ =>
        destruct (try_catch_ret_Normal m x w) as [a ->]
    end.
    discriminate.
  - intros id w1 token a1 Hid Ht Hne. unfold Drive.fetch.
    rewrite (bind_Normal _ _ _ _ _ Hid).
    pose proof (apiRequest_authenticated
                  ("/drive/v3/files/" +:+ template String_of id +:+ "?alt=media")
                  no_options w1 token a1 Ht Hne) as Hapi.
    cbn zeta in Hapi. cbn [opt_method opt_content_type opt_body no_options default] in Hapi.
    change (Request "GET" _ _ None NoPayload) with (media_request id token) in Hapi.
    unfold try_catch, bind at 1.
    destruct (apiRequest _ no_options w1) as [[j|e] w2]; cbn [fst] in Hapi.
    + destruct (fst (window_fetch (media_request id token) (remote server w1)))
        as [e|[|] [| |j']]; try discriminate; injection Hapi as ->; try reflexivity.
      unfold read_document. rewrite <- negb_andb.
      now destruct (json_truthy (Some j') && is_object j').
    + destruct (fst (window_fetch (media_request id token) (remote server w1)))
        as [e'|[|] [| |j']]; try discriminate; reflexivity.
Qed.

End ProviderFacts.

Import DriveSamples.

(** C6, as stated, fails: signed out, [fetchDomainData] returns null and does
    not fail, and [downloadAttachment] sends its request. *)
Lemma unauthenticated_calls_not_all_fail_fast :
  Drive.unauthenticated body disconnected /\
  ~ Drive.fails_fast body (Drive.fetchDomainData body refusing String_of_none "f1") disconnected /\
  ~ Drive.fails_fast body (Drive.downloadAttachment body refusing "f1") disconnected.
Proof.
  split; [reflexivity|].
  split; intros [H _]; vm_compute in H; discriminate.
Qed.

Example fetchDomainData_signed_out :
  Drive.fetchDomainData body refusing String_of_none "f1" disconnected
  = (Normal JNull, disconnected).
Proof. reflexivity. Qed.

Example downloadAttachment_signed_out :
  Drive.downloadAttachment body refusing "f1" disconnected
  = (Throw (JsError "Failed to download attachment"),
     World body signed_out garden_folder None None EmptyBody
       [Request "GET" "https://www.googleapis.com/drive/v3/files/f1?alt=media"
                "Bearer null" None NoPayload]).
Proof. reflexivity. Qed.

Lemma unauthenticated_calls_witness :
  Drive.unauthenticated body disconnected /\
  Drive.fails_fast body (Drive.deleteAttachment body refusing String_of_none "f1") disconnected /\
  Drive.fails_fast body
    (Drive.fetch body refusing unescaped String_of_none "gardener") disconnected /\
  Drive.fails_fast body
    (Drive.listAttachments body refusing unescaped String_of_none parseInt_none "gardener")
    disconnected.
Proof.
  assert (Hu : Drive.unauthenticated body disconnected) by reflexivity.
  assert (Hf : is_Some (Drive.saved_folder body "gardener" disconnected))
    by (vm_compute; eauto).
  destruct (unauthenticated_calls body refusing unescaped stamp String_of_none
              parseInt_none "gardener" disconnected Hu)
    as (_ & Hdel & Hlist & _ & Hfetch & _).
  split; [exact Hu|]. split; [apply Hdel|].
  split; [apply Hfetch; [exact Hf | reflexivity] | apply Hlist; now left].
Defined.

(** C7, as stated, fails: the document of [counter_doc] is parseable and its
    [data] is 0, and [fetch] returns null data. *)
Lemma fetch_drops_falsy_data :
  prop "data" counter_doc = Some (JNum 0) /\
  fst (Drive.fetch body serving unescaped String_of_none "gardener"
         (connected (JsonBody counter_doc)))
  = Normal (FetchResult JNull (JStr "2025-01-01T00:00:00Z")).
Proof. split; reflexivity. Qed.

Lemma fetch_reads_document_witness :
  fst (Drive.fetch body serving unescaped String_of_none "gardener"
         (connected (JsonBody garden_doc)))
  = Normal (FetchResult (JArr [JObj [("id", JStr "p1")]%string])
                        (JStr "2025-01-01T00:00:00Z")).
Proof.
  destruct (fetch_reads_document body serving unescaped String_of_none "gardener"
              (connected (JsonBody garden_doc))) as [_ H].
  apply (H (Some (JStr "f1")) (connected (JsonBody garden_doc)) "ya29.sample"%string signed_in);
    [reflexivity | reflexivity | discriminate].
Defined.

(** Signed out with a cached id, [push] sends its upload all the same. *)
Example push_signed_out_cached :
  let r := Drive.push body refusing unescaped stamp String_of_none "gardener"
             (SyncData None (JArr []) None) stale in
  fst r = Throw (JsError "Failed to upload data to Google Drive") /\
  map authorization (sent body (snd r)) = ["Bearer null"%string].
Proof. vm_compute. auto. Qed.

(** The data file is missing and cannot be created: [fetch] throws. *)
Example fetch_creation_refused :
  fst (Drive.fetch body full unescaped String_of_none "gardener" fresh)
  = Throw (JsError "Storage quota exceeded").
Proof. reflexivity. Qed.

(** First sync: the data file is missing, it is created, and its empty
    content reads as no data. *)
Example fetch_first_use :
  let r := Drive.fetch body first_use unescaped String_of_none "gardener" fresh in
  fst r = Normal no_data /\
  fileId body (snd r) = Some (JStr "f9") /\
  map method (sent body (snd r)) = ["GET"; "POST"; "GET"]%string.
Proof. vm_compute. auto. Qed.

End DriveFacts.

(** ** The sync engine *)

Module SyncFacts.
Import Merge SyncEngine.

Section EngineFacts.

Variable Date_parse : string -> option Z.
Variable env : Type.

Abbreviation M := (SyncEngine.M env).
Abbreviation sync := (SyncEngine.sync Date_parse env).
Abbreviation attempt := (SyncEngine.attempt Date_parse env).
Abbreviation engine := (SyncEngine.engine env).
Abbreviation config := (SyncEngine.config env).

(** *** Preconditions *)

(** C8. Called while the status is [SYNCING], or while the provider is not
    connected, or while no folder is configured, [sync()] resolves with
    [success: false] and the message of the first check that fails; the
    three messages differ; the status, [lastError] and the listeners are as
    before, and the environment is as the checks that ran left it, so that
    whatever part of it they do not touch (the local and the remote data)
    is unchanged. *)
Theorem sync_preconditions (cfg : config) (eng : engine) (e : env) :
  (status env eng = SYNCING ->
     sync cfg (eng, e) = (Normal (SyncResult false (Some already_syncing)), (eng, e))) /\
  (forall e1,
     status env eng <> SYNCING ->
     isConnected env (config_provider env cfg) e = (Normal false, e1) ->
     sync cfg (eng, e) = (Normal (SyncResult false (Some not_connected)), (eng, e1))) /\
  (forall e1 e2,
     status env eng <> SYNCING ->
     isConnected env (config_provider env cfg) e = (Normal true, e1) ->
     isFolderConfigured env (config_provider env cfg) e1 = (Normal false, e2) ->
     sync cfg (eng, e) = (Normal (SyncResult false (Some no_folder)), (eng, e2))) /\
  (already_syncing <> not_connected /\ already_syncing <> no_folder
   /\ not_connected <> no_folder) /\
  (forall (V : Type) (view : env -> V),
     keeps env view (isConnected env (config_provider env cfg)) ->
     keeps env view (isFolderConfigured env (config_provider env cfg)) ->
     (status env eng = SYNCING \/
      fst (isConnected env (config_provider env cfg) e) = Normal false \/
      exists e1, isConnected env (config_provider env cfg) e = (Normal true, e1) /\
                 fst (isFolderConfigured env (config_provider env cfg) e1) = Normal false) ->
     fst (snd (sync cfg (eng, e))) = eng /\ view (snd (snd (sync cfg (eng, e)))) = view e).
Proof.
  assert (H1 : status env eng = SYNCING ->
     sync cfg (eng, e) = (Normal (SyncResult false (Some already_syncing)), (eng, e))).
  { intros H. unfold SyncEngine.sync. simpl. now rewrite H. }
  assert (H2 : forall e1, status env eng <> SYNCING ->
     isConnected env (config_provider env cfg) e = (Normal false, e1) ->
     sync cfg (eng, e) = (Normal (SyncResult false (Some not_connected)), (eng, e1))).
  { intros e1 Hs Hc. unfold SyncEngine.sync. simpl.
    destruct (status env eng); try congruence; unfold bind, call; now rewrite Hc. }
  assert (H3 : forall e1 e2, status env eng <> SYNCING ->
     isConnected env (config_provider env cfg) e = (Normal true, e1) ->
     isFolderConfigured env (config_provider env cfg) e1 = (Normal false, e2) ->
     sync cfg (eng, e) = (Normal (SyncResult false (Some no_folder)), (eng, e2))).
  { intros e1 e2 Hs Hc Hf. unfold SyncEngine.sync. simpl.
    destruct (status env eng); try congruence;
      unfold bind at 1, call at 1; rewrite Hc; cbn [negb];
      unfold bind at 1, call at 1; now rewrite Hf. }
  split; [exact H1|]. split; [exact H2|]. split; [exact H3|].
  split; [repeat split; discriminate|].
  intros V view Kc Kf Hcase.
  assert (Hdec : status env eng = SYNCING \/ status env eng <> SYNCING)
    by (destruct (status env eng); auto; right; discriminate).
  destruct Hdec as [Hs|Hs]; [now rewrite (H1 Hs)|].
  destruct Hcase as [Hs'|[Hc|(e1 & Hc & Hf)]]; [congruence| |].
  - destruct (isConnected env (config_provider env cfg) e) as [c e1] eqn:E.
    simpl in Hc. subst c. rewrite (H2 e1 Hs eq_refl). simpl. split; [reflexivity|].
    specialize (Kc e). now rewrite E in Kc.
  - destruct (isFolderConfigured env (config_provider env cfg) e1) as [c e2] eqn:E.
    simpl in Hf. subst c. rewrite (H3 e1 e2 Hs Hc E). simpl. split; [reflexivity|].
    specialize (Kc e). specialize (Kf e1). rewrite Hc in Kc. rewrite E in Kf.
    simpl in *. congruence.
Qed.

(** *** Every path ends in [IDLE] or [ERROR], listeners permitting *)

Abbreviation triple := (SyncEngine.triple env).

Lemma triple_ret {A} (J : engine -> Prop) (a : A) (Q : A -> engine -> Prop) R :
  (forall eng, J eng -> Q a eng) -> triple J (ret env a) Q R.
Proof. intros HQ eng e H. simpl. auto. Qed.

Lemma triple_bind {A B} J (m : M A) (k : A -> M B) Q Q' R :
  triple J m Q R -> (forall a, triple (Q a) (k a) Q' R) -> triple J (bind env m k) Q' R.
Proof.
  intros Hm Hk eng e H. unfold bind. specialize (Hm eng e H).
  destruct (m (eng, e)) as [[a|x] [eng' e']]; [|exact Hm].
  apply (Hk a eng' e' Hm).
Qed.

Lemma triple_weaken {A} (J J' : engine -> Prop) (m : M A) (Q Q' : A -> engine -> Prop)
  (R R' : thrown -> engine -> Prop) :
  triple J m Q R ->
  (forall eng, J' eng -> J eng) ->
  (forall a eng, Q a eng -> Q' a eng) ->
  (forall x eng, R x eng -> R' x eng) ->
  triple J' m Q' R'.
Proof.
  intros Hm HJ HQ HR eng e H. specialize (Hm eng e (HJ _ H)).
  destruct (m (eng, e)) as [[a|x] [eng' e']]; auto.
Qed.

Lemma triple_call {A} J (c : callback env A) :
  throws_values env c ->
  triple J (call env c) (fun _ => J) (fun x eng => J eng /\ x <> JsNullish).
Proof.
  intros Hc eng e H. unfold call. destruct (c e) as [[a|x] e'] eqn:E; [exact H|].
  split; [exact H|]. intros ->. exact (Hc e e' E).
Qed.

Lemma triple_now_iso J cfg R :
  triple J (now_iso env cfg) (fun _ => J) R.
Proof. intros eng e H. exact H. Qed.

Lemma triple_set_status J s R :
  triple J (set_status env s)
    (fun _ eng' => exists eng, J eng /\ eng' = Engine env s (lastError env eng) (listeners env eng)) R.
Proof. intros eng e H. simpl. eauto. Qed.

Lemma triple_set_lastError J m R :
  triple J (set_lastError env m)
    (fun _ eng' => exists eng, J eng /\ eng' = Engine env (status env eng) m (listeners env eng)) R.
Proof. intros eng e H. simpl. eauto. Qed.

Lemma forEach_returns ls s err e :
  listeners_return env ls -> exists e', forEach env ls s err e = (Normal tt, e').
Proof.
  intros H. revert e. induction H as [|l ls Hl Hrest IH]; intros e; simpl; [eauto|].
  destruct (Hl s err e) as (a & e' & ->). apply IH.
Qed.

Lemma triple_notify (J : engine -> Prop) R :
  (forall eng, J eng -> listeners_return env (listeners env eng)) ->
  triple J (notifyStatusChange env) (fun _ => J) R.
Proof.
  intros HJ eng e H. unfold notifyStatusChange.
  destruct (forEach_returns (listeners env eng) (status env eng) (lastError env eng) e
              (HJ _ H)) as [e' ->].
  exact H.
Qed.

Abbreviation listening := (SyncEngine.listening env).

Lemma triple_attempt cfg ls :
  well_behaved env cfg -> listeners_return env ls ->
  triple (listening ls) (attempt cfg)
    (fun r eng => listening ls eng /\ status env eng = IDLE /\ success r = true)
    (fun x eng => listening ls eng /\ x <> JsNullish).
Proof.
  intros (_ & _ & Hget & Hlast & Hfetch & Hset & Hpush & Hstamp) Hls.
  unfold SyncEngine.attempt.
  eapply triple_bind; [apply triple_call, Hget|]. intros localData.
  eapply triple_bind; [apply triple_call, Hlast|]. intros lastSync.
  eapply triple_bind; [apply triple_call, Hfetch|]. intros remoteData. cbv zeta.
  eapply triple_bind; [apply triple_call, Hset|]. intros ?.
  eapply triple_bind with (Q := fun _ => listening ls).
  { destruct (hasLocalChanges _).
    - eapply triple_bind; [apply triple_now_iso|]. intros stamp. apply triple_call, Hpush.
    - apply triple_ret. auto. }
  intros ?.
  eapply triple_bind; [apply triple_now_iso|]. intros stamp.
  eapply triple_bind; [apply triple_call, Hstamp|]. intros ?.
  eapply triple_bind; [apply triple_set_status|]. intros ?.
  eapply triple_bind.
  { apply triple_notify. intros eng (eng0 & H0 & ->). simpl. now rewrite H0. }
  intros ?. apply triple_ret.
  intros eng (eng0 & H0 & ->). simpl. auto.
Qed.

Lemma triple_recover ls x :
  listeners_return env ls -> x <> JsNullish ->
  triple (listening ls) (recover env x)
    (fun r eng => listening ls eng /\ status env eng = ERROR /\ success r = false)
    (fun _ _ => False).
Proof.
  intros Hls Hx. unfold recover.
  eapply triple_bind; [apply triple_set_status|]. intros ?.
  eapply triple_bind with
    (Q := fun _ eng => listening ls eng /\ status env eng = ERROR).
  { destruct x; [| congruence |]; simpl; apply triple_ret;
      intros eng (eng0 & H0 & ->); simpl; auto. }
  intros message.
  eapply triple_bind; [apply triple_set_lastError|]. intros ?.
  eapply triple_bind.
  { apply triple_notify. intros eng (eng0 & [H0 _] & ->). simpl. now rewrite H0. }
  intros ?. apply triple_ret.
  intros eng (eng0 & [H0 H1] & ->). simpl. auto.
Qed.

Lemma triple_try_catch {A} J (m : M A) h (Q : A -> engine -> Prop) R R' :
  triple J m Q R -> (forall x, triple (R x) (h x) Q R') ->
  triple J (try_catch env m h) Q R'.
Proof.
  intros Hm Hh eng e H. unfold try_catch. specialize (Hm eng e H).
  destruct (m (eng, e)) as [[a|x] [eng' e']]; [exact Hm|].
  apply (Hh x eng' e' Hm).
Qed.

Lemma triple_assume {A} (J : engine -> Prop) (P : Prop) (m : M A) Q R :
  (P -> triple J m Q R) -> triple (fun eng => J eng /\ P) m Q R.
Proof. intros H eng e [HJ HP]. now apply H. Qed.

(** The cycle proper: from the status change to the result. *)
Lemma triple_cycle cfg ls :
  well_behaved env cfg -> listeners_return env ls ->
  triple (listening ls)
    (bind env (set_status env SYNCING) (fun _ =>
     bind env (set_lastError env None) (fun _ =>
     bind env (notifyStatusChange env) (fun _ =>
     try_catch env (attempt cfg) (recover env)))))
    (fun r eng => (status env eng = IDLE /\ success r = true)
                  \/ (status env eng = ERROR /\ success r = false))
    (fun _ _ => False).
Proof.
  intros Hcfg Hls.
  eapply triple_bind; [apply triple_set_status|]. intros ?.
  eapply triple_bind; [apply triple_set_lastError|]. intros ?.
  eapply triple_bind with (Q := fun _ => listening ls).
  { eapply triple_weaken with (J := listening ls) (R := fun _ _ => False).
    - apply triple_notify. intros eng ->. exact Hls.
    - intros eng (eng1 & (eng0 & H0 & ->) & ->). exact H0.
    - auto.
    - auto. }
  intros ?.
  eapply triple_try_catch with (R := fun x eng => listening ls eng /\ x <> JsNullish).
  - eapply triple_weaken; [apply (triple_attempt cfg ls Hcfg Hls) | auto | | auto].
    intros r eng (_ & H1 & H2). now left.
  - intros x. apply triple_assume. intros Hx.
    eapply triple_weaken; [apply (triple_recover ls x Hls Hx) | auto | | auto].
    intros r eng (_ & H1 & H2). now right.
Qed.

(** When the callbacks behave and every listener returns, [sync()] from a
    status other than [SYNCING] resolves, and the status it leaves is [IDLE]
    or [ERROR]: [IDLE] after a successful cycle. *)
Theorem sync_settles cfg (eng : engine) (e : env) :
  well_behaved env cfg -> listeners_return env (listeners env eng) ->
  status env eng <> SYNCING ->
  exists r eng' e',
    sync cfg (eng, e) = (Normal r, (eng', e')) /\
    (status env eng' = IDLE \/ status env eng' = ERROR) /\
    (success r = true -> status env eng' = IDLE).
Proof.
  intros Hcfg Hls Hs.
  pose proof Hcfg as (Hc & Hf & _).
  assert (Hst : status env eng = IDLE \/ status env eng = ERROR)
    by (destruct (status env eng); auto; congruence).
  assert (Hbody : exists r eng' e',
    bind env (call env (isConnected env (config_provider env cfg))) (fun connected =>
      if negb connected then ret env (SyncResult false (Some not_connected))
      else
        bind env (call env (isFolderConfigured env (config_provider env cfg)))
          (fun configured =>
             if negb configured then ret env (SyncResult false (Some no_folder))
             else
               bind env (set_status env SYNCING) (fun _ =>
               bind env (set_lastError env None) (fun _ =>
               bind env (notifyStatusChange env) (fun _ =>
               try_catch env (attempt cfg) (recover env)))))) (eng, e)
    = (Normal r, (eng', e')) /\
    (status env eng' = IDLE \/ status env eng' = ERROR) /\
    (success r = true -> status env eng' = IDLE)).
  { unfold bind at 1, call at 1.
    destruct (Hc e) as ([|] & e1 & ->); cbn [negb].
    2:{ eexists _, _, _. split; [reflexivity|]. split; [exact Hst | discriminate]. }
    unfold bind at 1, call at 1.
    destruct (Hf e1) as ([|] & e2 & ->); cbn [negb].
    2:{ eexists _, _, _. split; [reflexivity|]. split; [exact Hst | discriminate]. }
    pose proof (triple_cycle cfg (listeners env eng) Hcfg Hls eng e2 eq_refl) as H.
    destruct (bind env (set_status env SYNCING) _ (eng, e2)) as [[r|x] [eng' e']];
      [|contradiction].
    exists r, eng', e'. split; [reflexivity|].
    destruct H as [[H1 H2]|[H1 H2]]; split; auto. congruence. }
  unfold SyncEngine.sync. cbn [fst].
  destruct (status env eng); [exact Hbody | congruence | exact Hbody].
Qed.

(** *** A listener that throws *)

(** The first notification runs before the [try] block: when a listener
    throws there, [sync()] rejects and the status stays [SYNCING]. *)
Lemma sync_rejects_when_listener_throws cfg (eng : engine) (e e1 e2 e3 : env) x :
  status env eng <> SYNCING ->
  isConnected env (config_provider env cfg) e = (Normal true, e1) ->
  isFolderConfigured env (config_provider env cfg) e1 = (Normal true, e2) ->
  forEach env (listeners env eng) SYNCING None e2 = (Throw x, e3) ->
  sync cfg (eng, e) = (Throw x, (Engine env SYNCING None (listeners env eng), e3)).
Proof.
  intros Hs Hc Hf Hl. unfold SyncEngine.sync. cbn [fst].
  assert (Hbody :
    bind env (call env (isConnected env (config_provider env cfg))) (fun connected =>
      if negb connected then ret env (SyncResult false (Some not_connected))
      else
        bind env (call env (isFolderConfigured env (config_provider env cfg)))
          (fun configured =>
             if negb configured then ret env (SyncResult false (Some no_folder))
             else
               bind env (set_status env SYNCING) (fun _ =>
               bind env (set_lastError env None) (fun _ =>
               bind env (notifyStatusChange env) (fun _ =>
               try_catch env (attempt cfg) (recover env)))))) (eng, e)
    = (Throw x, (Engine env SYNCING None (listeners env eng), e3))).
  { unfold bind at 1, call at 1. rewrite Hc. cbn [negb].
    unfold bind at 1, call at 1. rewrite Hf. cbn [negb].
    unfold bind, set_status, set_lastError, notifyStatusChange. simpl.
    now rewrite Hl. }
  destruct (status env eng); [exact Hbody | congruence | exact Hbody].
Qed.

End EngineFacts.

Import MergeSamples SyncSamples.

(** Two devices offline: B has pushed [r2]; A, holding [r1], syncs, and the
    device and the cloud both hold [r1] and [r2]. *)
Example sync_device_a :
  SyncEngine.sync Date_parse_utc cell app (Engine cell IDLE None [quiet_listener], device_a)
  = (Normal (SyncResult true None),
     (Engine cell IDLE None [quiet_listener],
      Cell (Arr [local_r1; remote_r2]) (Arr [local_r1; remote_r2])
           (Some "2025-01-01T00:01:00Z"%string) true true)).
Proof. reflexivity. Qed.

(** C3 fails on the code.  With a status listener that throws, [sync()]
    rejects with the listener's exception: the first notification runs
    before the [try] block, and the status stays [SYNCING]; every later call
    then answers that a sync is in progress. *)
Theorem sync_listener_throws :
  SyncEngine.sync Date_parse_utc cell app
    (Engine cell IDLE None [failing_listener], device_a)
  = (Throw (JsError "render failed"),
     (Engine cell SYNCING None [failing_listener], device_a)) /\
  SyncEngine.sync Date_parse_utc cell app
    (Engine cell SYNCING None [failing_listener], device_a)
  = (Normal (SyncResult false (Some already_syncing)),
     (Engine cell SYNCING None [failing_listener], device_a)).
Proof. split; reflexivity. Qed.

Lemma sync_preconditions_witness :
  SyncEngine.sync Date_parse_utc cell app (Engine cell SYNCING None [], device_a)
  = (Normal (SyncResult false (Some already_syncing)),
     (Engine cell SYNCING None [], device_a)) /\
  SyncEngine.sync Date_parse_utc cell app (Engine cell IDLE None [], device_signed_out)
  = (Normal (SyncResult false (Some not_connected)),
     (Engine cell IDLE None [], device_signed_out)) /\
  SyncEngine.sync Date_parse_utc cell app (Engine cell ERROR None [], device_without_folder)
  = (Normal (SyncResult false (Some no_folder)),
     (Engine cell ERROR None [], device_without_folder)).
Proof.
  split; [|split].
  - apply (sync_preconditions Date_parse_utc cell app (Engine cell SYNCING None []) device_a).
    reflexivity.
  - apply (sync_preconditions Date_parse_utc cell app (Engine cell IDLE None [])
             device_signed_out); [discriminate | reflexivity].
  - apply (sync_preconditions Date_parse_utc cell app (Engine cell ERROR None [])
             device_without_folder) with (e1 := device_without_folder);
      [discriminate | reflexivity | reflexivity].
Defined.

Lemma sync_settles_witness :
  exists r eng' e',
    SyncEngine.sync Date_parse_utc cell app (Engine cell IDLE None [quiet_listener], device_a)
    = (Normal r, (eng', e')) /\
    (status cell eng' = IDLE \/ status cell eng' = ERROR) /\
    (success r = true -> status cell eng' = IDLE).
Proof.
  apply sync_settles.
  - repeat split; try (intros e; eexists _, _; reflexivity); intros ? e e'; discriminate.
  - repeat constructor. intros s err e. eexists _, _. reflexivity.
  - discriminate.
Defined.

End SyncFacts.

(** ** More on the merge ([mergeArrays], [mergeData]) *)

Module MergeMore.
Import Merge MergeTerms MergeFacts.

Section More.

Variable Date_parse : string -> option Z.

Abbreviation later := (Merge.later Date_parse).
Abbreviation merged_map := (Merge.merged_map Date_parse).
Abbreviation resolve := (Merge.resolve Date_parse).
Abbreviation mergeArrays := (Merge.mergeArrays Date_parse).
Abbreviation beaten := (MergeTerms.beaten Date_parse).

(** *** Order of the merged array *)

Lemma keys_map_set k v m :
  keys (map_set k v m) = if decide (k ∈ keys m) then keys m else keys m ++ [k].
Proof.
  destruct (decide (k ∈ keys m)) as [Hin|Hout].
  - now apply keys_set_present.
  - rewrite map_set_fresh by assumption. unfold keys. now rewrite fmap_app.
Qed.

Lemma keys_merge_remote m h r :
  keys (fst (merge_remote Date_parse (m, h) r))
  = if decide (id r ∈ keys m) then keys m else keys m ++ [id r].
Proof.
  rewrite merge_remote_eq.
  destruct (map_get (id r) m) as [l|] eqn:E.
  - assert (Hin : id r ∈ keys m).
    { apply map_get_elem in E. apply (list_elem_of_fmap_2 fst) in E. exact E. }
    destruct (decide (id r ∈ keys m)); [|contradiction].
    destruct (Merge.later Date_parse r l); [now apply keys_set_present|].
    now destruct (Merge.later Date_parse l r).
  - apply keys_map_set.
Qed.

(** Keys are appended in the order of their first arrival. *)
Lemma filter_fresh (K : list string) (k : string) (l : list string) :
  k ∉ l -> filter (fun x => x ∉ K ++ [k]) l = filter (fun x => x ∉ K) l.
Proof.
  intros Hk. induction l as [|x l IH]; [reflexivity|].
  apply not_elem_of_cons in Hk as [Hne Hk].
  rewrite !filter_cons, IH by assumption.
  destruct (decide (x ∉ K ++ [k])) as [H1|H1], (decide (x ∉ K)) as [H2|H2];
    try reflexivity; exfalso.
  - apply H2. intros H. apply H1. apply elem_of_app. now left.
  - apply H1. rewrite not_elem_of_app, list_elem_of_singleton. split; congruence.
Qed.

Lemma keys_append_fresh (step : jsmap -> item -> jsmap) :
  (forall m x, keys (step m x)
               = if decide (id x ∈ keys m) then keys m else keys m ++ [id x]) ->
  forall A m, NoDup (id <$> A) ->
    keys (fold_left step A m) = keys m ++ filter (fun k => k ∉ keys m) (id <$> A).
Proof.
  intros Hstep A. induction A as [|a A IH]; intros m Hnd; cbn [fold_left].
  - now rewrite app_nil_r.
  - rewrite fmap_cons in Hnd. apply NoDup_cons in Hnd as [Ha Hnd].
    rewrite IH by assumption. rewrite Hstep, fmap_cons, filter_cons.
    destruct (decide (id a ∈ keys m)) as [Hin|Hout].
    + destruct (decide (id a ∉ keys m)); [contradiction | reflexivity].
    + destruct (decide (id a ∉ keys m)); [|contradiction].
      rewrite filter_fresh by assumption. now rewrite <- app_assoc.
Qed.

Lemma merge_remote_fst m h h' r :
  fst (merge_remote Date_parse (m, h) r) = fst (merge_remote Date_parse (m, h') r).
Proof.
  rewrite !merge_remote_eq. destruct (map_get (id r) m) as [l|]; [|reflexivity].
  destruct (Merge.later Date_parse r l); [reflexivity|].
  now destruct (Merge.later Date_parse l r).
Qed.

Lemma merge_fold_fst B m h :
  fst (fold_left (merge_remote Date_parse) B (m, h))
  = fold_left (fun m r => fst (merge_remote Date_parse (m, false) r)) B m.
Proof.
  revert m h. induction B as [|r B IH]; intros m h; cbn [fold_left]; [reflexivity|].
  destruct (merge_remote Date_parse (m, h) r) as [m' h'] eqn:E.
  rewrite IH. f_equal. change m' with (fst (m', h')). rewrite <- E.
  apply merge_remote_fst.
Qed.

Lemma keys_seed A : NoDup (id <$> A) -> keys (seed A) = id <$> A.
Proof.
  intros Hnd. unfold seed.
  rewrite (keys_append_fresh (fun m x => map_set (id x) x m)) by
    (intros; apply keys_map_set) || assumption.
  simpl. clear Hnd. induction (id <$> A) as [|k K IH]; [reflexivity|].
  rewrite filter_cons_True by apply not_elem_of_nil. now rewrite IH.
Qed.

(** X1. For local and remote arrays with distinct ids on each side, the
    merged array lists the local ids in their local order, and after them
    the ids that only the remote array has, in their remote order. *)
Theorem mergeArrays_order (A B : list item) :
  NoDup (id <$> A) -> NoDup (id <$> B) ->
  id <$> local (mergeArrays A B)
  = (id <$> A) ++ filter (fun k => k ∉ id <$> A) (id <$> B).
Proof.
  intros HA HB.
  rewrite mergeArrays_local, keys_values by apply well_keyed_merged.
  unfold Merge.merged_map. rewrite merge_fold_fst.
  rewrite (keys_append_fresh (fun m r => fst (merge_remote Date_parse (m, false) r)))
    by (intros; apply keys_merge_remote) || assumption.
  now rewrite keys_seed.
Qed.

(** *** The flag *)

Lemma merge_flag B m h :
  NoDup (id <$> B) ->
  snd (fold_left (merge_remote Date_parse) B (m, h)) = h || existsb (beaten m) B.
Proof.
  revert m h. induction B as [|r B IH]; intros m h Hnd; cbn [fold_left existsb].
  - now rewrite orb_false_r.
  - rewrite fmap_cons in Hnd. apply NoDup_cons in Hnd as [Hr Hnd].
    destruct (merge_remote Date_parse (m, h) r) as [m' h'] eqn:E.
    rewrite IH by assumption.
    assert (Hsame : existsb (beaten m') B = existsb (beaten m) B).
    { clear IH. induction B as [|b B IHB]; [reflexivity|]. cbn [existsb].
      rewrite fmap_cons in Hr, Hnd. apply not_elem_of_cons in Hr as [Hne Hr].
      apply NoDup_cons in Hnd as [_ Hnd]. rewrite IHB by assumption. f_equal.
      unfold MergeTerms.beaten. change m' with (fst (m', h')). rewrite <- E.
      rewrite map_get_merge_remote. unfold Merge.merge_at.
      destruct (String.eqb_spec (id b) (id r)); [congruence | reflexivity]. }
    rewrite Hsame. rewrite merge_remote_eq in E.
    change (beaten m r)
      with (match map_get (id r) m with Some l => later l r | None => false end).
    destruct (map_get (id r) m) as [l|].
    + destruct (Merge.later Date_parse r l) eqn:Hrl.
      * injection E as <- <-.
        assert (Merge.later Date_parse l r = false) as -> by (apply gt_asym; exact Hrl).
        now rewrite orb_false_l.
      * destruct (Merge.later Date_parse l r); injection E as <- <-.
        -- now rewrite orb_true_r.
        -- now rewrite orb_false_l.
    + injection E as <- <-. reflexivity.
Qed.

Lemma only_local_flag B A h :
  fold_left (only_local B) A h
  = h || existsb (fun a => negb (existsb (fun r => String.eqb (id r) (id a)) B)) A.
Proof.
  revert h. induction A as [|a A IH]; intros h; cbn [fold_left existsb].
  - now rewrite orb_false_r.
  - rewrite IH. unfold only_local.
    destruct (find (fun r => String.eqb (id r) (id a)) B) as [r|] eqn:E.
    + apply find_some in E as [Hin He].
      assert (existsb (fun r => String.eqb (id r) (id a)) B = true) as ->
        by (apply existsb_exists; eauto).
      reflexivity.
    + assert (existsb (fun r => String.eqb (id r) (id a)) B = false) as ->.
      { apply not_true_is_false. intros H. apply existsb_exists in H as (r & Hr & He).
        now rewrite (find_none _ _ E r Hr) in He. }
      simpl. now rewrite orb_true_r.
Qed.

Lemma hasLocalChanges_eq A B :
  NoDup (id <$> B) ->
  hasLocalChanges (mergeArrays A B)
  = existsb (beaten (seed A)) B
    || existsb (fun a => negb (existsb (fun r => String.eqb (id r) (id a)) B)) A.
Proof.
  intros HB. unfold Merge.mergeArrays.
  pose proof (merge_flag B (seed A) false HB) as H.
  destruct (fold_left (merge_remote Date_parse) B (seed A, false)) as [m h].
  simpl in H. subst h. simpl. apply only_local_flag.
Qed.

Lemma map_get_seed_unique A l :
  NoDup (id <$> A) -> l ∈ A -> map_get (id l) (seed A) = Some l.
Proof.
  intros HA Hl. change (seed A) with (seed_from A []).
  rewrite map_get_seed_from. now apply seed_at_unique.
Qed.

Lemma map_get_seed_elem A k l :
  map_get k (seed A) = Some l -> l ∈ A /\ id l = k.
Proof.
  change (seed A) with (seed_from A []). rewrite map_get_seed_from. simpl.
  apply (seed_at_elem Date_parse).
Qed.

Lemma changes_iff (A B : list item) :
  NoDup (id <$> A) -> NoDup (id <$> B) ->
  hasLocalChanges (mergeArrays A B) = true <->
  exists l, l ∈ A /\
    (id l ∉ id <$> B \/ exists r, r ∈ B /\ id r = id l /\ later l r = true).
Proof.
  intros HA HB. rewrite hasLocalChanges_eq by assumption.
  rewrite orb_true_iff, !existsb_exists. split.
  - intros [(r & Hr & Hb)|(a & Ha & Hn)].
    + unfold MergeTerms.beaten in Hb. destruct (map_get (id r) (seed A)) as [l|] eqn:E; [|discriminate].
      apply map_get_seed_elem in E as [Hl Hid]. exists l. split; [assumption|].
      right. exists r. apply list_elem_of_In in Hr. auto.
    + exists a. apply list_elem_of_In in Ha. split; [assumption|]. left.
      apply negb_true_iff in Hn. intros Hin.
      apply list_elem_of_fmap in Hin as (r & Hid & Hr).
      assert (existsb (fun r => String.eqb (id r) (id a)) B = true); [|congruence].
      apply existsb_exists. exists r. split; [now apply list_elem_of_In|].
      rewrite Hid. apply String.eqb_refl.
  - intros (l & Hl & [Hout|(r & Hr & Hid & Hlr)]).
    + right. exists l. split; [now apply list_elem_of_In|].
      apply negb_true_iff, not_true_is_false. intros H.
      apply existsb_exists in H as (r & Hr & He). apply String.eqb_eq in He.
      apply Hout. rewrite <- He. apply list_elem_of_fmap_2. now apply list_elem_of_In.
    + left. exists r. split; [now apply list_elem_of_In|].
      unfold MergeTerms.beaten. rewrite Hid, map_get_seed_unique by assumption. exact Hlr.
Qed.

(** X2. For arrays with distinct ids on each side, [mergeArrays] reports
    local changes exactly when some local record is missing from the remote
    array or is strictly later than the remote record of the same id. *)
Theorem hasLocalChanges_iff (A B : list item) :
  NoDup (id <$> A) -> NoDup (id <$> B) ->
  hasLocalChanges (mergeArrays A B) = true <->
  exists l, l ∈ A /\
    (id l ∉ id <$> B \/ exists r, r ∈ B /\ id r = id l /\ later l r = true).
Proof. exact (changes_iff A B). Qed.

(** *** Neutral cases *)

Lemma seed_own A : NoDup (id <$> A) -> seed A = (fun x => (id x, x)) <$> A.
Proof.
  intros HA. set (m := (fun x => (id x, x)) <$> A).
  assert (Hv : map_values m = A).
  { unfold m, map_values. rewrite <- list_fmap_compose. apply list_fmap_id. }
  rewrite <- Hv at 1. apply seed_values. split.
  - unfold keys, m. rewrite <- list_fmap_compose. exact HA.
  - unfold m. apply Forall_fmap, Forall_forall. reflexivity.
Qed.

Lemma values_seed A : NoDup (id <$> A) -> map_values (seed A) = A.
Proof.
  intros HA. rewrite seed_own by assumption. unfold map_values.
  rewrite <- list_fmap_compose. apply list_fmap_id.
Qed.

Lemma merge_into_fresh B m h :
  NoDup (id <$> B) -> (forall r, r ∈ B -> id r ∉ keys m) ->
  fold_left (merge_remote Date_parse) B (m, h) = (seed_from B m, h).
Proof.
  revert m. induction B as [|r B IH]; intros m Hnd Hfresh; cbn [fold_left]; [reflexivity|].
  rewrite fmap_cons in Hnd. apply NoDup_cons in Hnd as [Hr Hnd].
  assert (Hnone : map_get (id r) m = None).
  { apply (map_get_None Date_parse), Hfresh. rewrite elem_of_cons. now left. }
  rewrite merge_remote_eq, Hnone. apply IH; [assumption|].
  intros r' Hr'. rewrite keys_map_set.
  assert (Hm : id r' ∉ keys m) by (apply Hfresh; rewrite elem_of_cons; now right).
  destruct (decide (id r ∈ keys m)); [assumption|].
  rewrite not_elem_of_app, list_elem_of_singleton. split; [assumption|].
  intros E. apply Hr. rewrite <- E. now apply list_elem_of_fmap_2.
Qed.

(** X3. Merging an array of records with distinct ids with itself gives
    the array back, in the same order, and reports no local changes. *)
Theorem mergeArrays_same (A : list item) :
  NoDup (id <$> A) -> mergeArrays A A = MergeResult A false.
Proof.
  intros HA.
  assert (Hl : local (mergeArrays A A) = A).
  { rewrite mergeArrays_local. unfold Merge.merged_map.
    rewrite merge_stable; [now apply values_seed|].
    intros r Hr. exists r. split; [now apply map_get_seed_unique | apply gt_irrefl]. }
  assert (Hh : hasLocalChanges (mergeArrays A A) = false).
  { apply not_true_is_false. rewrite changes_iff by assumption.
    intros (l & Hl' & [Hout|(r & Hr & Hid & Hlr)]).
    - apply Hout. now apply list_elem_of_fmap_2.
    - assert (r = l) as -> by eauto using NoDup_id_inj.
      unfold Merge.later in Hlr. rewrite gt_irrefl in Hlr. discriminate. }
  destruct (mergeArrays A A) as [l h]. simpl in *. congruence.
Qed.

(** X4. Against an empty remote array the local array comes back as it is,
    and local changes are reported unless it is empty too; an empty local
    array takes over the remote array and reports no local changes. *)
Theorem mergeArrays_empty_side (A : list item) :
  NoDup (id <$> A) ->
  mergeArrays A [] = MergeResult A (match A with [] => false | _ => true end) /\
  mergeArrays [] A = MergeResult A false.
Proof.
  intros HA. split.
  - assert (Hl : local (mergeArrays A []) = A)
      by (rewrite mergeArrays_local; now apply values_seed).
    assert (Hh : hasLocalChanges (mergeArrays A [])
                 = match A with [] => false | _ => true end).
    { destruct A as [|a A].
      - reflexivity.
      - apply (changes_iff (a :: A) []); [assumption | constructor|].
        exists a. split; [rewrite elem_of_cons; now left|]. left. apply not_elem_of_nil. }
    destruct (mergeArrays A []) as [l h]. simpl in *. congruence.
  - unfold Merge.mergeArrays.
    rewrite merge_into_fresh by (assumption || (intros; apply not_elem_of_nil)).
    cbn [fold_left]. f_equal. now apply values_seed.
Qed.

(** *** Two devices *)

Lemma resolve_cases k A B :
  NoDup (id <$> B) ->
  resolve k A B
  = match fold_left (seed_at k) B None with
    | None => fold_left (seed_at k) A None
    | Some r =>
        match fold_left (seed_at k) A None with
        | None => Some r
        | Some l => if later r l then Some r else Some l
        end
    end.
Proof.
  intros HB. unfold Merge.resolve.
  destruct (fold_left (seed_at k) B None) as [r|] eqn:E.
  - apply (seed_at_elem Date_parse) in E as [Hr <-].
    rewrite (merge_at_unique Date_parse) by assumption.
    unfold Merge.merge_at. now rewrite String.eqb_refl.
  - apply seed_at_None in E. now apply merge_at_skip.
Qed.

(** X5. When two records of the same id are either equal or strictly
    ordered in time, two devices that merge in opposite directions end with
    the same records: [mergeArrays A B] and [mergeArrays B A] hold the same
    elements. *)
Theorem mergeArrays_symmetric (A B : list item) :
  NoDup (id <$> A) -> NoDup (id <$> B) ->
  (forall l r, l ∈ A -> r ∈ B -> id l = id r ->
     l = r \/ later l r = true \/ later r l = true) ->
  forall x, x ∈ local (mergeArrays A B) <-> x ∈ local (mergeArrays B A).
Proof.
  intros HA HB Hties x. rewrite !elem_merged.
  enough (resolve (id x) A B = resolve (id x) B A) as -> by reflexivity.
  rewrite !resolve_cases by assumption.
  destruct (fold_left (seed_at (id x)) A None) as [l|] eqn:El,
           (fold_left (seed_at (id x)) B None) as [r|] eqn:Er; try reflexivity.
  apply (seed_at_elem Date_parse) in El as [Hl Hlid].
  apply (seed_at_elem Date_parse) in Er as [Hr Hrid].
  destruct (Hties l r Hl Hr) as [->|[H|H]]; [congruence | | |].
  - unfold Merge.later. rewrite !gt_irrefl. reflexivity.
  - rewrite H. assert (later r l = false) as -> by (apply gt_asym; exact H). reflexivity.
  - rewrite H. assert (later l r = false) as -> by (apply gt_asym; exact H). reflexivity.
Qed.

(** *** Objects without a time *)

(** X6. Two objects of which one has no [items], or a falsy one, and
    neither has an [updatedAt] are not merged: the local object is kept
    whole, whatever else the remote one holds, and no local changes are
    reported. *)
Theorem mergeData_untimed (l r : object) (lastSync : option string) :
  untimed l -> untimed r -> has_items l = false \/ has_items r = false ->
  mergeData Date_parse (Obj l) (Obj r) lastSync = MergeResult (Obj l) false.
Proof.
  unfold untimed, has_items. intros Hl Hr Hitems. unfold Merge.mergeData.
  cbn [get_items get_updatedAt]. rewrite Hl, Hr.
  assert (E : gt (getTime Date_parse None) (getTime Date_parse None) = false)
    by apply gt_irrefl.
  destruct (items l) as [li|], (items r) as [ri|]; rewrite ?E; try reflexivity.
  destruct Hitems; discriminate.
Qed.

End More.
End MergeMore.

Module MergeMoreExamples.
Import Merge MergeTerms MergeSamples MergeTermsSamples MergeMore.

Lemma device_ids : NoDup (id <$> device).
Proof. apply (bool_decide_unpack _). vm_compute. exact I. Qed.

Lemma cloud_ids : NoDup (id <$> cloud).
Proof. apply (bool_decide_unpack _). vm_compute. exact I. Qed.

Lemma mergeArrays_order_witness :
  NoDup (id <$> device) /\ NoDup (id <$> cloud) /\
  id <$> local (mergeArrays Date_parse_utc device cloud)
  = (id <$> device) ++ filter (fun k => k ∉ id <$> device) (id <$> cloud).
Proof.
  split; [exact device_ids|]. split; [exact cloud_ids|].
  exact (mergeArrays_order Date_parse_utc device cloud device_ids cloud_ids).
Defined.

Lemma hasLocalChanges_iff_witness :
  NoDup (id <$> device) /\ NoDup (id <$> cloud) /\
  (hasLocalChanges (mergeArrays Date_parse_utc device cloud) = true <->
   exists l, l ∈ device /\
     (id l ∉ id <$> cloud \/
      exists r, r ∈ cloud /\ id r = id l /\ later Date_parse_utc l r = true)).
Proof.
  split; [exact device_ids|]. split; [exact cloud_ids|].
  exact (hasLocalChanges_iff Date_parse_utc device cloud device_ids cloud_ids).
Defined.

Lemma mergeArrays_same_witness :
  NoDup (id <$> device) /\
  mergeArrays Date_parse_utc device device = MergeResult device false.
Proof.
  split; [exact device_ids|].
  exact (mergeArrays_same Date_parse_utc device device_ids).
Defined.

Lemma mergeArrays_empty_side_witness :
  NoDup (id <$> device) /\
  mergeArrays Date_parse_utc device [] = MergeResult device true /\
  mergeArrays Date_parse_utc [] device = MergeResult device false.
Proof.
  split; [exact device_ids|].
  exact (mergeArrays_empty_side Date_parse_utc device device_ids).
Defined.

Lemma device_cloud_ordered (l r : item) :
  l ∈ device -> r ∈ cloud -> id l = id r ->
  l = r \/ later Date_parse_utc l r = true \/ later Date_parse_utc r l = true.
Proof.
  unfold device, cloud. intros Hl Hr Hid.
  repeat (apply elem_of_cons in Hl as [->|Hl]); [| | |now apply elem_of_nil in Hl];
    repeat (apply elem_of_cons in Hr as [->|Hr]); try (now apply elem_of_nil in Hr);
    try (cbv in Hid; discriminate);
    first [ right; left; vm_compute; reflexivity | right; right; vm_compute; reflexivity ].
Qed.

Lemma mergeArrays_symmetric_witness :
  NoDup (id <$> device) /\ NoDup (id <$> cloud) /\
  forall x, x ∈ local (mergeArrays Date_parse_utc device cloud)
            <-> x ∈ local (mergeArrays Date_parse_utc cloud device).
Proof.
  split; [exact device_ids|]. split; [exact cloud_ids|].
  exact (mergeArrays_symmetric Date_parse_utc device cloud device_ids cloud_ids
           device_cloud_ordered).
Defined.

(** An object whose [items] is the number 5 has none of the shapes. *)
Example shape_of_scalar_items :
  shape_of (Obj (Object None {[ "items"%string := SNum 5 ]})) = None.
Proof. reflexivity. Qed.

(** The export of a device and the export another device has pushed. *)
Lemma mergeData_untimed_witness :
  untimed (export_of "2025-01-02T00:00:00Z") /\
  untimed (export_of "2025-01-03T00:00:00Z") /\
  mergeData Date_parse_utc (Obj (export_of "2025-01-02T00:00:00Z"))
            (Obj (export_of "2025-01-03T00:00:00Z")) None
  = MergeResult (Obj (export_of "2025-01-02T00:00:00Z")) false.
Proof.
  assert (H : forall t, untimed (export_of t)) by (intros t; reflexivity).
  split; [apply H|]. split; [apply H|].
  exact (mergeData_untimed Date_parse_utc _ _ None (H _) (H _) (or_introl eq_refl)).
Defined.

End MergeMoreExamples.

(** ** More on the sync engine ([sync], [notifyStatusChange]) *)

Module SyncMore.
Import Merge SyncEngine SyncTerms SyncFacts.

Section More.

Variable Date_parse : string -> option Z.
Variable env : Type.

Abbreviation M := (SyncEngine.M env).
Abbreviation sync := (SyncEngine.sync Date_parse env).
Abbreviation attempt := (SyncEngine.attempt Date_parse env).
Abbreviation engine := (SyncEngine.engine env).
Abbreviation config := (SyncEngine.config env).
Abbreviation triple := (SyncEngine.triple env).
Abbreviation listening := (SyncEngine.listening env).

(** *** What a cycle calls *)

Lemma attempt_with_push upload cfg st :
  nothing_to_push Date_parse env cfg ->
  attempt (with_push env upload cfg) st = attempt cfg st.
Proof.
  intros H. destruct st as [eng e]. unfold SyncEngine.attempt, bind, call.
  cbn [with_push with_writers getLocalData getLastSync setLocalData setLastSync
       config_provider fetch push toISOString].
  destruct (getLocalData env cfg e) as [[l|x] e1] eqn:E1; [|reflexivity].
  destruct (getLastSync env cfg e1) as [[s|x] e2] eqn:E2; [|reflexivity].
  destruct (fetch env (config_provider env cfg) e2) as [[r|x] e3] eqn:E3; [|reflexivity].
  rewrite (H _ _ _ _ _ _ _ E1 E2 E3). reflexivity.
Qed.

Lemma bind_ext {A B} (m : M A) (k k' : A -> M B) st :
  (forall a st', k a st' = k' a st') -> bind env m k st = bind env m k' st.
Proof. intros H. unfold bind. destruct (m st) as [[a|x] st']; [apply H | reflexivity]. Qed.

Lemma sync_same_attempt cfg cfg' :
  isConnected env (config_provider env cfg') = isConnected env (config_provider env cfg) ->
  isFolderConfigured env (config_provider env cfg')
  = isFolderConfigured env (config_provider env cfg) ->
  (forall st, attempt cfg' st = attempt cfg st) ->
  forall st, sync cfg' st = sync cfg st.
Proof.
  intros Hc Hf Ha [eng e]. unfold SyncEngine.sync. cbn [fst]. rewrite Hc, Hf.
  assert (Hbody : forall st0,
    bind env (call env (isConnected env (config_provider env cfg))) (fun connected =>
      if negb connected then ret env (SyncResult false (Some not_connected))
      else
        bind env (call env (isFolderConfigured env (config_provider env cfg)))
          (fun configured =>
             if negb configured then ret env (SyncResult false (Some no_folder))
             else
               bind env (set_status env SYNCING) (fun _ =>
               bind env (set_lastError env None) (fun _ =>
               bind env (notifyStatusChange env) (fun _ =>
               try_catch env (attempt cfg') (recover env)))))) st0
    = bind env (call env (isConnected env (config_provider env cfg))) (fun connected =>
      if negb connected then ret env (SyncResult false (Some not_connected))
      else
        bind env (call env (isFolderConfigured env (config_provider env cfg)))
          (fun configured =>
             if negb configured then ret env (SyncResult false (Some no_folder))
             else
               bind env (set_status env SYNCING) (fun _ =>
               bind env (set_lastError env None) (fun _ =>
               bind env (notifyStatusChange env) (fun _ =>
               try_catch env (attempt cfg) (recover env)))))) st0).
  { intros st0. apply bind_ext. intros [|] st1; cbn [negb]; [|reflexivity].
    apply bind_ext. intros [|] st2; cbn [negb]; [|reflexivity].
    apply bind_ext. intros _ st3. apply bind_ext. intros _ st4.
    apply bind_ext. intros _ st5. unfold try_catch. now rewrite Ha. }
  destruct (status env eng); [apply Hbody | reflexivity | apply Hbody].
Qed.

(** X7. While the merge of what the callbacks return reports no local
    changes, [sync()] does not call [provider.push]: with any other [push]
    in its place it ends with the same result in the same state. *)
Theorem sync_pushes_only_changes (cfg : config) upload (st : engine * env) :
  nothing_to_push Date_parse env cfg ->
  sync (with_push env upload cfg) st = sync cfg st.
Proof.
  intros H. apply sync_same_attempt; [reflexivity | reflexivity |].
  intros st'. now apply attempt_with_push.
Qed.

(** X8. While [provider.fetch] rejects, [sync()] calls none of
    [setLocalData], [provider.push] and [setLastSync]: with any other three
    in their place it ends with the same result in the same state. *)
Theorem sync_failed_fetch_writes_nothing (cfg : config) save upload stamp
  (st : engine * env) :
  fetch_fails env cfg ->
  sync (with_writers env save upload stamp cfg) st = sync cfg st.
Proof.
  intros H. apply sync_same_attempt; [reflexivity | reflexivity |].
  intros [eng e]. unfold SyncEngine.attempt, bind, call.
  cbn [with_writers getLocalData getLastSync setLocalData setLastSync
       config_provider fetch push toISOString].
  destruct (getLocalData env cfg e) as [[l|x] e1]; [|reflexivity].
  destruct (getLastSync env cfg e1) as [[s|x] e2]; [|reflexivity].
  destruct (H e2) as (x & e3 & ->). reflexivity.
Qed.

(** *** Listeners *)

Lemma forEach_app ls ls' s err e :
  forEach env (ls ++ ls') s err e
  = match forEach env ls s err e with
    | (Normal _, e') => forEach env ls' s err e'
    | (Throw x, e') => (Throw x, e')
    end.
Proof.
  revert e. induction ls as [|l ls IH]; intros e; [reflexivity|].
  cbn [app forEach]. destruct (l s err e) as [[[]|x] e']; [apply IH | reflexivity].
Qed.

(** X9. [notifyStatusChange] calls the listeners in the order of their
    registration and stops at the first that throws: the listeners after it
    are not called, and the notification throws what that listener threw. *)
Theorem notify_stops_at_throw (eng : engine) (e e1 e2 : env) ls l ls' x :
  listeners env eng = ls ++ l :: ls' ->
  forEach env ls (status env eng) (lastError env eng) e = (Normal tt, e1) ->
  l (status env eng) (lastError env eng) e1 = (Throw x, e2) ->
  notifyStatusChange env (eng, e) = (Throw x, (eng, e2)).
Proof.
  intros Hls Hbefore Hl. unfold notifyStatusChange.
  rewrite Hls, forEach_app, Hbefore. cbn [forEach]. now rewrite Hl.
Qed.

(** *** The result and the state agree *)

Lemma triple_attempt_quiet cfg ls :
  well_behaved env cfg -> listeners_return env ls ->
  triple (fun eng => listening ls eng /\ lastError env eng = None) (attempt cfg)
    (fun r eng => listening ls eng /\ status env eng = IDLE /\ lastError env eng = None
                  /\ r = SyncResult true None)
    (fun x eng => listening ls eng /\ x <> JsNullish).
Proof.
  intros (_ & _ & Hget & Hlast & Hfetch & Hset & Hpush & Hstamp) Hls.
  set (J := fun eng : engine => listening ls eng /\ lastError env eng = None).
  assert (Hcall : forall A (c : callback env A), throws_values env c ->
            triple J (call env c) (fun _ => J) (fun x eng => listening ls eng /\ x <> JsNullish)).
  { intros A c Hc. eapply (triple_weaken env); [apply (triple_call env J), Hc | auto | auto |].
    intros x eng [[H _] Hx]. auto. }
  unfold SyncEngine.attempt.
  eapply (triple_bind env); [apply Hcall, Hget|]. intros localData.
  eapply (triple_bind env); [apply Hcall, Hlast|]. intros lastSync.
  eapply (triple_bind env); [apply Hcall, Hfetch|]. intros remoteData. cbv zeta.
  eapply (triple_bind env); [apply Hcall, Hset|]. intros ?.
  eapply (triple_bind env) with (Q := fun _ => J).
  { destruct (hasLocalChanges _).
    - eapply (triple_bind env); [apply triple_now_iso|]. intros stamp. apply Hcall, Hpush.
    - apply triple_ret. auto. }
  intros ?.
  eapply (triple_bind env); [apply triple_now_iso|]. intros stamp.
  eapply (triple_bind env); [apply Hcall, Hstamp|]. intros ?.
  eapply (triple_bind env); [apply triple_set_status|]. intros ?.
  eapply (triple_bind env).
  { apply triple_notify. intros eng (eng0 & [H0 _] & ->). simpl. now rewrite H0. }
  intros ?. apply triple_ret.
  intros eng (eng0 & [H0 H1] & ->). simpl. auto.
Qed.

Lemma triple_recover_error ls x :
  listeners_return env ls -> x <> JsNullish ->
  triple (listening ls) (recover env x)
    (fun r eng => listening ls eng /\ status env eng = ERROR /\ success r = false
                  /\ lastError env eng = error r)
    (fun _ _ => False).
Proof.
  intros Hls Hx. unfold recover.
  eapply (triple_bind env); [apply triple_set_status|]. intros ?.
  eapply (triple_bind env) with
    (Q := fun _ eng => listening ls eng /\ status env eng = ERROR).
  { destruct x; [| congruence |]; simpl; apply triple_ret;
      intros eng (eng0 & H0 & ->); simpl; auto. }
  intros message.
  eapply (triple_bind env); [apply triple_set_lastError|]. intros ?.
  eapply (triple_bind env).
  { apply triple_notify. intros eng (eng0 & [H0 _] & ->). simpl. now rewrite H0. }
  intros ?. apply triple_ret.
  intros eng (eng0 & [H0 H1] & ->). simpl. auto.
Qed.

Lemma triple_cycle_agrees cfg ls :
  well_behaved env cfg -> listeners_return env ls ->
  triple (listening ls)
    (bind env (set_status env SYNCING) (fun _ =>
     bind env (set_lastError env None) (fun _ =>
     bind env (notifyStatusChange env) (fun _ =>
     try_catch env (attempt cfg) (recover env)))))
    (fun r eng =>
       listening ls eng /\
       ((status env eng = IDLE /\ lastError env eng = None /\ r = SyncResult true None)
        \/ (status env eng = ERROR /\ success r = false /\ lastError env eng = error r)))
    (fun _ _ => False).
Proof.
  intros Hcfg Hls.
  eapply (triple_bind env); [apply triple_set_status|]. intros ?.
  eapply (triple_bind env); [apply triple_set_lastError|]. intros ?.
  eapply (triple_bind env)
    with (Q := fun _ eng => listening ls eng /\ lastError env eng = None).
  { eapply (triple_weaken env)
      with (J := fun eng => listening ls eng /\ lastError env eng = None)
           (R := fun _ _ => False).
    - apply triple_notify. intros eng [-> _]. exact Hls.
    - intros eng (eng1 & (eng0 & H0 & ->) & ->). split; [exact H0 | reflexivity].
    - auto.
    - auto. }
  intros ?.
  eapply (triple_try_catch env) with (R := fun x eng => listening ls eng /\ x <> JsNullish).
  - eapply (triple_weaken env); [apply (triple_attempt_quiet cfg ls Hcfg Hls) | auto | | auto].
    intros r eng (H0 & H1 & H2 & H3). split; [exact H0|]. left. auto.
  - intros x. apply triple_assume. intros Hx.
    eapply (triple_weaken env); [apply (triple_recover_error ls x Hls Hx) | auto | | auto].
    intros r eng (H0 & H1 & H2 & H3). split; [exact H0|]. right. auto.
Qed.


End More.
End SyncMore.

Module SyncMoreExamples.
Import Merge MergeSamples SyncEngine SyncSamples SyncTerms SyncTermsSamples SyncMore.

Lemma sync_pushes_only_changes_witness :
  nothing_to_push Date_parse_utc cell journal /\
  SyncEngine.sync Date_parse_utc cell (with_push cell no_upload journal)
    (Engine cell IDLE None [quiet_listener], device_a)
  = SyncEngine.sync Date_parse_utc cell journal
      (Engine cell IDLE None [quiet_listener], device_a).
Proof.
  assert (H : nothing_to_push Date_parse_utc cell journal)
    by (intros e l e1 s e2 r e3 [= <- <-] [= <- <-] [= <- <-]; reflexivity).
  split; [exact H|].
  exact (sync_pushes_only_changes Date_parse_utc cell journal no_upload _ H).
Defined.

Lemma sync_failed_fetch_writes_nothing_witness :
  fetch_fails cell offline /\
  SyncEngine.sync Date_parse_utc cell (with_writers cell no_save no_upload no_stamp offline)
    (Engine cell IDLE None [quiet_listener], device_a)
  = SyncEngine.sync Date_parse_utc cell offline
      (Engine cell IDLE None [quiet_listener], device_a).
Proof.
  assert (H : fetch_fails cell offline) by (intros e; eexists _, _; reflexivity).
  split; [exact H|].
  exact (sync_failed_fetch_writes_nothing Date_parse_utc cell offline
           no_save no_upload no_stamp _ H).
Defined.

(** The second of three listeners fails: the third is not told. *)
Lemma notify_stops_at_throw_witness :
  notifyStatusChange cell
    (Engine cell SYNCING None [quiet_listener; failing_listener; quiet_listener], device_a)
  = (Throw (JsError "render failed"),
     (Engine cell SYNCING None [quiet_listener; failing_listener; quiet_listener], device_a)).
Proof.
  apply (notify_stops_at_throw cell _ device_a device_a device_a
           [quiet_listener] failing_listener [quiet_listener]); reflexivity.
Defined.


End SyncMoreExamples.

(** ** More on the OAuth2 handler *)

Module OAuthMore.
Import OAuth OAuthFlow OAuthFacts.

(** *** Random strings *)

Lemma get_In i s c : String.get i s = Some c -> In c (list_ascii_of_string s).
Proof.
  revert i. induction s as [|a s IH]; intros i; [discriminate|].
  destruct i as [|i]; simpl.
  - intros [= ->]. now left.
  - intros H. right. eauto.
Qed.

Lemma get_lt i s : (i < String.length s)%nat -> exists c, String.get i s = Some c.
Proof.
  revert i. induction s as [|a s IH]; intros i; simpl; [lia|].
  destruct i as [|i]; [eauto|]. intros H. apply IH. lia.
Qed.

Lemma charAt_byte (v : Byte.byte) :
  exists c, charAt (N.to_nat (Byte.to_N v mod N.of_nat (String.length charset)))
            = String c EmptyString
            /\ In c (list_ascii_of_string charset).
Proof.
  set (i := N.to_nat _).
  assert (Hi : (i < String.length charset)%nat).
  { subst i. pose proof (N.mod_lt (Byte.to_N v) (N.of_nat (String.length charset))) as H.
    specialize (H ltac:(discriminate)). lia. }
  destruct (get_lt i charset Hi) as [c Hc]. exists c. unfold charAt. rewrite Hc.
  split; [reflexivity | exact (get_In _ _ _ Hc)].
Qed.

Lemma concat_chars (f : Byte.byte -> string) (vs : list Byte.byte) (P : ascii -> Prop) :
  (forall v, exists c, f v = String c EmptyString /\ P c) ->
  String.length (String.concat "" (map f vs)) = length vs /\
  Forall P (list_ascii_of_string (String.concat "" (map f vs))).
Proof.
  intros Hf. induction vs as [|v vs [IH1 IH2]]; [split; [reflexivity | constructor]|].
  destruct (Hf v) as (c & Hc & HP).
  assert (E : String.concat "" (map f (v :: vs)) = String c (String.concat "" (map f vs))).
  { cbn [map]. rewrite Hc. destruct vs as [|v' vs]; reflexivity. }
  rewrite E. split; [simpl; now rewrite IH1 | simpl; now constructor].
Qed.

Lemma generateRandomString_length n p :
  String.length (fst (generateRandomString n p)) = n.
Proof.
  unfold generateRandomString, getRandomValues. cbn [fst].
  destruct (concat_chars
              (fun v => charAt (N.to_nat (Byte.to_N v mod N.of_nat (String.length charset))))
              (map (entropy p) (seq (drawn p) n))
              (fun c => In c (list_ascii_of_string charset)) charAt_byte) as [H _].
  now rewrite H, length_map, length_seq.
Qed.


(** X12. The 256 values of a byte do not spread evenly over the 66
    characters: each of the first 58 characters of the charset is drawn for
    four byte values, each of the last eight for three. *)
Theorem generateRandomString_bias (i : nat) :
  (i < String.length charset)%nat ->
  length (drawing i) = if (i <? 58)%nat then 4%nat else 3%nat.
Proof.
  intros Hi.
  assert (H : forallb (fun i => Nat.eqb (length (drawing i))
                                        (if (i <? 58)%nat then 4%nat else 3%nat))
                      (seq 0 (String.length charset)) = true)
    by (vm_compute; reflexivity).
  rewrite forallb_forall in H. apply Nat.eqb_eq, H, in_seq. lia.
Qed.

(** *** Tokens *)

Lemma finite_lifetime (n : Z) : Z.abs n <= 10 ^ 300 -> finite (n * 1000) = true.
Proof.
  intros H. unfold finite. apply Z.ltb_lt.
  assert (Hbound : 10 ^ 300 * 1000 < 2 ^ 1024 - 2 ^ 970) by (vm_compute; reflexivity).
  rewrite Z.abs_mul. change (Z.abs 1000) with 1000.
  set (K := 10 ^ 300) in *. set (T := 2 ^ 1024 - 2 ^ 970) in *. lia.
Qed.

Lemma infinite_lifetime (n : Z) : 10 ^ 306 <= Z.abs n -> finite (n * 1000) = false.
Proof.
  intros H. unfold finite. apply Z.ltb_ge.
  assert (Hbound : 2 ^ 1024 - 2 ^ 970 <= 10 ^ 306 * 1000) by (vm_compute; discriminate).
  rewrite Z.abs_mul. change (Z.abs 1000) with 1000.
  set (K := 10 ^ 306) in *. set (T := 2 ^ 1024 - 2 ^ 970) in *. lia.
Qed.

(** X13. A token that [saveToken] has stored is what [getToken] returns at
    every time up to five minutes before the end of its lifetime
    ([expires_in] seconds, 3600 when that is missing or zero), that instant
    included, and null from then on; this for times that a [Date] holds and
    a lifetime of at most 1e300 seconds.  A lifetime of 1e306 seconds or
    more is not finite in milliseconds: the expiry is stored as null, and
    [getToken] returns null at every time from 1970 on. *)
Theorem getToken_after_saveToken (provider : string) (token : token_body) (w : world) (t : Z) :
  (time_value (now w) -> time_value t -> Z.abs (lifetime token) <= 10 ^ 300 ->
   fst (getToken provider (at_time t (saveToken provider token w)))
   = if t <=? now w + lifetime token * 1000 - 5 * 60 * 1000
     then Some (access_token token) else None) /\
  (10 ^ 306 <= Z.abs (lifetime token) -> 0 <= t ->
   fst (getToken provider (at_time t (saveToken provider token w))) = None).
Proof.
  unfold getToken, at_time, saveToken. fold (lifetime token). cbn [tokens set_tokens now].
  rewrite lookup_insert_eq. cbn [expiry accessToken refreshToken]. split.
  - intros _ _ Hlife. rewrite (finite_lifetime _ Hlife).
    destruct (Z.ltb_spec (now w + lifetime token * 1000 - 5 * 60 * 1000) t),
             (Z.leb_spec t (now w + lifetime token * 1000 - 5 * 60 * 1000)); try lia.
    + now destruct (truthy_str (refresh_token token)).
    + reflexivity.
  - intros Hlife Ht. rewrite (infinite_lifetime _ Hlife).
    destruct (Z.ltb_spec (0 - 5 * 60 * 1000) t); [|lia].
    now destruct (truthy_str (refresh_token token)).
Qed.

Section HandlerMore.

Variable token_endpoint : token_request -> exchange_result.

Abbreviation handleCallback := (OAuth.handleCallback token_endpoint).

Lemma live_session_logout provider w : live_session provider (logout provider w) = None.
Proof. unfold live_session, logout. simpl. now rewrite lookup_delete_eq. Qed.

Lemma handleCallback_without_session provider clientId redirectUri clientSecret w :
  live_session provider w = None ->
  exists e, fst (handleCallback provider clientId redirectUri clientSecret w) = Throw e.
Proof.
  intros Hlive. destruct (OAUTH_CONFIG provider) as [url|] eqn:Hcfg.
  - rewrite (handleCallback_cases token_endpoint _ _ _ _ _ _ Hcfg). cbv beta.
    destruct (truthy_str (URLSearchParams_get "error" (search w))); [eauto|].
    destruct (negb _ || negb _); [eauto|]. rewrite Hlive. eauto.
  - rewrite (handleCallback_unknown_provider token_endpoint) by assumption. eauto.
Qed.

(** X14. After [logout(provider)] the provider has no token
    ([getToken] returns null and changes nothing) and no saved session, so
    that a callback of a sign-in that was under way fails; the tokens and
    sessions of every other provider are as before. *)
Theorem logout_forgets_provider (provider clientId redirectUri : string)
  (clientSecret : option string) (w : world) :
  getToken provider (logout provider w) = (None, logout provider w) /\
  getOAuthState provider (logout provider w) = (None, logout provider w) /\
  (exists e, fst (handleCallback provider clientId redirectUri clientSecret
                    (logout provider w)) = Throw e) /\
  (forall other, other <> provider ->
     tokens (logout provider w) !! other = tokens w !! other /\
     sessions (logout provider w) !! other = sessions w !! other).
Proof.
  split; [|split; [|split]].
  - unfold getToken, logout. simpl. now rewrite lookup_delete_eq.
  - unfold getOAuthState, logout. simpl. now rewrite lookup_delete_eq.
  - apply handleCallback_without_session, live_session_logout.
  - intros other Hne. unfold logout. simpl. now rewrite !lookup_delete_ne by congruence.
Qed.

(** *** Callbacks *)

Lemma has_of_get name q :
  is_Some (URLSearchParams_get name q) -> URLSearchParams_has name q = true.
Proof.
  unfold URLSearchParams_has.
  induction q as [|[n v] q IH]; simpl; [intros [? [=]]|].
  destruct (String.eqb n name); [reflexivity | exact IH].
Qed.

Lemma truthy_str_is_Some v : truthy_str v = true -> is_Some v.
Proof. destruct v; [eauto | discriminate]. Qed.

(** X15. A callback that succeeds was announced by [hasOAuthCallback()];
    it clears the query, so that [hasOAuthCallback()] is false afterwards,
    and handling the callback once more fails with the missing-parameter
    error and changes nothing. *)
Theorem handleCallback_once (provider clientId redirectUri : string)
  (clientSecret : option string) (w w' : world) :
  handleCallback provider clientId redirectUri clientSecret w = (Normal true, w') ->
  hasOAuthCallback w = true /\
  hasOAuthCallback w' = false /\
  handleCallback provider clientId redirectUri clientSecret w'
  = (Throw (JsError "Missing code or state parameter"), w').
Proof.
  intros H. destruct (OAUTH_CONFIG provider) as [url|] eqn:Hcfg.
  2:{ rewrite (handleCallback_unknown_provider token_endpoint) in H by assumption.
      discriminate. }
  rewrite (handleCallback_cases token_endpoint _ _ _ _ _ _ Hcfg) in H. cbv beta in H.
  destruct (truthy_str (URLSearchParams_get "error" (search w))); [discriminate|].
  destruct (truthy_str (URLSearchParams_get "code" (search w))) eqn:Hc; [|discriminate].
  destruct (truthy_str (URLSearchParams_get "state" (search w))) eqn:Hs; [|discriminate].
  simpl in H.
  destruct (live_session provider w) as [s|]; [|discriminate].
  destruct (negb _); [discriminate|].
  destruct (OAuth.exchange_of _ _ _ _ _ _ _) as [e|d e|token]; try discriminate.
  injection H as <-.
  split; [|split].
  - unfold hasOAuthCallback.
    now rewrite !has_of_get by (apply truthy_str_is_Some; assumption).
  - reflexivity.
  - rewrite (handleCallback_cases token_endpoint _ _ _ _ _ _ Hcfg). reflexivity.
Qed.

(** X16. A callback that fails stores no token and leaves the query as it
    is: the tokens of every provider, the query string and the clock are
    what they were.  (Only a session older than ten minutes may go.) *)
Theorem handleCallback_failure_keeps_tokens (provider clientId redirectUri : string)
  (clientSecret : option string) (w w' : world) (e : thrown) :
  handleCallback provider clientId redirectUri clientSecret w = (Throw e, w') ->
  tokens w' = tokens w /\ search w' = search w /\ now w' = now w /\
  (forall other, other <> provider -> sessions w' !! other = sessions w !! other).
Proof.
  intros H. destruct (OAUTH_CONFIG provider) as [url|] eqn:Hcfg.
  2:{ rewrite (handleCallback_unknown_provider token_endpoint) in H by assumption.
      injection H as _ <-. auto. }
  rewrite (handleCallback_cases token_endpoint _ _ _ _ _ _ Hcfg) in H. cbv beta in H.
  destruct (truthy_str (URLSearchParams_get "error" (search w)));
    [injection H as _ <-; auto|].
  destruct (negb _ || negb _); [injection H as _ <-; auto|].
  destruct (live_session provider w) as [s|].
  - destruct (negb _); [injection H as _ <-; auto|].
    destruct (OAuth.exchange_of _ _ _ _ _ _ _) as [x|d x|token];
      [injection H as _ <-; auto | injection H as _ <-; auto | discriminate].
  - injection H as _ <-.
    destruct (getOAuthState_keeps provider w) as (H1 & H2 & H3).
    repeat split; try assumption.
    intros other Hne. unfold getOAuthState.
    destruct (sessions w !! provider) as [s|]; [|reflexivity].
    destruct (_ <? _); [|reflexivity]. simpl. now rewrite lookup_delete_ne by congruence.
Qed.

End HandlerMore.

(** *** From [startAuth] to the callback *)

Section FlowMore.

Variable S256 : string -> string.
Variable URLSearchParams_toString : list (string * string) -> string.
Variable token_endpoint : token_request -> exchange_result.

Abbreviation startAuth := (OAuthFlow.startAuth S256 URLSearchParams_toString).

Lemma nonempty_length (s : string) : String.length s <> 0%nat -> String.eqb s "" = false.
Proof. destruct s; [contradiction | reflexivity]. Qed.

Lemma startAuth_known provider u clientId scopes redirectUri p :
  authUrl provider = Some u ->
  startAuth provider clientId scopes redirectUri p
  = (Normal tt,
     Page (saveOAuthState provider (drawn_state p) (drawn_verifier p) (store p))
          (entropy p) (drawn p + 64 + 32)
          (Some (u +:+ "?" +:+ URLSearchParams_toString
                   (auth_params clientId scopes redirectUri (drawn_state p)
                      (S256 (drawn_verifier p)))))).
Proof.
  intros Hu. unfold OAuthFlow.startAuth, generatePKCE, drawn_state, drawn_verifier.
  rewrite Hu. reflexivity.
Qed.

(** X17. [startAuth] for a configured provider saves a session, sends the
    window to the authorisation page with the state and the challenge of the
    verifier it drew, and a callback that comes back within ten minutes with
    a code and that state is accepted: the code is exchanged together with
    that very verifier, and when the exchange is granted the callback
    returns true, stores the token and removes the session. *)
Theorem startAuth_then_handleCallback (provider u url clientId redirectUri : string)
  (scopes : list string) (clientSecret : option string) (p : page)
  (q : list (string * string)) (c : string) (t : Z) (token : token_body) :
  authUrl provider = Some u -> OAUTH_CONFIG provider = Some url ->
  URLSearchParams_get "error" q = None ->
  URLSearchParams_get "code" q = Some c -> c <> ""%string ->
  URLSearchParams_get "state" q = Some (drawn_state p) ->
  t - now (store p) <= 10 * 60 * 1000 ->
  token_endpoint
    (TokenRequest url clientId c redirectUri "authorization_code" (drawn_verifier p)
                  (if truthy_str clientSecret then clientSecret else None))
  = ExchangeGranted token ->
  exists p1,
    startAuth provider clientId scopes redirectUri p = (Normal tt, p1) /\
    href p1 = Some (u +:+ "?" +:+ URLSearchParams_toString
                      (auth_params clientId scopes redirectUri (drawn_state p)
                         (S256 (drawn_verifier p)))) /\
    let w := at_time t (set_search q (store p1)) in
    OAuth.handleCallback token_endpoint provider clientId redirectUri clientSecret w
    = (Normal true,
       set_search [] (set_sessions (delete provider) (saveToken provider token w))).
Proof.
  intros Hu Hurl Herr Hcode Hc Hstate Ht Hgrant.
  eexists. split; [apply (startAuth_known _ _ _ _ _ _ Hu)|]. split; [reflexivity|].
  cbv zeta. rewrite (handleCallback_cases token_endpoint _ _ _ _ _ _ Hurl). cbv beta.
  cbn [store at_time set_search search]. rewrite Herr, Hcode, Hstate.
  assert (Hcne : String.eqb c "" = false) by (now apply String.eqb_neq).
  assert (Hsne : String.eqb (drawn_state p) "" = false).
  { apply nonempty_length. unfold drawn_state. now rewrite generateRandomString_length. }
  cbn [truthy_str]. rewrite Hcne, Hsne. cbn [negb orb].
  set (w := at_time t (set_search q
              (saveOAuthState provider (drawn_state p) (drawn_verifier p) (store p)))).
  assert (Hses : sessions w !! provider
                 = Some (Session (drawn_state p) (drawn_verifier p) (now (store p))))
    by apply lookup_insert_eq.
  assert (Hnow : now w = t) by reflexivity.
  assert (Hq : search w = q) by reflexivity.
  unfold live_session. rewrite Hses, Hnow. cbn [timestamp].
  destruct (Z.ltb_spec (10 * 60 * 1000) (t - now (store p))); [lia|].
  cbn [state default]. rewrite String.eqb_refl. cbn [negb].
  unfold OAuth.exchange_of, exchange_request. rewrite Hurl, Hq, Hcode.
  cbn [default verifier]. unfold id. rewrite Hgrant. reflexivity.
Qed.

End FlowMore.

End OAuthMore.

Module OAuthMoreExamples.
Import OAuth OAuthSamples OAuthFlow OAuthFlowSamples OAuthMore.

Lemma generateRandomString_bias_witness :
  (60 < String.length charset)%nat /\ length (drawing 60) = 3%nat.
Proof.
  assert (H : (60 < String.length charset)%nat) by (cbv; lia).
  split; [exact H|]. exact (generateRandomString_bias 60 H).
Defined.

(** A token granted for 300 seconds is returned at the instant of saving
    and not a millisecond later; one granted for 299 seconds is not returned
    at all. *)
Lemma getToken_after_saveToken_witness :
  let w := World ∅ ∅ 1000 [] in
  fst (getToken "google" (at_time 1000 (saveToken "google" (TokenBody "ya29.a" None (Some 300)) w)))
  = Some "ya29.a"%string /\
  fst (getToken "google" (at_time 1001 (saveToken "google" (TokenBody "ya29.a" None (Some 300)) w)))
  = None /\
  fst (getToken "google" (at_time 1000 (saveToken "google" (TokenBody "ya29.a" None (Some 299)) w)))
  = None /\
  fst (getToken "google"
         (at_time 1000 (saveToken "google" (TokenBody "ya29.a" None (Some (10 ^ 308))) w)))
  = None.
Proof.
  intros w.
  assert (Hnow : time_value (now w)) by (unfold time_value; simpl; lia).
  assert (Ht : forall t, 0 <= t <= 1001 -> time_value t) by (unfold time_value; lia).
  assert (Hlife : forall n, 0 <= n <= 300 -> Z.abs n <= 10 ^ 300).
  { intros n Hn. assert (300 <= 10 ^ 300) by (vm_compute; discriminate).
    set (K := 10 ^ 300) in *. lia. }
  destruct (getToken_after_saveToken "google" (TokenBody "ya29.a" None (Some 300)) w 1000)
    as [H1 _].
  destruct (getToken_after_saveToken "google" (TokenBody "ya29.a" None (Some 300)) w 1001)
    as [H2 _].
  destruct (getToken_after_saveToken "google" (TokenBody "ya29.a" None (Some 299)) w 1000)
    as [H3 _].
  destruct (getToken_after_saveToken "google" (TokenBody "ya29.a" None (Some (10 ^ 308))) w 1000)
    as [_ H4].
  split; [|split; [|split]].
  - rewrite H1; [reflexivity | exact Hnow | apply Ht; lia | apply Hlife; unfold lifetime; simpl; lia].
  - rewrite H2; [reflexivity | exact Hnow | apply Ht; lia | apply Hlife; unfold lifetime; simpl; lia].
  - rewrite H3; [reflexivity | exact Hnow | apply Ht; lia | apply Hlife; unfold lifetime; simpl; lia].
  - apply H4; [|lia]. vm_compute. discriminate.
Defined.

Lemma handleCallback_once_witness :
  let w' := World ∅ {[ "google"%string := TokenRecord "ya29.sample" None 3602000 ]} 3000 [] in
  hasOAuthCallback callback_page = true /\
  hasOAuthCallback w' = false /\
  OAuth.handleCallback granting "google" "client" "https://app/cb" None w'
  = (Throw (JsError "Missing code or state parameter"), w').
Proof.
  exact (handleCallback_once granting "google" "client" "https://app/cb" None
           callback_page _ eq_refl).
Defined.

(** A callback without a saved session, while a token of an earlier sign-in
    is stored. *)
Lemma handleCallback_failure_keeps_tokens_witness :
  let w := World ∅ {[ "google"%string := TokenRecord "ya29.sample" None 3602000 ]} 3000
                 [("code", "4/abc"); ("state", "st-41")]%string in
  exists w',
    OAuth.handleCallback granting "google" "client" "https://app/cb" None w
    = (Throw (JsError "Invalid state parameter"), w') /\
    tokens w' = tokens w /\ search w' = search w /\ now w' = now w /\
    (forall other, other <> "google"%string -> sessions w' !! other = sessions w !! other).
Proof.
  intros w. eexists. split; [reflexivity|].
  exact (handleCallback_failure_keeps_tokens granting "google" "client" "https://app/cb"
           None w _ _ eq_refl).
Defined.

(** The redirect comes back four seconds after [startAuth]. *)
Lemma startAuth_then_handleCallback_witness :
  exists p1,
    startAuth digest urlencoded "google" "client" ["https://www.googleapis.com/auth/drive.file"]
              "https://app/cb" landing = (Normal tt, p1) /\
    href p1 = Some ("https://accounts.google.com/o/oauth2/v2/auth" +:+ "?" +:+ urlencoded
                      (auth_params "client" ["https://www.googleapis.com/auth/drive.file"]
                         "https://app/cb" (drawn_state landing)
                         (digest (drawn_verifier landing)))) /\
    let w := at_time 5000
               (set_search [("code", "4/abc"); ("state", drawn_state landing)]%string
                           (store p1)) in
    OAuth.handleCallback granting "google" "client" "https://app/cb" None w
    = (Normal true,
       set_search [] (set_sessions (delete "google"%string)
                        (saveToken "google" (TokenBody "ya29.sample" None (Some 3599)) w))).
Proof.
  apply (startAuth_then_handleCallback digest urlencoded granting
           "google" "https://accounts.google.com/o/oauth2/v2/auth"
           "https://oauth2.googleapis.com/token" "client" "https://app/cb"
           ["https://www.googleapis.com/auth/drive.file"%string] None landing
           [("code", "4/abc"); ("state", drawn_state landing)]%string "4/abc" 5000
           (TokenBody "ya29.sample" None (Some 3599)));
    try reflexivity.
  - discriminate.
  - simpl. lia.
Defined.

End OAuthMoreExamples.

(** ** More on the Google Drive provider *)

Module DriveMore.
Import Drive DriveControls DriveFacts.

(** *** The names of the data files *)

Lemma prefix_data_json c s :
  String.prefix "-data.json" (String c s)
  = if ascii_dec "-"%char c then String.prefix "data.json" s else false.
Proof. reflexivity. Qed.

Lemma replace_first_suffix (d : string) :
  dashless d -> replace_first "-data.json" "" (d +:+ "-data.json") = d.
Proof.
  induction d as [|c d IH]; intros Hd; [reflexivity|].
  rewrite append_cons. cbn [replace_first]. rewrite prefix_data_json.
  destruct (ascii_dec "-"%char c) as [<-|Hc].
  - exfalso. apply Hd. simpl. now left.
  - f_equal. apply IH. intros H. apply Hd. simpl. now right.
Qed.

(** X18. The data file of a domain whose name has no [-] is listed by
    [listAllDomainFiles] under that domain: taking [-data.json] out of
    [<domain>-data.json] gives the domain back. *)
Theorem domain_file_of_DATA_FILE (d : string) (file : list (string * json)) :
  dashless d -> assoc "name" file = Some (JStr (DATA_FILE d)) ->
  domain_file_of (JObj file) = Normal (DomainFile d (assoc "id" file)).
Proof.
  intros Hd Hname. unfold domain_file_of, name_of. cbn [prop]. rewrite Hname.
  unfold DATA_FILE. now rewrite replace_first_suffix.
Qed.

Section ProviderMore.

Variable server : Type.
Variable window_fetch : request -> server -> http_result * server.
Variable encodeURIComponent : string -> string.
Variable toISOString : Z -> string.
Variable String_of : json -> string.
Variable parseInt : option json -> option Z.
Variable domain : string.

Abbreviation world := (Drive.world server).
Abbreviation apiRequest := (Drive.apiRequest server window_fetch String_of).
Abbreviation getOrCreateDataFile :=
  (Drive.getOrCreateDataFile server window_fetch encodeURIComponent String_of domain).
Abbreviation getOrCreateAttachmentsFolder :=
  (Drive.getOrCreateAttachmentsFolder server window_fetch encodeURIComponent String_of domain).
Abbreviation find_or_create_folder :=
  (Drive.find_or_create_folder server window_fetch encodeURIComponent String_of).
Abbreviation fetch := (Drive.fetch server window_fetch encodeURIComponent String_of domain).
Abbreviation push :=
  (Drive.push server window_fetch encodeURIComponent toISOString String_of domain).
Abbreviation uploadAttachment :=
  (Drive.uploadAttachment server window_fetch encodeURIComponent String_of domain).
Abbreviation listAttachments :=
  (Drive.listAttachments server window_fetch encodeURIComponent String_of parseInt domain).
Abbreviation listAllDomainFiles :=
  (Drive.listAllDomainFiles server window_fetch encodeURIComponent String_of domain).
Abbreviation saved_folder := (Drive.saved_folder server domain).
Abbreviation unauthenticated := (Drive.unauthenticated server).
Abbreviation fails_fast := (Drive.fails_fast server).
Abbreviation fails_for_folder := (DriveControls.fails_for_folder server).
Abbreviation disconnect := (DriveControls.disconnect server).
Abbreviation selectFolder := (DriveControls.selectFolder server domain).
Abbreviation reset_ids := (DriveControls.reset_ids server).
Abbreviation removeFolder := (DriveControls.removeFolder server domain).
Abbreviation getFolder := (DriveControls.getFolder server domain).

(** *** The cached ids *)

Lemma getOrCreateDataFile_stores (w w1 : world) i :
  getOrCreateDataFile w = (Normal i, w1) -> fileId server w1 = i.
Proof.
  unfold Drive.getOrCreateDataFile.
  destruct (json_truthy (fileId server w)); [now intros [= <- <-]|].
  unfold bind at 1, getSavedFolder.
  destruct (saved_folder w) as [f|]; [|discriminate].
  unfold bind at 1. destruct (apiRequest _ _ w) as [[r|e] w2]; [|discriminate].
  destruct (first_file r) as [x|].
  - unfold bind. destruct (id_of server x w2) as [[i'|e] w3]; [|discriminate].
    now intros [= <- <-].
  - unfold bind at 1. destruct (apiRequest _ _ w2) as [[r'|e] w3]; [|discriminate].
    unfold bind. destruct (id_of server r' w3) as [[i'|e] w4]; [|discriminate].
    now intros [= <- <-].
Qed.

Lemma getOrCreateAttachmentsFolder_stores (w w1 : world) i :
  getOrCreateAttachmentsFolder w = (Normal i, w1) -> attachmentsFolderId server w1 = i.
Proof.
  unfold Drive.getOrCreateAttachmentsFolder.
  destruct (json_truthy (attachmentsFolderId server w)); [now intros [= <- <-]|].
  unfold bind at 1, getSavedFolder.
  destruct (saved_folder w) as [f|]; [|discriminate].
  unfold bind at 1. destruct (find_or_create_folder _ _ _ w) as [[r|e] w2]; [|discriminate].
  unfold bind. destruct (find_or_create_folder _ _ _ w2) as [[r'|e] w3]; [|discriminate].
  now intros [= <- <-].
Qed.

(** X19. Once [getOrCreateDataFile] has returned a truthy id, it returns
    the same id again without a request and without a look at the token or
    the folder; and so does [getOrCreateAttachmentsFolder]. *)
Theorem getOrCreate_remembers (w w1 : world) (i : option json) :
  json_truthy i = true ->
  (getOrCreateDataFile w = (Normal i, w1) -> getOrCreateDataFile w1 = (Normal i, w1)) /\
  (getOrCreateAttachmentsFolder w = (Normal i, w1) ->
   getOrCreateAttachmentsFolder w1 = (Normal i, w1)).
Proof.
  intros Hi. split; intros H.
  - apply getOrCreateDataFile_stores in H. subst i.
    now apply getOrCreateDataFile_cached.
  - apply getOrCreateAttachmentsFolder_stores in H. subst i.
    now apply getOrCreateAttachmentsFolder_cached.
Qed.

(** *** Signing out *)

Lemma disconnect_unauthenticated (w : world) : unauthenticated (snd (disconnect w)).
Proof.
  unfold Drive.unauthenticated, DriveControls.disconnect, OAuth.getToken, OAuth.logout.
  simpl. now rewrite lookup_delete_eq.
Qed.

(** X20. After [disconnect()] the provider is not connected, and with a
    folder saved [fetch], [push], [uploadAttachment], [listAttachments] and
    [listAllDomainFiles] fail with the not-authenticated error before any
    request is sent, whatever ids were cached before. *)
Theorem disconnect_fails_fast (w : world) :
  let w' := snd (disconnect w) in
  Drive.isConnected server w' = (Normal false, w') /\
  (is_Some (saved_folder w) ->
   fails_fast fetch w' /\
   (forall sd, fails_fast (push sd) w') /\
   (forall attachmentId filename blob mimeType,
      fails_fast (uploadAttachment attachmentId filename blob mimeType) w') /\
   fails_fast listAttachments w' /\
   fails_fast listAllDomainFiles w').
Proof.
  intros w'. pose proof (disconnect_unauthenticated w) as Hu. fold w' in Hu.
  split.
  - unfold Drive.isConnected, bind, getToken, DriveControls.disconnect, OAuth.getToken,
      OAuth.logout in *. subst w'. simpl. rewrite lookup_delete_eq. reflexivity.
  - intros [f Hf].
    assert (Hf' : saved_folder w' = Some f) by exact Hf.
    assert (Hc : json_truthy (fileId server w') = false) by reflexivity.
    assert (Hc' : json_truthy (attachmentsFolderId server w') = false) by reflexivity.
    destruct (getOrCreateDataFile_unauthenticated server window_fetch encodeURIComponent
                String_of domain w' Hu Hc) as [a Ha].
    destruct (getOrCreateAttachmentsFolder_unauthenticated server window_fetch
                encodeURIComponent String_of domain w' Hu Hc') as [a' Ha'].
    rewrite Hf' in Ha, Ha'.
    split; [|split; [|split; [|split]]].
    + eapply fails_fast_intro. apply bind_Throw, Ha.
    + intros sd. eapply fails_fast_intro. apply bind_Throw, Ha.
    + intros. eapply fails_fast_intro. apply bind_Throw, Ha'.
    + eapply fails_fast_intro. apply bind_Throw, Ha'.
    + destruct (apiRequest_unauthenticated server window_fetch String_of
                  ("/drive/v3/files?q="
                     +:+ encodeURIComponent ("'" +:+ folder_id f
                           +:+ "' in parents and name contains '-data.json' and trashed=false")
                     +:+ "&fields=files(id,name)") no_options w' Hu) as [a2 Ha2].
      eapply fails_fast_intro. unfold Drive.listAllDomainFiles.
      rewrite (bind_Normal _ _ _ w' (saved_folder w') w') by reflexivity. rewrite Hf'.
      apply bind_Throw, Ha2.
Qed.

(** *** Changing the folder *)

Lemma getOrCreateDataFile_no_folder (w : world) :
  json_truthy (fileId server w) = false -> saved_folder w = None ->
  getOrCreateDataFile w = (Throw no_folder, w).
Proof.
  intros Hc Hf. unfold Drive.getOrCreateDataFile. rewrite Hc.
  rewrite (bind_Normal _ _ _ w (saved_folder w) w) by reflexivity. now rewrite Hf.
Qed.

Lemma getOrCreateAttachmentsFolder_no_folder (w : world) :
  json_truthy (attachmentsFolderId server w) = false -> saved_folder w = None ->
  getOrCreateAttachmentsFolder w = (Throw no_folder, w).
Proof.
  intros Hc Hf. unfold Drive.getOrCreateAttachmentsFolder. rewrite Hc.
  rewrite (bind_Normal _ _ _ w (saved_folder w) w) by reflexivity. now rewrite Hf.
Qed.

Lemma fails_for_folder_intro {A} (op : M server A) (w : world) :
  op w = (Throw no_folder, w) -> fails_for_folder op w.
Proof. intros H. unfold DriveControls.fails_for_folder. now rewrite H. Qed.


Lemma id_of_frame (x : json) (w : world) : snd (id_of server x w) = w.
Proof. now destruct x. Qed.

Lemma apiRequest_grows path options (w : world) :
  exists rest, sent server (snd (apiRequest path options w)) = sent server w ++ rest.
Proof.
  unfold Drive.apiRequest, bind at 1, getToken.
  destruct (OAuth.getToken "google" (auth server w)) as [t a].
  destruct (negb (OAuth.truthy_str t)).
  - exists []. simpl. now rewrite app_nil_r.
  - unfold bind, send. cbn [remote set_auth auth settings fileId attachmentsFolderId sent].
    destruct (window_fetch _ (remote server w)) as [[e|ok b] srv]; [now eexists|].
    destruct ok; cbn [negb]; [destruct b|]; now eexists.
Qed.

Lemma apiRequest_sends path options (w : world) token a :
  OAuth.getToken "google" (auth server w) = (Some token, a) -> token <> ""%string ->
  sent server (snd (apiRequest path options w))
  = sent server w ++ [Request (default "GET"%string (opt_method options)) (API_BASE +:+ path)
                              ("Bearer " +:+ token) (opt_content_type options)
                              (opt_body options)].
Proof.
  intros Ht Hne. unfold Drive.apiRequest, bind at 1, getToken. rewrite Ht.
  assert (OAuth.truthy_str (Some token) = true) as ->
    by (simpl; now destruct (String.eqb_spec token "")).
  cbn [negb default]. unfold bind, send.
  cbn [remote set_auth auth settings fileId attachmentsFolderId sent].
  destruct (window_fetch _ (remote server w)) as [[e|ok b] srv]; [reflexivity|].
  destruct ok; cbn [negb]; [destruct b|]; reflexivity.
Qed.

Abbreviation data_file_search := (DriveControls.data_file_search encodeURIComponent domain).

(** X22. [selectFolder] returns the folder that was picked and forgets
    the cached ids.  On settings that take a folder (absent, empty or an
    object) it saves the folder: [getFolder] returns it, and the next
    [getOrCreateDataFile] of a signed-in provider starts with a search for
    the data file in the new folder, whatever id was cached for the old
    one.  On settings that do not take it (unparsable, null, an array, a
    primitive) the saved folder stays what it was.  When the picker is
    cancelled nothing changes. *)
Theorem selectFolder_searches_anew (writable : bool) (w : world) (f : folder)
  (token : string) a :
  folder_id f <> ""%string ->
  OAuth.getToken "google" (auth server w) = (Some token, a) -> token <> ""%string ->
  let w' := snd (selectFolder writable (Some f) w) in
  fst (selectFolder writable (Some f) w) = Normal (Some f) /\
  json_truthy (fileId server w') = false /\
  json_truthy (attachmentsFolderId server w') = false /\
  (writable = true ->
   getFolder w' = (Normal (Some f), w') /\
   exists rest, sent server (snd (getOrCreateDataFile w'))
                = sent server w ++ data_file_search f token :: rest) /\
  (writable = false -> w' = reset_ids w) /\
  selectFolder writable None w = (Normal None, w).
Proof.
  intros Hid Ht Hne w'.
  split; [reflexivity|]. split; [reflexivity|]. split; [reflexivity|].
  split; [|split; [intros ->; reflexivity | reflexivity]].
  intros ->.
  assert (Hf : saved_folder w' = Some f).
  { unfold Drive.saved_folder. subst w'. simpl. rewrite lookup_insert_eq.
    now destruct (String.eqb_spec (folder_id f) ""). }
  split.
  { unfold DriveControls.getFolder, getSavedFolder. now rewrite Hf. }
  unfold Drive.getOrCreateDataFile.
  assert (json_truthy (fileId server w') = false) as -> by reflexivity.
  rewrite (bind_Normal _ _ _ w' (saved_folder w') w') by reflexivity. rewrite Hf.
  match goal with
  | |- context [bind server (apiRequest ?path ?options) ?k w'] =>
      pose proof (apiRequest_sends path options w' token a Ht Hne) as Hsent;
      unfold bind at 1; destruct (apiRequest path options w') as [[r|e] w2]
  end; cbn [snd] in Hsent;
    cbn [opt_method opt_content_type opt_body no_options default] in Hsent;
    change (Request "GET" _ _ None NoPayload) with (data_file_search f token) in Hsent;
    change (sent server w') with (sent server w) in Hsent.
  2:{ exists []. exact Hsent. }
  destruct (first_file r) as [x|].
  - exists []. unfold bind. pose proof (id_of_frame x w2) as Hx.
    destruct (id_of server x w2) as [[i|e] w3]; cbn [snd] in *; subst w3; exact Hsent.
  - match goal with
    | |- context [bind server (apiRequest ?path ?options) ?k w2] =>
        destruct (apiRequest_grows path options w2) as [rest Hrest];
        unfold bind at 1; destruct (apiRequest path options w2) as [[r'|e] w3]
    end; cbn [snd] in Hrest; rewrite Hsent in Hrest.
    + exists rest. unfold bind. pose proof (id_of_frame r' w3) as Hx.
      destruct (id_of server r' w3) as [[i|e] w4]; cbn [snd] in *; subst w4;
        cbn [sent set_fileId]; rewrite Hrest; now rewrite <- app_assoc.
    + exists rest. cbn [snd]. rewrite Hrest. now rewrite <- app_assoc.
Qed.

(** *** What is pushed is what is fetched *)

(** X23. When [push] succeeds, its last request is the upload of a
    document from which [fetch] reads the pushed data back, with null in
    the place of data that is falsy (zero, the empty string, false), and
    reads back the [lastModified] that was given. *)
Theorem push_then_read (sd : syncData) (w w' : world) :
  push sd w = (Normal true, w') ->
  exists earlier req doc,
    sent server w' = earlier ++ [req] /\
    method req = "PATCH"%string /\
    sent_body req = FormPayload (JObj [("mimeType", JStr "application/json")]%string)
                                (FileJson doc) /\
    prop "domain" doc = Some (JStr domain) /\
    data (read_document (Response true (JsonBody doc))) = or_null (Some (sd_data sd)) /\
    (json_truthy (sd_lastModified sd) = true ->
     Some (lastModified (read_document (Response true (JsonBody doc)))) = sd_lastModified sd).
Proof.
  unfold Drive.push, bind at 1.
  destruct (getOrCreateDataFile w) as [[id|e] w1]; [|discriminate].
  unfold bind at 1, now_iso. unfold bind at 1, getToken.
  destruct (OAuth.getToken "google" (auth server w1)) as [t a].
  unfold bind, send. cbn [remote set_auth auth settings fileId attachmentsFolderId sent].
  destruct (window_fetch _ (remote server w1)) as [[e|ok b] srv]; [discriminate|].
  destruct ok; cbn [negb]; [|discriminate]. intros [= <-].
  eexists _, _, _. split; [reflexivity|]. split; [reflexivity|]. split; [reflexivity|].
  split; [reflexivity|]. split; [reflexivity|].
  intros Hlm. rewrite Hlm. destruct (sd_lastModified sd) as [x|]; [|discriminate].
  unfold read_document, or_null. cbn [json_truthy is_object andb prop assoc String.eqb].
  cbn [default] in *. simpl. simpl in Hlm. now rewrite Hlm.
Qed.

End ProviderMore.

End DriveMore.

Module DriveMoreExamples.
Import Drive DriveSamples DriveControls DriveMore.

Lemma domain_file_of_DATA_FILE_witness :
  dashless "gardener" /\
  domain_file_of (JObj [("id", JStr "f1"); ("name", JStr "gardener-data.json")]%string)
  = Normal (DomainFile "gardener" (Some (JStr "f1"))).
Proof.
  assert (H : dashless "gardener") by (unfold dashless; simpl; intuition discriminate).
  split; [exact H|].
  exact (domain_file_of_DATA_FILE "gardener"
           [("id", JStr "f1"); ("name", JStr "gardener-data.json")]%string H eq_refl).
Defined.

(** A name with a [-] in the domain that takes the suffix with it. *)
Example domain_file_of_early_suffix :
  domain_file_of (JObj [("name", JStr (DATA_FILE "a-data.json-b"))]%string)
  = Normal (DomainFile "a-b-data.json" None).
Proof. reflexivity. Qed.

(** The first use creates the file [f9]; the second finds the id cached. *)
Lemma getOrCreate_remembers_witness :
  let first := getOrCreateDataFile body first_use unescaped String_of_none "gardener" fresh in
  fst first = Normal (Some (JStr "f9")) /\
  getOrCreateDataFile body first_use unescaped String_of_none "gardener" (snd first)
  = (Normal (Some (JStr "f9")), snd first).
Proof.
  intros first. split; [reflexivity|].
  apply (getOrCreate_remembers body first_use unescaped String_of_none "gardener"
           fresh (snd first) (Some (JStr "f9")) eq_refl).
  reflexivity.
Defined.

(** Signed in with the data file cached, then disconnected. *)
Lemma disconnect_fails_fast_witness :
  let w' := snd (disconnect body (connected EmptyBody)) in
  is_Some (saved_folder body "gardener" (connected EmptyBody)) /\
  fails_fast body (fetch body serving unescaped String_of_none "gardener") w' /\
  (forall sd,
     fails_fast body (push body serving unescaped stamp String_of_none "gardener" sd) w').
Proof.
  intros w'.
  assert (H : is_Some (saved_folder body "gardener" (connected EmptyBody)))
    by (simpl; eauto).
  split; [exact H|].
  destruct (disconnect_fails_fast body serving unescaped stamp String_of_none parseInt_none
              "gardener" (connected EmptyBody)) as [_ Hall].
  destruct (Hall H) as (Hfetch & Hpush & _).
  split; [exact Hfetch | exact Hpush].
Defined.

(** On settings that are an object the new folder is saved and searched;
    on settings that cannot be read, with no folder saved, none is saved. *)
Lemma selectFolder_searches_anew_witness :
  let w' := snd (selectFolder body "gardener" true (Some (Folder "folder-9" "Allotment"))
                   (connected EmptyBody)) in
  let unreadable := World body signed_in ∅ (Some (JStr "f1")) None EmptyBody [] in
  getFolder body "gardener" w' = (Normal (Some (Folder "folder-9" "Allotment")), w') /\
  (exists rest,
     sent body (snd (getOrCreateDataFile body first_use unescaped String_of_none "gardener" w'))
     = sent body (connected EmptyBody)
       ++ data_file_search unescaped "gardener" (Folder "folder-9" "Allotment") "ya29.sample"
       :: rest) /\
  fst (getFolder body "gardener"
         (snd (selectFolder body "gardener" false (Some (Folder "folder-9" "Allotment"))
                 unreadable)))
  = Normal None.
Proof.
  intros w' unreadable.
  destruct (selectFolder_searches_anew body first_use unescaped String_of_none "gardener"
              true (connected EmptyBody) (Folder "folder-9" "Allotment") "ya29.sample"
              signed_in) as (_ & _ & _ & Hsaved & _ & _);
    [discriminate | reflexivity | discriminate |].
  destruct (selectFolder_searches_anew body first_use unescaped String_of_none "gardener"
              false unreadable (Folder "folder-9" "Allotment") "ya29.sample"
              signed_in) as (_ & _ & _ & _ & Hlost & _);
    [discriminate | reflexivity | discriminate |].
  destruct (Hsaved eq_refl) as [H1 H2].
  split; [exact H1|]. split; [exact H2|]. now rewrite (Hlost eq_refl).
Defined.

Lemma push_then_read_witness :
  exists w' earlier req doc,
    push body serving unescaped stamp String_of_none "gardener"
         (SyncData None (JNum 0) (Some (JStr "2025-01-01T00:00:00Z")))
         (connected EmptyBody)
    = (Normal true, w') /\
    sent body w' = earlier ++ [req] /\
    method req = "PATCH"%string /\
    sent_body req = FormPayload (JObj [("mimeType", JStr "application/json")]%string)
                                (FileJson doc) /\
    prop "domain" doc = Some (JStr "gardener") /\
    data (read_document (Response true (JsonBody doc))) = JNull /\
    lastModified (read_document (Response true (JsonBody doc)))
    = JStr "2025-01-01T00:00:00Z".
Proof.
  set (sd := SyncData None (JNum 0) (Some (JStr "2025-01-01T00:00:00Z"))).
  set (r := push body serving unescaped stamp String_of_none "gardener" sd
                 (connected EmptyBody)).
  assert (Hr : r = (Normal true, snd r)) by reflexivity.
  destruct (push_then_read body serving unescaped stamp String_of_none "gardener"
              sd (connected EmptyBody) (snd r) Hr)
    as (earlier & req & doc & H1 & H2 & H3 & H4 & H5 & H6).
  exists (snd r), earlier, req, doc. split; [exact Hr|].
  split; [exact H1|]. split; [exact H2|]. split; [exact H3|]. split; [exact H4|].
  split; [exact H5|]. specialize (H6 eq_refl). now injection H6.
Defined.

End DriveMoreExamples.

(** ** The saved folder ([getSavedFolder], [saveFolder], [clearFolder]) *)

Module PickerFacts.
Import Drive Picker.

Lemma assoc_set_prop_eq k v fs : assoc k (set_prop k v fs) = Some v.
Proof.
  induction fs as [|[k' v'] fs IH]; simpl.
  - now rewrite String.eqb_refl.
  - destruct (String.eqb k k') eqn:E; simpl; [now rewrite String.eqb_refl | now rewrite E].
Qed.

Lemma assoc_set_prop_ne k k' v fs : k' <> k -> assoc k' (set_prop k v fs) = assoc k' fs.
Proof.
  intros Hne. induction fs as [|[k0 v0] fs IH]; simpl.
  - now destruct (String.eqb_spec k' k).
  - destruct (String.eqb_spec k k0) as [->|Hk]; simpl.
    + now destruct (String.eqb_spec k' k0).
    + now rewrite IH.
Qed.

Lemma assoc_delete_prop_eq k fs : assoc k (delete_prop k fs) = None.
Proof.
  induction fs as [|[k' v'] fs IH]; simpl; [reflexivity|].
  destruct (String.eqb k k') eqn:E; simpl; [exact IH | now rewrite E].
Qed.

Lemma assoc_delete_prop_ne k k' fs : k' <> k -> assoc k' (delete_prop k fs) = assoc k' fs.
Proof.
  intros Hne. induction fs as [|[k0 v0] fs IH]; simpl; [reflexivity|].
  destruct (String.eqb_spec k k0) as [->|Hk]; simpl.
  - rewrite IH. now destruct (String.eqb_spec k' k0).
  - now rewrite IH.
Qed.

Lemma read_settings_insert domain j s :
  read_settings domain (<[domain := Doc j]> s) = Some j.
Proof. unfold read_settings. now rewrite lookup_insert_eq. Qed.

(** X24. A folder with a truthy id that [saveFolder] has saved is what
    [getSavedFolder] returns, provided the settings of the domain were
    absent or an object; settings that are not JSON, or are null, an array
    or a primitive, stay what they were and [getSavedFolder] returns null:
    the folder is lost without an error.  The other settings of the domain
    and the entries of other domains are kept. *)
Theorem saveFolder_then_getSavedFolder (domain : string) (folder : json) (s : storage) :
  json_truthy (prop "id" folder) = true ->
  (writable domain s -> getSavedFolder domain (saveFolder domain folder s) = Some folder) /\
  (~ writable domain s ->
     getSavedFolder domain (saveFolder domain folder s) = None /\
     read_settings domain (saveFolder domain folder s) = read_settings domain s) /\
  (forall k, k <> "syncFolder"%string ->
     setting k domain (saveFolder domain folder s) = setting k domain s) /\
  (forall other, other <> domain -> saveFolder domain folder s !! other = s !! other).
Proof.
  intros Hid. unfold writable, getSavedFolder, saveFolder, setting.
  destruct (read_settings domain s) as [[| | | |l|fs]|] eqn:E;
    rewrite ?read_settings_insert, ?E.
  all: split; [intros [fs' [=]] |]; try subst fs'.
  all: try (split; [intros _; split; reflexivity |]).
  all: try (split; [reflexivity|]).
  all: try (intros other Hne; rewrite ?lookup_insert_ne by congruence; reflexivity).
  - cbn [prop]. now rewrite assoc_set_prop_eq, Hid.
  - split; [intros H; exfalso; apply H; eauto|]. split.
    + intros k Hk. cbn [prop]. now apply assoc_set_prop_ne.
    + intros other Hne. now rewrite lookup_insert_ne by congruence.
Qed.

(** X25. After [clearFolder] no folder is saved for the domain, whatever
    its settings were; its other settings and the entries of other domains
    are kept. *)
Theorem clearFolder_forgets (domain : string) (s : storage) :
  getSavedFolder domain (clearFolder domain s) = None /\
  (forall k, k <> "syncFolder"%string ->
     setting k domain (clearFolder domain s) = setting k domain s) /\
  (forall other, other <> domain -> clearFolder domain s !! other = s !! other).
Proof.
  unfold getSavedFolder, clearFolder, setting.
  destruct (read_settings domain s) as [[| | | |l|fs]|] eqn:E;
    rewrite ?read_settings_insert, ?E.
  all: split; [try reflexivity|].
  all: try (split; [try reflexivity|]).
  all: try (intros other Hne; rewrite ?lookup_insert_ne by congruence; reflexivity).
  - now rewrite assoc_delete_prop_eq.
  - intros k Hk. cbn [prop]. now apply assoc_delete_prop_ne.
Qed.

End PickerFacts.

Module PickerExamples.
Import Drive Picker PickerSamples PickerFacts.

Lemma saveFolder_then_getSavedFolder_witness :
  json_truthy (prop "id" allotment) = true /\
  getSavedFolder "gardener" (saveFolder "gardener" allotment themed) = Some allotment /\
  getSavedFolder "gardener" (saveFolder "gardener" allotment broken) = None /\
  setting "theme" "gardener" (saveFolder "gardener" allotment themed) = Some (JStr "dark").
Proof.
  assert (Hid : json_truthy (prop "id" allotment) = true) by reflexivity.
  destruct (saveFolder_then_getSavedFolder "gardener" allotment themed Hid)
    as (Hsaved & _ & Hkept & _).
  destruct (saveFolder_then_getSavedFolder "gardener" allotment broken Hid)
    as (_ & Hlost & _).
  split; [exact Hid|]. split; [|split].
  - apply Hsaved. eexists. reflexivity.
  - apply Hlost. intros [fs H]. discriminate.
  - rewrite Hkept by discriminate. reflexivity.
Defined.

End PickerExamples.

(** ** The local database of the application ([mergeData] of [db.js]) *)

Module StoreFacts.
Import Store.

(** *** The order of the time stamps *)

Lemma ascii_compare_Gt a b :
  Ascii.compare a b = Gt <-> (N_of_ascii b < N_of_ascii a)%N.
Proof. unfold Ascii.compare. now rewrite N.compare_gt_iff. Qed.

Lemma ascii_compare_refl a : Ascii.compare a a = Eq.
Proof. unfold Ascii.compare. apply N.compare_refl. Qed.

Lemma compare_refl (s : string) : String.compare s s = Eq.
Proof. induction s as [|c s IH]; simpl; [reflexivity|]. now rewrite ascii_compare_refl. Qed.

Lemma compare_Gt_trans (a b c : string) :
  String.compare a b = Gt -> String.compare b c = Gt -> String.compare a c = Gt.
Proof.
  revert b c. induction a as [|x a IH]; intros [|y b] [|z c]; simpl; try congruence.
  destruct (Ascii.compare x y) eqn:Exy; try discriminate;
    destruct (Ascii.compare y z) eqn:Eyz; try discriminate.
  - apply Ascii.compare_eq_iff in Exy, Eyz. subst. rewrite ascii_compare_refl. apply IH.
  - apply Ascii.compare_eq_iff in Exy. subst. now rewrite Eyz.
  - apply Ascii.compare_eq_iff in Eyz. subst. now rewrite Exy.
  - apply ascii_compare_Gt in Exy, Eyz.
    assert (Ascii.compare x z = Gt) as -> by (apply ascii_compare_Gt; lia). reflexivity.
Qed.

Lemma newer_irrefl a : newer a a = false.
Proof. destruct a as [s|]; simpl; [now rewrite compare_refl | reflexivity]. Qed.

Lemma newer_trans a b c : newer a b = true -> newer b c = true -> newer a c = true.
Proof.
  destruct a as [x|], b as [y|], c as [z|]; simpl; try discriminate.
  destruct (String.compare x y) eqn:E1; try discriminate.
  destruct (String.compare y z) eqn:E2; try discriminate.
  now rewrite (compare_Gt_trans _ _ _ E1 E2).
Qed.

(** *** One record *)

Lemma merge_idea_other s r k : k <> id r -> merge_idea s r !! k = s !! k.
Proof.
  intros Hne. unfold merge_idea. destruct (s !! id r) as [l|].
  - destruct (newer _ _); [|reflexivity]. now rewrite lookup_insert_ne by congruence.
  - now rewrite lookup_insert_ne by congruence.
Qed.

Lemma merge_idea_same s r :
  merge_idea s r !! id r
  = match s !! id r with
    | Some l => if newer (updatedAt r) (updatedAt l) then Some r else Some l
    | None => Some r
    end.
Proof.
  unfold merge_idea. destruct (s !! id r) as [l|] eqn:E.
  - destruct (newer _ _); [apply lookup_insert_eq | exact E].
  - apply lookup_insert_eq.
Qed.

(** *** The loop *)

Lemma merge_origin R s k x :
  fold_left merge_idea R s !! k = Some x -> s !! k = Some x \/ (x ∈ R /\ id x = k).
Proof.
  revert s. induction R as [|r R IH]; intros s; cbn [fold_left]; [auto|].
  intros H. apply IH in H as [H|[H1 H2]].
  - destruct (decide (k = id r)) as [->|Hne].
    + rewrite merge_idea_same in H. destruct (s !! id r) as [l|] eqn:E.
      * destruct (newer _ _); injection H as H; subst x.
        -- right. split; [rewrite elem_of_cons; now left | reflexivity].
        -- now left.
      * injection H as H; subst x.
        right. split; [rewrite elem_of_cons; now left | reflexivity].
    + rewrite merge_idea_other in H by assumption. now left.
  - right. split; [rewrite elem_of_cons; now right | exact H2].
Qed.

Lemma merge_keeps R s k l :
  s !! k = Some l ->
  exists x, fold_left merge_idea R s !! k = Some x /\
            (x = l \/ newer (updatedAt x) (updatedAt l) = true).
Proof.
  revert s l. induction R as [|r R IH]; intros s l Hl; cbn [fold_left]; [eauto|].
  destruct (decide (k = id r)) as [->|Hne].
  - pose proof (merge_idea_same s r) as H1. rewrite Hl in H1.
    destruct (newer (updatedAt r) (updatedAt l)) eqn:E.
    + destruct (IH _ _ H1) as (x & Hx & [Heq|Hn]); exists x; (split; [exact Hx|]); right.
      * now subst x.
      * eapply newer_trans; eassumption.
    + apply (IH _ _ H1).
  - apply IH. now rewrite merge_idea_other.
Qed.

Lemma merge_settles R s r :
  r ∈ R ->
  exists x, fold_left merge_idea R s !! id r = Some x /\
            newer (updatedAt r) (updatedAt x) = false.
Proof.
  revert s. induction R as [|r0 R IH]; intros s Hr; [now apply elem_of_nil in Hr|].
  cbn [fold_left]. apply elem_of_cons in Hr as [->|Hr]; [|now apply IH].
  assert (Hy : exists y, merge_idea s r0 !! id r0 = Some y /\
                         newer (updatedAt r0) (updatedAt y) = false).
  { rewrite merge_idea_same. destruct (s !! id r0) as [l|].
    - destruct (newer (updatedAt r0) (updatedAt l)) eqn:E; eauto using newer_irrefl.
    - eauto using newer_irrefl. }
  destruct Hy as (y & Hy & Hny).
  destruct (merge_keeps R _ _ _ Hy) as (x & Hx & [Heq|Hn]); exists x; (split; [exact Hx|]).
  - now subst x.
  - destruct (newer (updatedAt r0) (updatedAt x)) eqn:E; [|reflexivity].
    now rewrite (newer_trans _ _ _ E Hn) in Hny.
Qed.

Lemma merge_idea_stable R s :
  (forall r, r ∈ R -> exists x, s !! id r = Some x /\
                                newer (updatedAt r) (updatedAt x) = false) ->
  fold_left merge_idea R s = s.
Proof.
  induction R as [|r R IH]; intros H; cbn [fold_left]; [reflexivity|].
  assert (E : merge_idea s r = s).
  { destruct (H r) as (x & Hx & Hn); [rewrite elem_of_cons; now left|].
    unfold merge_idea. now rewrite Hx, Hn. }
  rewrite E. apply IH. intros r' Hr'. apply H. rewrite elem_of_cons. now right.
Qed.

(** X26. [mergeData] is last-write-wins by key and deletes nothing.  A key
    is in the store afterwards exactly when it was there or comes with a
    remote idea.  The idea under a key is the local one or a remote one of
    that key; it is the local one or newer than it, and no remote idea of
    that key is newer than it.  An idea without [updatedAt] is never newer
    and never older. *)
Theorem mergeData_last_write_wins (remote : list idea) (s : ideas_store) (k : string) :
  let s' := mergeData (Some remote) s in
  (s' !! k = None <-> s !! k = None /\ k ∉ id <$> remote) /\
  (forall x, s' !! k = Some x ->
     (s !! k = Some x \/ (x ∈ remote /\ id x = k)) /\
     (forall l, s !! k = Some l -> x = l \/ newer (updatedAt x) (updatedAt l) = true) /\
     (forall r, r ∈ remote -> id r = k -> newer (updatedAt r) (updatedAt x) = false)).
Proof.
  intros s'. subst s'. unfold mergeData. split.
  - split.
    + intros Hnone. split.
      * destruct (s !! k) as [l|] eqn:E; [|reflexivity].
        destruct (merge_keeps remote s k l E) as (x & Hx & _). congruence.
      * intros Hin. apply list_elem_of_fmap in Hin as (r & -> & Hr).
        destruct (merge_settles remote s r Hr) as (x & Hx & _). congruence.
    + intros [Hs Hk]. destruct (fold_left merge_idea remote s !! k) as [x|] eqn:E;
        [|reflexivity].
      apply merge_origin in E as [E|[E1 E2]]; [congruence|].
      exfalso. apply Hk. rewrite <- E2. now apply list_elem_of_fmap_2.
  - intros x Hx. split; [now apply merge_origin|]. split.
    + intros l Hl. destruct (merge_keeps remote s k l Hl) as (x' & Hx' & H). congruence.
    + intros r Hr <-. destruct (merge_settles remote s r Hr) as (x' & Hx' & H). congruence.
Qed.

(** X27. Merging into the store ideas that it already holds changes
    nothing: what [exportAllData] has read can be merged back at no cost. *)
Theorem mergeData_held (l : list idea) (s : ideas_store) :
  held l s -> mergeData (Some l) s = s.
Proof.
  intros H. apply merge_idea_stable. intros r Hr. exists r.
  split; [now apply H | apply newer_irrefl].
Qed.

(** X28. [mergeData] is idempotent: merging the same remote data a second
    time changes nothing. *)
Theorem mergeData_twice (ideas : option (list idea)) (s : ideas_store) :
  mergeData ideas (mergeData ideas s) = mergeData ideas s.
Proof.
  destruct ideas as [remote|]; [|reflexivity]. apply merge_idea_stable.
  intros r Hr. now apply merge_settles.
Qed.

End StoreFacts.

Module StoreExamples.
Import Store StoreSamples StoreFacts.

(** The newer local [i1] stays, the newer remote [i2] comes in, and the new
    [i3] is added. *)
Example shelf_merge :
  content <$> (mergeData (Some arriving) shelf !! "i1"%string) = Some "raised"%string /\
  content <$> (mergeData (Some arriving) shelf !! "i2"%string) = Some "ordered"%string /\
  title <$> (mergeData (Some arriving) shelf !! "i3"%string) = Some "Tools"%string.
Proof. repeat split; reflexivity. Qed.

Lemma mergeData_held_witness :
  let own := [ Idea "i2" (Some "2025-01-01T00:00:02.000Z"%string) "Seeds" "order";
               Idea "i1" (Some "2025-01-01T00:00:10.000Z"%string) "Beds" "raised" ] in
  held own shelf /\ mergeData (Some own) shelf = shelf.
Proof.
  intros own.
  assert (H : held own shelf).
  { intros x Hx. unfold own in Hx.
    repeat (apply elem_of_cons in Hx as [->|Hx]); [reflexivity | reflexivity |].
    now apply elem_of_nil in Hx. }
  split; [exact H|]. exact (mergeData_held own shelf H).
Defined.

End StoreExamples.

(** ** The application's dashboard ([fetchAllProjectData] of [sync.js]) *)

Module AppFacts.
Import Drive DriveFacts App.

Section DashboardFacts.

Variable server : Type.
Variable window_fetch : request -> server -> http_result * server.
Variable String_of : json -> string.

Abbreviation world := (Drive.world server).
Abbreviation fetchDomainData := (Drive.fetchDomainData server window_fetch String_of).
Abbreviation collect := (App.collect server window_fetch String_of).
Abbreviation fetchAllProjectData := (App.fetchAllProjectData server window_fetch String_of).
Abbreviation holds_token := (App.holds_token server).
Abbreviation after := (App.after server).

Lemma set_auth_own (w : world) : set_auth server (auth server w) w = w.
Proof. now destruct w. Qed.

Lemma fetchDomainData_download (file token : string) (w : world) :
  holds_token token w -> token <> ""%string ->
  exists data srv,
    fetchDomainData file w = (Normal data, after (download file token) srv w).
Proof.
  intros Ht Hne. unfold Drive.fetchDomainData, try_catch, Drive.apiRequest, bind at 1, getToken.
  rewrite Ht, set_auth_own.
  assert (OAuth.truthy_str (Some token) = true) as ->
    by (simpl; now destruct (String.eqb_spec token "")).
  cbn [negb]. unfold bind, send.
  change (Request _ _ _ _ _) with (download file token).
  destruct (window_fetch (download file token) (remote server w)) as [[e|ok b] srv];
    [now eexists _, srv|].
  destruct ok; cbn [negb]; [destruct b|]; now eexists _, srv.
Qed.

Lemma holds_token_after token r srv (w : world) :
  holds_token token w -> holds_token token (after r srv w).
Proof. exact (fun H => H). Qed.

Lemma collect_step (d : string) ds projectData token (w : world) :
  holds_token token w -> token <> ""%string ->
  exists data srv,
    collect (d :: ds) projectData w
    = collect ds (projectData ++ [(d, data)]) (after (download d token) srv w).
Proof.
  intros Ht Hne. destruct (fetchDomainData_download d token w Ht Hne) as (data & srv & H).
  exists data, srv. cbn [App.collect]. unfold bind at 1, try_catch, bind at 1.
  now rewrite H.
Qed.


End DashboardFacts.

End AppFacts.

Module AppExamples.
Import Drive DriveSamples App AppSamples AppFacts.


End AppExamples.
